(** * internal/crypto: the SIWS verifier, the encrypted envelope and the nonce store

    A shallow embedding of [internal/crypto/crypto.go].  Go strings are
    byte strings ([string]), [[]byte] is [list byte], a [map[string]string]
    is a [gmap string string], a nil-able pointer is an [option], an
    [error] result is an [option] of an error value ([None] is [nil]).
    [log.Printf] lines write to the process log only and are left out. *)

From Stdlib Require Import ZArith NArith Lia List Bool.
From Stdlib.Strings Require Import Ascii String Byte.
From stdpp Require Import gmap strings list.
Import ListNotations.

(** ** Go basics *)

(** [time.Time] as an instant on the integer line, counted in nanoseconds
    from the zero time (January 1, year 1, 00:00 UTC); [time.Duration] is
    a count of nanoseconds.  The integers are unbounded: the ends of the
    range Go represents are not modelled. *)
Definition Time := Z.
Definition Duration := Z.

Module time.
Definition IsZero (t : Time) : bool := (t =? 0)%Z.
Definition Before (t u : Time) : bool := (t <? u)%Z.
Definition After (t u : Time) : bool := (u <? t)%Z.
Definition Add (t : Time) (d : Duration) : Time := (t + d)%Z.
End time.

#[global] Instance byte_eq_decision : EqDecision byte := Byte.byte_eq_dec.

(** [s == ""] *)
Definition str_empty (s : string) : bool :=
  match s with EmptyString => true | _ => false end.

(** [[]byte(s)] and [string(b)] *)
Definition bytes_of (s : string) : list byte := String.list_byte_of_string s.
Definition string_of (b : list byte) : string := String.string_of_list_byte b.

(** * The libraries the package calls

    Models of the Go library functions that [crypto.go] calls, written from
    their specifications; each is checked against published test vectors
    below. *)

(** ** Bytes as numbers *)

Definition z_of_byte (b : byte) : Z := Z.of_N (Byte.to_N b).
Definition byte_of_z (z : Z) : byte :=
  default Byte.x00 (Byte.of_N (Z.to_N (z mod 256))).

(** Big-endian bytes of a 32-bit word. *)
Definition be32 (w : Z) : list byte :=
  [byte_of_z (Z.shiftr w 24); byte_of_z (Z.shiftr w 16);
   byte_of_z (Z.shiftr w 8); byte_of_z w].

(** The number a byte string spells in big-endian. *)
Definition be_number (bs : list byte) : Z :=
  fold_left (fun acc b => acc * 256 + z_of_byte b)%Z bs 0%Z.

(** [chunks n l]: [l] cut into pieces of [n] elements (the last may be
    shorter). *)
Fixpoint chunks_fuel {A} (fuel n : nat) (l : list A) : list (list A) :=
  match fuel with
  | O => []
  | S fuel' =>
      match l with
      | [] => []
      | _ => take n l :: chunks_fuel fuel' n (drop n l)
      end
  end.
Definition chunks {A} (n : nat) (l : list A) : list (list A) :=
  chunks_fuel (length l) n l.

(** ** crypto/sha256 (FIPS 180-4) *)

Module sha256.
Local Open Scope Z_scope.

Definition Size : nat := 32.
Definition BlockSize : nat := 64.

Definition mask32 : Z := 2 ^ 32 - 1.
Definition add32 (x y : Z) : Z := (x + y) mod 2 ^ 32.
Definition rotr (n x : Z) : Z :=
  Z.lor (Z.shiftr x n) (Z.land (Z.shiftl x (32 - n)) mask32).

Definition Ch (x y z : Z) : Z := Z.lxor (Z.land x y) (Z.land (Z.lxor x mask32) z).
Definition Maj (x y z : Z) : Z :=
  Z.lxor (Z.lxor (Z.land x y) (Z.land x z)) (Z.land y z).
Definition bsig0 (x : Z) : Z := Z.lxor (Z.lxor (rotr 2 x) (rotr 13 x)) (rotr 22 x).
Definition bsig1 (x : Z) : Z := Z.lxor (Z.lxor (rotr 6 x) (rotr 11 x)) (rotr 25 x).
Definition ssig0 (x : Z) : Z := Z.lxor (Z.lxor (rotr 7 x) (rotr 18 x)) (Z.shiftr x 3).
Definition ssig1 (x : Z) : Z := Z.lxor (Z.lxor (rotr 17 x) (rotr 19 x)) (Z.shiftr x 10).

(** The constants are the first 32 bits of the fractional parts of the
    square roots (initial hash value) and cube roots (round constants) of
    the first primes. *)
Definition is_prime (n : Z) : bool :=
  forallb (fun d => negb (n mod Z.of_nat d =? 0)) (seq 2 (Z.to_nat n - 2)).
Definition primes : list Z :=
  Eval vm_compute in List.filter is_prime (map Z.of_nat (seq 2 310)).

Fixpoint cube_root (bits : nat) (n r : Z) : Z :=
  match bits with
  | O => r
  | S b =>
      let c := r + 2 ^ Z.of_nat b in
      if c * c * c <=? n then cube_root b n c else cube_root b n r
  end.

Definition K : list Z :=
  Eval vm_compute in
    map (fun p => cube_root 40 (p * 2 ^ 96) 0 mod 2 ^ 32) (take 64 primes).
Definition H0 : list Z :=
  Eval vm_compute in map (fun p => Z.sqrt (p * 2 ^ 64) mod 2 ^ 32) (take 8 primes).

(** The message schedule: 16 words of the block, extended to 64. *)
Fixpoint schedule (n : nat) (w : list Z) : list Z :=
  match n with
  | O => w
  | S n' =>
      let t := length w in
      let at_ k := nth (t - k) w 0 in
      schedule n'
        (w ++ [add32 (add32 (ssig1 (at_ 2%nat)) (at_ 7%nat))
                     (add32 (ssig0 (at_ 15%nat)) (at_ 16%nat))])
  end.

Record state := State { sa : Z; sb : Z; sc : Z; sd : Z; se : Z; sf : Z; sg : Z; sh : Z }.

Definition round (s : state) (kw : Z * Z) : state :=
  let '(State a b c d e f g h) := s in
  let t1 := add32 (add32 (add32 h (bsig1 e)) (add32 (Ch e f g) kw.1)) kw.2 in
  let t2 := add32 (bsig0 a) (Maj a b c) in
  State (add32 t1 t2) a b c (add32 d t1) e f g.

Definition words (block : list byte) : list Z := map be_number (chunks 4 block).

Definition compress (s : state) (block : list byte) : state :=
  let w := schedule 48 (words block) in
  let '(State a b c d e f g h) := fold_left round (zip K w) s in
  State (add32 (sa s) a) (add32 (sb s) b) (add32 (sc s) c) (add32 (sd s) d)
        (add32 (se s) e) (add32 (sf s) f) (add32 (sg s) g) (add32 (sh s) h).

Definition pad (msg : list byte) : list byte :=
  let len := Z.of_nat (length msg) in
  msg ++ [byte_of_z 128] ++ repeat Byte.x00 (Z.to_nat ((55 - len) mod 64))
      ++ be32 (Z.shiftr (8 * len) 32) ++ be32 (8 * len).

Definition init : state :=
  match H0 with
  | [a; b; c; d; e; f; g; h] => State a b c d e f g h
  | _ => State 0 0 0 0 0 0 0 0
  end.

Definition digest (s : state) : list byte :=
  let '(State a b c d e f g h) := s in
  be32 a ++ be32 b ++ be32 c ++ be32 d ++ be32 e ++ be32 f ++ be32 g ++ be32 h.

(** [sha256.Sum256] *)
Definition Sum256 (msg : list byte) : list byte :=
  digest (fold_left compress (chunks 64 (pad msg)) init).

(** SHA-224 is SHA-256 from another initial hash value (the second 32
    bits of the fractional parts of the square roots of the ninth to the
    sixteenth prime), cut to 28 bytes. *)
Definition Size224 : nat := 28.
Definition H0_224 : list Z :=
  Eval vm_compute in
    map (fun p => Z.sqrt (p * 2 ^ 128) mod 2 ^ 32) (take 8 (drop 8 primes)).
Definition init224 : state :=
  match H0_224 with
  | [a; b; c; d; e; f; g; h] => State a b c d e f g h
  | _ => State 0 0 0 0 0 0 0 0
  end.

(** [sha256.Sum224] *)
Definition Sum224 (msg : list byte) : list byte :=
  take Size224 (digest (fold_left compress (chunks 64 (pad msg)) init224)).

End sha256.

(** ** crypto/hmac with SHA-256 (RFC 2104) *)

Definition byte_xor (a b : byte) : byte := byte_of_z (Z.lxor (z_of_byte a) (z_of_byte b)).

Module hmac.
Definition key_block (key : list byte) : list byte :=
  let k := if (sha256.BlockSize <? length key)%nat then sha256.Sum256 key else key in
  k ++ repeat Byte.x00 (sha256.BlockSize - length k).
Definition Sum (key msg : list byte) : list byte :=
  let k0 := key_block key in
  sha256.Sum256 (map (byte_xor (byte_of_z 92)) k0
                 ++ sha256.Sum256 (map (byte_xor (byte_of_z 54)) k0 ++ msg)).
End hmac.

(** ** golang.org/x/crypto/hkdf with SHA-256 (RFC 5869) *)

Module hkdf.

(** [hkdf.Extract]: a nil salt stands for a string of [Size] zeros. *)
Definition Extract (secret salt : list byte) : list byte :=
  let salt := match salt with [] => repeat Byte.x00 sha256.Size | _ => salt end in
  hmac.Sum salt secret.

(** The output blocks T(counter), T(counter+1), ... of [hkdf.Expand]. *)
Fixpoint blocks (n : nat) (prk info prev : list byte) (counter : Z) : list byte :=
  match n with
  | O => []
  | S n' =>
      let t := hmac.Sum prk (prev ++ info ++ [byte_of_z counter]) in
      t ++ blocks n' prk info t (counter + 1)%Z
  end.

(** The reader [hkdf.New] returns. *)
Record Reader := { prk : list byte; info : list byte }.

Definition New (secret salt info : list byte) : Reader :=
  {| prk := Extract secret salt; info := info |}.

(** [io.ReadFull] of [n] bytes from a fresh reader: the stream holds at
    most 255 blocks. *)
Definition ReadFull (r : Reader) (n : nat) : option (list byte) :=
  if (255 * sha256.Size <? n)%nat then None
  else Some (take n (blocks (Nat.div (n + sha256.Size - 1) sha256.Size) (prk r) (info r) [] 1%Z)).

End hkdf.


(** ** encoding/base64 *)

Module base64.

(** An encoding: its 64 characters, and its padding character if it pads. *)
Record Encoding := {
  alphabet : string;
  padChar : option ascii
}.

Definition encodeStd : string :=
  "ABCDEFGHIJKLMNOPQRSTUVWXYZabcdefghijklmnopqrstuvwxyz0123456789+/".
Definition encodeURL : string :=
  "ABCDEFGHIJKLMNOPQRSTUVWXYZabcdefghijklmnopqrstuvwxyz0123456789-_".

Definition StdEncoding : Encoding :=
  {| alphabet := encodeStd; padChar := Some "="%char |}.
Definition RawURLEncoding : Encoding :=
  {| alphabet := encodeURL; padChar := None |}.

Fixpoint index_of (c : ascii) (s : string) (i : N) : option N :=
  match s with
  | EmptyString => None
  | String d rest => if Ascii.eqb c d then Some i else index_of c rest (i + 1)%N
  end.

(** The value of a character, if it is one of the alphabet. *)
Definition decodeMap (enc : Encoding) (c : ascii) : option N :=
  index_of c (alphabet enc) 0.

(** The character of a value below 64. *)
Definition encodeChar (enc : Encoding) (v : N) : ascii :=
  default "000"%char (String.get (N.to_nat v) (alphabet enc)).

Definition byte_of_N (n : N) : byte := default Byte.x00 (Byte.of_N (n mod 256)).

(** The bytes a quantum of two, three or four values holds. *)
Definition quantum_bytes (q : list N) : list byte :=
  match q with
  | [a; b] => [byte_of_N (a * 4 + b / 16)]
  | [a; b; c] => [byte_of_N (a * 4 + b / 16); byte_of_N (b mod 16 * 16 + c / 4)]
  | [a; b; c; d] =>
      [byte_of_N (a * 4 + b / 16); byte_of_N (b mod 16 * 16 + c / 4);
       byte_of_N (c mod 4 * 64 + d)]
  | _ => []
  end%N.

Definition is_newline (c : ascii) : bool :=
  Ascii.eqb c (ascii_of_N 10) || Ascii.eqb c (ascii_of_N 13).

Fixpoint skip_newlines (s : string) : string :=
  match s with
  | String c rest => if is_newline c then skip_newlines rest else s
  | EmptyString => EmptyString
  end.

(** The decoder reads quanta of four characters, skipping line breaks; [q]
    holds the values of the quantum read so far.  Padding may only end the
    input, after two or three characters of a quantum; an encoding without
    padding accepts a last quantum of two or three characters.  Any error
    ([CorruptInputError]) is [None]. *)
Fixpoint decode (enc : Encoding) (src : string) (q : list N) : option (list byte) :=
  match src with
  | EmptyString =>
      match q with
      | [] => Some []
      | [_] => None
      | _ => match padChar enc with Some _ => None | None => Some (quantum_bytes q) end
      end
  | String c rest =>
      match decodeMap enc c with
      | Some v =>
          match q with
          | [_; _; _] => app (quantum_bytes (q ++ [v])) <$> decode enc rest []
          | _ => decode enc rest (q ++ [v])
          end
      | None =>
          if is_newline c then decode enc rest q
          else if bool_decide (padChar enc = Some c) then
            match q with
            | [_; _] =>
                match skip_newlines rest with
                | String c2 rest2 =>
                    if bool_decide (padChar enc = Some c2) && str_empty (skip_newlines rest2)
                    then Some (quantum_bytes q) else None
                | EmptyString => None
                end
            | [_; _; _] =>
                if str_empty (skip_newlines rest) then Some (quantum_bytes q) else None
            | _ => None
            end
          else None
      end
  end.

Definition DecodeString (enc : Encoding) (s : string) : option (list byte) :=
  decode enc s [].

Definition pad_string (enc : Encoding) (n : nat) : string :=
  match padChar enc with
  | Some p => string_of_list_ascii (repeat p n)
  | None => EmptyString
  end.

Fixpoint EncodeToString (enc : Encoding) (src : list byte) : string :=
  let ch := encodeChar enc in
  match src with
  | [] => EmptyString
  | [a] =>
      let a := Byte.to_N a in
      String (ch (a / 4)) (String (ch (a mod 4 * 16)) (pad_string enc 2))
  | [a; b] =>
      let a := Byte.to_N a in let b := Byte.to_N b in
      String (ch (a / 4)) (String (ch (a mod 4 * 16 + b / 16))
        (String (ch (b mod 16 * 4)) (pad_string enc 1)))
  | a :: b :: c :: rest =>
      let a := Byte.to_N a in let b := Byte.to_N b in let c := Byte.to_N c in
      String (ch (a / 4)) (String (ch (a mod 4 * 16 + b / 16))
        (String (ch (b mod 16 * 4 + c / 64)) (String (ch (c mod 64))
          (EncodeToString enc rest))))
  end%N.

End base64.

(** ** crypto/aes (FIPS 197) *)

Module aes.
Local Open Scope Z_scope.

Definition BlockSize : nat := 16.

(** Multiplication by x and by a polynomial in GF(2^8). *)
Definition xtime (a : Z) : Z :=
  let d := Z.shiftl a 1 in
  if Z.testbit a 7 then Z.lxor (Z.land d 255) 27 else d.

Fixpoint gmul_bits (n : nat) (a b : Z) : Z :=
  match n with
  | O => 0
  | S n' => Z.lxor (if Z.odd b then a else 0) (gmul_bits n' (xtime a) (Z.shiftr b 1))
  end.
Definition gmul (a b : Z) : Z := gmul_bits 8 a b.

(** The S-box: the inverse in GF(2^8), then the affine map. *)
Definition inverse (a : Z) : Z :=
  default 0 (List.find (fun b => gmul a b =? 1) (map Z.of_nat (seq 1 255))).
Definition rotl8 (a n : Z) : Z :=
  Z.land (Z.lor (Z.shiftl a n) (Z.shiftr a (8 - n))) 255.
Definition affine (b : Z) : Z :=
  Z.lxor (Z.lxor (Z.lxor (Z.lxor (Z.lxor b (rotl8 b 1)) (rotl8 b 2)) (rotl8 b 3)) (rotl8 b 4)) 99.
Definition sbox_table : list Z :=
  Eval vm_compute in map (fun a => affine (inverse (Z.of_nat a))) (seq 0 256).
Definition sbox (a : Z) : Z := nth (Z.to_nat a) sbox_table 0.

Definition xor_words (u v : list Z) : list Z := zip_with Z.lxor u v.

(** Key expansion for a key of [nk] words into [4 * (nk + 7)] words. *)
Definition next_word (nk : nat) (w : list (list Z)) (rcon : Z) : list Z :=
  let i := length w in
  let temp := nth (i - 1) w [] in
  let temp :=
    if (i mod nk =? 0)%nat then
      match map sbox temp with
      | [a; b; c; d] => [Z.lxor b rcon; c; d; a]
      | t => t
      end
    else if (6 <? nk)%nat && (i mod nk =? 4)%nat then map sbox temp
    else temp in
  xor_words (nth (i - nk) w []) temp.

Fixpoint expand (n nk : nat) (w : list (list Z)) (rcon : Z) : list (list Z) :=
  match n with
  | O => w
  | S n' =>
      let w' := w ++ [next_word nk w rcon] in
      expand n' nk w' (if (length w' mod nk =? 0)%nat then xtime rcon else rcon)
  end.

(** A cipher block: the round keys, sixteen bytes each. *)
Definition Block := list (list Z).

Definition key_schedule (key : list byte) : Block :=
  let nk := (length key / 4)%nat in
  let w := expand (4 * (nk + 7) - nk) nk (chunks 4 (map z_of_byte key)) 1 in
  map (fun rk => concat rk) (chunks 4 w).

(** [aes.NewCipher]: a key of 16, 24 or 32 bytes. *)
Definition NewCipher (key : list byte) : option Block :=
  if bool_decide (length key ∈ [16; 24; 32]%nat) then Some (key_schedule key) else None.

Definition add_round_key (st rk : list Z) : list Z :=
  map (fun i => Z.lxor (nth i st 0) (nth i rk 0)) (seq 0 16).
Definition sub_bytes (st : list Z) : list Z := map sbox st.
Definition shift_rows (st : list Z) : list Z :=
  map (fun i => nth (i mod 4 + 4 * ((i / 4 + i mod 4) mod 4))%nat st 0) (seq 0 16).
Definition mix_column (col : list Z) : list Z :=
  match col with
  | [a; b; c; d] =>
      [Z.lxor (Z.lxor (gmul a 2) (gmul b 3)) (Z.lxor c d);
       Z.lxor (Z.lxor a (gmul b 2)) (Z.lxor (gmul c 3) d);
       Z.lxor (Z.lxor a b) (Z.lxor (gmul c 2) (gmul d 3));
       Z.lxor (Z.lxor (gmul a 3) b) (Z.lxor c (gmul d 2))]
  | _ => col
  end.
Definition mix_columns (st : list Z) : list Z := concat (map mix_column (chunks 4 st)).

Fixpoint rounds (rks : list (list Z)) (st : list Z) : list Z :=
  match rks with
  | [] => st
  | [last] => add_round_key (shift_rows (sub_bytes st)) last
  | rk :: rest => rounds rest (add_round_key (mix_columns (shift_rows (sub_bytes st))) rk)
  end.

(** [Block.Encrypt] of one 16-byte block. *)
Definition Encrypt (b : Block) (src : list byte) : list byte :=
  map byte_of_z (rounds (tail b) (add_round_key (map z_of_byte src) (hd [] b))).

End aes.

(** ** crypto/cipher: Galois counter mode (NIST SP 800-38D) *)

Module gcm.
Local Open Scope Z_scope.

Definition NonceSize : nat := 12.
Definition TagSize : nat := 16.

(** A 128-bit block as a number, first byte most significant. *)
Definition block_bytes (x : Z) : list byte :=
  map (fun i => byte_of_z (Z.shiftr x (8 * (15 - Z.of_nat i)))) (seq 0 16).

(** Multiplication in GF(2^128); bit 0 of a block is its most significant. *)
Fixpoint gf_mul_bits (n : nat) (x v z : Z) : Z :=
  match n with
  | O => z
  | S n' =>
      let z' := if Z.testbit x (Z.of_nat n') then Z.lxor z v else z in
      let v' := if Z.odd v then Z.lxor (Z.shiftr v 1) (Z.shiftl 225 120) else Z.shiftr v 1 in
      gf_mul_bits n' x v' z'
  end.
Definition gf_mul (x y : Z) : Z := gf_mul_bits 128 x y 0.

Definition pad16 (bs : list byte) : list byte :=
  bs ++ repeat Byte.x00 ((16 - length bs mod 16) mod 16).

Definition ghash (h : Z) (data ct : list byte) : Z :=
  let lens := be32 0 ++ be32 (8 * Z.of_nat (length data))
              ++ be32 0 ++ be32 (8 * Z.of_nat (length ct)) in
  fold_left (fun y blk => gf_mul (Z.lxor y (be_number blk)) h)
    (chunks 16 (pad16 data ++ pad16 ct ++ lens)) 0.

(** The counter block number [i] for a 12-byte nonce. *)
Definition counter (nonce : list byte) (i : Z) : list byte := nonce ++ be32 (i mod 2 ^ 32).

(** The key stream for [n] bytes: the encrypted counter blocks 2, 3, ... *)
Definition keystream (b : aes.Block) (nonce : list byte) (n : nat) : list byte :=
  flat_map (fun i => aes.Encrypt b (counter nonce (2 + Z.of_nat i)))
    (seq 0 (Nat.div (n + 15) 16)).

Definition xor_stream (b : aes.Block) (nonce data : list byte) : list byte :=
  zip_with byte_xor data (keystream b nonce (length data)).

Definition tag (b : aes.Block) (nonce data ct : list byte) : list byte :=
  let h := be_number (aes.Encrypt b (repeat Byte.x00 16)) in
  block_bytes (Z.lxor (ghash h data ct) (be_number (aes.Encrypt b (counter nonce 1)))).

(** What a call of the AEAD yields: a value, the error
    [cipher: message authentication failed], or a panic. *)
Inductive outcome :=
| Value (bs : list byte)
| ErrOpen
| Panics.

(** [AEAD.Seal(nil, nonce, plaintext, data)] panics on a nonce of the wrong
    length.  (The guard against plaintexts beyond 2^36 - 32 bytes is a
    capacity limit and is not represented.) *)
Definition Seal (b : aes.Block) (nonce plaintext data : list byte) : outcome :=
  if negb (length nonce =? NonceSize)%nat then Panics
  else
    let ct := xor_stream b nonce plaintext in
    Value (ct ++ tag b nonce data ct).

(** [AEAD.Open(nil, nonce, ciphertext, data)] *)
Definition Open (b : aes.Block) (nonce ciphertext data : list byte) : outcome :=
  if negb (length nonce =? NonceSize)%nat then Panics
  else if (length ciphertext <? TagSize)%nat then ErrOpen
  else
    let ct := take (length ciphertext - TagSize) ciphertext in
    let t := drop (length ciphertext - TagSize) ciphertext in
    if bool_decide (tag b nonce data ct = t) then Value (xor_stream b nonce ct)
    else ErrOpen.

End gcm.

(** ** unicode/utf8 *)

Module utf8.

Definition RuneError : N := 65533.
Definition RuneSelf : N := 128.

Definition between (lo hi n : N) : bool := (lo <=? n)%N && (n <=? hi)%N.

(** For a leading byte of a multi-byte sequence: the length of the
    sequence and the range its second byte must lie in. *)
Definition first (b0 : N) : option (nat * N * N) :=
  if between 194 223 b0 then Some (2%nat, 128, 191)%N
  else if (b0 =? 224)%N then Some (3%nat, 160, 191)%N
  else if between 225 236 b0 then Some (3%nat, 128, 191)%N
  else if (b0 =? 237)%N then Some (3%nat, 128, 159)%N
  else if between 238 239 b0 then Some (3%nat, 128, 191)%N
  else if (b0 =? 240)%N then Some (4%nat, 144, 191)%N
  else if between 241 243 b0 then Some (4%nat, 128, 191)%N
  else if (b0 =? 244)%N then Some (4%nat, 128, 143)%N
  else None.

(** [utf8.DecodeRuneInString]: the first rune of [s] and its width in
    bytes; [(RuneError, 1)] for an encoding that is not well formed. *)
Definition DecodeRuneInString (s : string) : N * nat :=
  match s with
  | EmptyString => (RuneError, 0%nat)
  | String c0 r0 =>
    let b0 := N_of_ascii c0 in
    if (b0 <? RuneSelf)%N then (b0, 1%nat)
    else
      match first b0, r0 with
      | Some (sz, lo, hi), String c1 r1 =>
        let b1 := N_of_ascii c1 in
        if negb (between lo hi b1) then (RuneError, 1%nat)
        else if (sz =? 2)%nat then (b0 mod 32 * 64 + b1 mod 64, 2%nat)%N
        else
          match r1 with
          | String c2 r2 =>
            let b2 := N_of_ascii c2 in
            if negb (between 128 191 b2) then (RuneError, 1%nat)
            else if (sz =? 3)%nat then
              (b0 mod 16 * 4096 + b1 mod 64 * 64 + b2 mod 64, 3%nat)%N
            else
              match r2 with
              | String c3 _ =>
                let b3 := N_of_ascii c3 in
                if negb (between 128 191 b3) then (RuneError, 1%nat)
                else (b0 mod 8 * 262144 + b1 mod 64 * 4096 + b2 mod 64 * 64 + b3 mod 64,
                      4%nat)%N
              | EmptyString => (RuneError, 1%nat)
              end
          | EmptyString => (RuneError, 1%nat)
          end
      | _, _ => (RuneError, 1%nat)
      end
  end.

Definition chr (n : N) : ascii := ascii_of_N n.

(** [utf8.AppendRune] to the empty string. *)
Definition EncodeRune (r : N) : string :=
  if (r <? 128)%N then String (chr r) EmptyString
  else if (r <? 2048)%N then
    String (chr (192 + r / 64)) (String (chr (128 + r mod 64)) EmptyString)
  else if (1114111 <? r)%N || between 55296 57343 r then
    String (chr 239) (String (chr 191) (String (chr 189) EmptyString))
  else if (r <? 65536)%N then
    String (chr (224 + r / 4096))
      (String (chr (128 + r / 64 mod 64)) (String (chr (128 + r mod 64)) EmptyString))
  else
    String (chr (240 + r / 262144))
      (String (chr (128 + r / 4096 mod 64))
         (String (chr (128 + r / 64 mod 64)) (String (chr (128 + r mod 64)) EmptyString))).

(** [utf8.ValidString]; [skip] counts the bytes of the current rune still
    to pass over. *)
Fixpoint valid_from (s : string) (skip : nat) : bool :=
  match s with
  | EmptyString => true
  | String _ rest =>
      match skip with
      | S k => valid_from rest k
      | O =>
          let '(r, size) := DecodeRuneInString s in
          if (r =? RuneError)%N && (size =? 1)%nat then false
          else valid_from rest (size - 1)
      end
  end.
Definition ValidString (s : string) : bool := valid_from s 0.

End utf8.

(** ** encoding/json, for the struct [EncryptedString] *)

Module json.

Definition quote : ascii := "034"%char.
Definition backslash : ascii := "092"%char.
Definition q : string := String quote EmptyString.

Definition hex_digit (n : N) : ascii :=
  default "0"%char (String.get (N.to_nat n) "0123456789abcdef").

(** [htmlSafeSet]: the ASCII characters a string holds as they are. *)
Definition htmlSafe (b : N) : bool :=
  (32 <=? b)%N && (b <? 128)%N &&
  negb ((b =? 34) || (b =? 38) || (b =? 60) || (b =? 62) || (b =? 92))%N.

(** How [appendString] writes the rune that starts [s] (with
    [escapeHTML] set, as [json.Marshal] has it).  The short escapes for
    backspace and form feed are those of Go 1.22 and later; earlier
    versions write the six-character form, which [unquote] reads as the
    same byte. *)
Definition escape_rune (s : string) : string :=
  match s with
  | EmptyString => EmptyString
  | String c _ =>
    let b := N_of_ascii c in
    if (b <? utf8.RuneSelf)%N then
      if htmlSafe b then String c EmptyString
      else if (b =? 92)%N || (b =? 34)%N then String backslash (String c EmptyString)
      else if (b =? 8)%N then String backslash "b"
      else if (b =? 12)%N then String backslash "f"
      else if (b =? 10)%N then String backslash "n"
      else if (b =? 13)%N then String backslash "r"
      else if (b =? 9)%N then String backslash "t"
      else String backslash
             ("u00" +:+ String (hex_digit (b / 16)) (String (hex_digit (b mod 16)) EmptyString))
    else
      let '(r, size) := utf8.DecodeRuneInString s in
      if (r =? utf8.RuneError)%N && (size =? 1)%nat then String backslash "ufffd"
      else if (r =? 8232)%N then String backslash "u2028"
      else if (r =? 8233)%N then String backslash "u2029"
      else substring 0 size s
    end.

(** The width of the rune that starts [s]. *)
Definition rune_width (s : string) : nat := (utf8.DecodeRuneInString s).2.

Fixpoint escape_from (s : string) (skip : nat) : string :=
  match s with
  | EmptyString => EmptyString
  | String _ rest =>
      match skip with
      | S k => escape_from rest k
      | O => escape_rune s +:+ escape_from rest (rune_width s - 1)
      end
  end.

(** [appendString]: the JSON string literal for [s]. *)
Definition appendString (s : string) : string :=
  q +:+ escape_from s 0 +:+ q.

(** A [[]byte] field: [null] for a nil slice, else its standard base64
    text between quotes.  (An empty slice is taken to be nil.) *)
Definition encodeByteSlice (b : list byte) : string :=
  match b with
  | [] => "null"
  | _ => q +:+ base64.EncodeToString base64.StdEncoding b +:+ q
  end.

End json.

Module jsonscan.

(** A JSON value; a number keeps its literal. *)
#[local] Unset Elimination Schemes.
Inductive value :=
| VNull
| VBool (b : bool)
| VNumber (lit : string)
| VString (s : string)
| VArray (elems : list value)
| VObject (members : list (string * value)).
#[local] Set Elimination Schemes.

Inductive token :=
| TLBrace | TRBrace | TLBracket | TRBracket | TColon | TComma
| TString (s : string)
| TNumber (lit : string)
| TTrue | TFalse | TNull.

Definition code (c : ascii) : N := N_of_ascii c.
Definition is_digit (c : ascii) : bool := utf8.between 48 57 (code c).
Definition is_hex (c : ascii) : bool :=
  is_digit c || utf8.between 97 102 (code c) || utf8.between 65 70 (code c).
Definition hex_value (c : ascii) : N :=
  if is_digit c then code c - 48
  else if utf8.between 97 102 (code c) then code c - 87
  else code c - 55.
Definition is_space (c : ascii) : bool :=
  (code c =? 32)%N || (code c =? 9)%N || (code c =? 13)%N || (code c =? 10)%N.

(** [getu4]: the code unit of a [\uXXXX] escape at the start of [s]. *)
Definition getu4 (s : string) : option N :=
  match s with
  | String b (String u (String h1 (String h2 (String h3 (String h4 _))))) =>
      if Ascii.eqb b json.backslash && Ascii.eqb u "u"%char
         && is_hex h1 && is_hex h2 && is_hex h3 && is_hex h4
      then Some (hex_value h1 * 4096 + hex_value h2 * 256 + hex_value h3 * 16 + hex_value h4)%N
      else None
  | _ => None
  end.

Fixpoint string_drop (n : nat) (s : string) : string :=
  match n, s with
  | S k, String _ rest => string_drop k rest
  | _, _ => s
  end.

(** [utf16.DecodeRune]: the code point of a surrogate pair. *)
Definition DecodeRune16 (r1 r2 : N) : N :=
  if utf8.between 55296 56319 r1 && utf8.between 56320 57343 r2
  then ((r1 - 55296) * 1024 + (r2 - 56320) + 65536)%N
  else utf8.RuneError.

(** What [unquote] writes for the text that starts [s], and how many bytes
    of [s] that text takes.  [s] is the inside of a literal the scanner has
    accepted. *)
Definition unquote_rune (s : string) : string * nat :=
  match s with
  | EmptyString => (EmptyString, 0%nat)
  | String c rest =>
    if Ascii.eqb c json.backslash then
      match rest with
      | String e _ =>
        if Ascii.eqb e "u"%char then
          match getu4 s with
          | None => (EmptyString, 2%nat)
          | Some rr =>
            if utf8.between 55296 57343 rr then
              match getu4 (string_drop 6 s) with
              | Some rr1 =>
                  let dec := DecodeRune16 rr rr1 in
                  if negb (dec =? utf8.RuneError)%N then (utf8.EncodeRune dec, 12%nat)
                  else (utf8.EncodeRune utf8.RuneError, 6%nat)
              | None => (utf8.EncodeRune utf8.RuneError, 6%nat)
              end
            else (utf8.EncodeRune rr, 6%nat)
          end
        else if Ascii.eqb e "b"%char then (String (ascii_of_N 8) EmptyString, 2%nat)
        else if Ascii.eqb e "f"%char then (String (ascii_of_N 12) EmptyString, 2%nat)
        else if Ascii.eqb e "n"%char then (String (ascii_of_N 10) EmptyString, 2%nat)
        else if Ascii.eqb e "r"%char then (String (ascii_of_N 13) EmptyString, 2%nat)
        else if Ascii.eqb e "t"%char then (String (ascii_of_N 9) EmptyString, 2%nat)
        else (String e EmptyString, 2%nat)
      | EmptyString => (EmptyString, 1%nat)
      end
    else if (code c <? utf8.RuneSelf)%N then (String c EmptyString, 1%nat)
    else
      let '(rr, size) := utf8.DecodeRuneInString s in
      (utf8.EncodeRune rr, size)
  end.

Fixpoint unquote_from (s : string) (skip : nat) : string :=
  match s with
  | EmptyString => EmptyString
  | String _ rest =>
      match skip with
      | S k => unquote_from rest k
      | O => let '(out, n) := unquote_rune s in out +:+ unquote_from rest (n - 1)
      end
  end.

(** [unquote] of the inside of a string literal. *)
Definition unquote (raw : string) : string := unquote_from raw 0.

(** A number literal: an optional minus; a zero, or a nonzero digit and
    more digits; then optionally a point and digits; then optionally an
    exponent, [e] or [E], with an optional sign and digits. *)
Fixpoint all_digits (s : string) : bool :=
  match s with
  | EmptyString => true
  | String c rest => is_digit c && all_digits rest
  end.
Fixpoint digits_then (s : string) (k : string -> bool) : bool :=
  match s with
  | String c rest => if is_digit c then digits_then rest k else k s
  | EmptyString => k s
  end.
Definition exponent (s : string) : bool :=
  match s with
  | EmptyString => true
  | String e rest =>
      (Ascii.eqb e "e"%char || Ascii.eqb e "E"%char) &&
      match rest with
      | String sg ds =>
          if Ascii.eqb sg "+"%char || Ascii.eqb sg "-"%char
          then negb (str_empty ds) && all_digits ds
          else all_digits rest
      | EmptyString => false
      end
  end.
Definition fraction (s : string) : bool :=
  match s with
  | String "."%char (String d rest) => is_digit d && digits_then rest exponent
  | _ => exponent s
  end.
Definition valid_number (lit : string) : bool :=
  let body := match lit with String "-"%char r => r | _ => lit end in
  match body with
  | String "0"%char rest => fraction rest
  | String d rest => is_digit d && digits_then rest fraction
  | EmptyString => false
  end.

(** The scanner, a byte at a time.  Inside a string literal it keeps the
    bytes read so far (last first) and where it stands in an escape. *)
Inductive in_string :=
| SNormal
| SEscape
| SUnicode (digits : nat).

Inductive mode :=
| Idle
| InString (raw : list ascii) (st : in_string)
| InNumber (lit : list ascii)
| InWord (rest : string) (t : token).

Definition text (rev_chars : list ascii) : string :=
  string_of_list_ascii (rev rev_chars).

Definition is_number_char (c : ascii) : bool :=
  is_digit c || Ascii.eqb c "-"%char || Ascii.eqb c "+"%char || Ascii.eqb c "."%char
  || Ascii.eqb c "e"%char || Ascii.eqb c "E"%char.

Definition idle_step (toks : list token) (c : ascii) : option (list token * mode) :=
  if is_space c then Some (toks, Idle)
  else if Ascii.eqb c "{"%char then Some (TLBrace :: toks, Idle)
  else if Ascii.eqb c "}"%char then Some (TRBrace :: toks, Idle)
  else if Ascii.eqb c "["%char then Some (TLBracket :: toks, Idle)
  else if Ascii.eqb c "]"%char then Some (TRBracket :: toks, Idle)
  else if Ascii.eqb c ":"%char then Some (TColon :: toks, Idle)
  else if Ascii.eqb c ","%char then Some (TComma :: toks, Idle)
  else if Ascii.eqb c json.quote then Some (toks, InString [] SNormal)
  else if is_digit c || Ascii.eqb c "-"%char then Some (toks, InNumber [c])
  else if Ascii.eqb c "t"%char then Some (toks, InWord "rue" TTrue)
  else if Ascii.eqb c "f"%char then Some (toks, InWord "alse" TFalse)
  else if Ascii.eqb c "n"%char then Some (toks, InWord "ull" TNull)
  else None.

Definition step (st : list token * mode) (c : ascii) : option (list token * mode) :=
  let '(toks, m) := st in
  match m with
  | Idle => idle_step toks c
  | InString raw SNormal =>
      if Ascii.eqb c json.quote then Some (TString (unquote (text raw)) :: toks, Idle)
      else if Ascii.eqb c json.backslash then Some (toks, InString (c :: raw) SEscape)
      else if (code c <? 32)%N then None
      else Some (toks, InString (c :: raw) SNormal)
  | InString raw SEscape =>
      if Ascii.eqb c "u"%char then Some (toks, InString (c :: raw) (SUnicode 4))
      else if Ascii.eqb c json.quote || Ascii.eqb c json.backslash || Ascii.eqb c "/"%char
              || Ascii.eqb c "b"%char || Ascii.eqb c "f"%char || Ascii.eqb c "n"%char
              || Ascii.eqb c "r"%char || Ascii.eqb c "t"%char
      then Some (toks, InString (c :: raw) SNormal)
      else None
  | InString raw (SUnicode n) =>
      if is_hex c then
        Some (toks, InString (c :: raw) (match n with S (S k) => SUnicode (S k) | _ => SNormal end))
      else None
  | InNumber lit =>
      if is_number_char c then Some (toks, InNumber (c :: lit))
      else if valid_number (text lit) then idle_step (TNumber (text lit) :: toks) c
      else None
  | InWord rest t =>
      match rest with
      | String d rest' =>
          if Ascii.eqb c d then
            Some (match rest' with
                  | EmptyString => (t :: toks, Idle)
                  | _ => (toks, InWord rest' t)
                  end)
          else None
      | EmptyString => None
      end
  end.

Fixpoint run (s : string) (st : list token * mode) : option (list token * mode) :=
  match s with
  | EmptyString => Some st
  | String c rest =>
      match step st c with
      | Some st' => run rest st'
      | None => None
      end
  end.

(** The tokens of a text, or [None] for a text the scanner refuses. *)
Definition tokens (s : string) : option (list token) :=
  match run s ([], Idle) with
  | Some (toks, Idle) => Some (rev toks)
  | Some (toks, InNumber lit) =>
      if valid_number (text lit) then Some (rev (TNumber (text lit) :: toks)) else None
  | _ => None
  end.

Definition maxNestingDepth : N := 10000.

(** One value from the front of the tokens, at nesting depth [depth]. *)
Fixpoint parse_value (fuel : nat) (depth : N) (ts : list token) : option (value * list token) :=
  match fuel with
  | O => None
  | S fuel' =>
      match ts with
      | TString s :: r => Some (VString s, r)
      | TNumber n :: r => Some (VNumber n, r)
      | TTrue :: r => Some (VBool true, r)
      | TFalse :: r => Some (VBool false, r)
      | TNull :: r => Some (VNull, r)
      | TLBracket :: r =>
          if (maxNestingDepth <=? depth)%N then None
          else match r with
               | TRBracket :: r' => Some (VArray [], r')
               | _ => parse_elements fuel' (N.succ depth) r []
               end
      | TLBrace :: r =>
          if (maxNestingDepth <=? depth)%N then None
          else match r with
               | TRBrace :: r' => Some (VObject [], r')
               | _ => parse_members fuel' (N.succ depth) r []
               end
      | _ => None
      end
  end
with parse_elements (fuel : nat) (depth : N) (ts : list token) (acc : list value)
    : option (value * list token) :=
  match fuel with
  | O => None
  | S fuel' =>
      match parse_value fuel' depth ts with
      | Some (v, TComma :: r) => parse_elements fuel' depth r (v :: acc)
      | Some (v, TRBracket :: r) => Some (VArray (rev (v :: acc)), r)
      | _ => None
      end
  end
with parse_members (fuel : nat) (depth : N) (ts : list token) (acc : list (string * value))
    : option (value * list token) :=
  match fuel with
  | O => None
  | S fuel' =>
      match ts with
      | TString k :: TColon :: r =>
          match parse_value fuel' depth r with
          | Some (v, TComma :: r') => parse_members fuel' depth r' ((k, v) :: acc)
          | Some (v, TRBrace :: r') => Some (VObject (rev ((k, v) :: acc)), r')
          | _ => None
          end
      | _ => None
      end
  end.

(** [checkValid] and the scan of the value: the text is one JSON value,
    with blanks around it at most. *)
Definition parse (s : string) : option value :=
  match tokens s with
  | None => None
  | Some ts =>
      match parse_value (2 * length ts + 2) 0%N ts with
      | Some (v, []) => Some v
      | _ => None
      end
  end.

(** [foldName]: ASCII letters to upper case; the two runes outside ASCII
    whose case folding is an ASCII letter, the Kelvin sign and the long s,
    to that letter. *)
Fixpoint foldName (key : string) : string :=
  match key with
  | String c1 (String c2 (String c3 rest as r2) as r1) =>
      if (code c1 =? 226)%N && (code c2 =? 132)%N && (code c3 =? 170)%N
      then String "K"%char (foldName rest)
      else if (code c1 =? 197)%N && (code c2 =? 191)%N
      then String "S"%char (foldName r2)
      else String (if utf8.between 97 122 (code c1) then ascii_of_N (code c1 - 32) else c1)
             (foldName r1)
  | String c1 (String c2 rest as r1) =>
      if (code c1 =? 197)%N && (code c2 =? 191)%N
      then String "S"%char (foldName rest)
      else String (if utf8.between 97 122 (code c1) then ascii_of_N (code c1 - 32) else c1)
             (foldName r1)
  | String c1 rest =>
      String (if utf8.between 97 122 (code c1) then ascii_of_N (code c1 - 32) else c1)
        (foldName rest)
  | EmptyString => EmptyString
  end.

(** [strconv.ParseUint(lit, 10, 64)] into a [uint8]. *)
Definition parse_uint8 (lit : string) : option byte :=
  if negb (str_empty lit) && all_digits lit then
    let n := fold_left (fun acc c => acc * 10 + (code c - 48))%N (list_ascii_of_string lit) 0%N in
    Byte.of_N n
  else None.

End jsonscan.

(** ** encoding/hex *)

Module hex.
Local Open Scope N_scope.

Definition hextable : string := "0123456789abcdef".

(** [hex.InvalidByteError] and [hex.ErrLength] *)
Inductive Error :=
| InvalidByteError (c : ascii)
| ErrLength.

Definition digit (n : N) : ascii :=
  default "0"%char (String.get (N.to_nat n) hextable).

(** [hex.EncodeToString]: two lower-case digits for each byte. *)
Fixpoint EncodeToString (src : list byte) : string :=
  match src with
  | [] => EmptyString
  | v :: rest =>
      String (digit (Byte.to_N v / 16)) (String (digit (Byte.to_N v mod 16))
        (EncodeToString rest))
  end.

(** [reverseHexTable]: the value of a digit, of either case. *)
Definition fromHexChar (c : ascii) : option N :=
  let n := N_of_ascii c in
  if (48 <=? n) && (n <=? 57) then Some (n - 48)
  else if (97 <=? n) && (n <=? 102) then Some (n - 87)
  else if (65 <=? n) && (n <=? 70) then Some (n - 55)
  else None.

(** [hex.DecodeString]: the bytes decoded before the error, and the
    error; a character that is no digit is reported before an odd
    length. *)
Fixpoint DecodeString (s : string) : list byte * option Error :=
  match s with
  | EmptyString => ([], None)
  | String p EmptyString =>
      match fromHexChar p with
      | None => ([], Some (InvalidByteError p))
      | Some _ => ([], Some ErrLength)
      end
  | String p (String q rest) =>
      match fromHexChar p, fromHexChar q with
      | None, _ => ([], Some (InvalidByteError p))
      | Some _, None => ([], Some (InvalidByteError q))
      | Some a, Some b =>
          let '(bs, err) := DecodeString rest in
          (base64.byte_of_N (a * 16 + b) :: bs, err)
      end
  end.

End hex.

(** ** encoding/base32 *)

Module base32.
Local Open Scope N_scope.

Definition encodeStd : string := "ABCDEFGHIJKLMNOPQRSTUVWXYZ234567".

(** [enc.encode[v&31]] *)
Definition encodeChar (v : N) : ascii :=
  default "000"%char (String.get (N.to_nat (N.land v 31)) encodeStd).

(** A byte shifted left within its eight bits. *)
Definition shl (x : N) (n : N) : N := N.shiftl x n mod 256.

(** The eight 5-bit values of a quantum of up to five bytes; a byte the
    quantum lacks leaves its bits zero. *)
Definition unpack (src : list byte) : list N :=
  let s i := from_option Byte.to_N 0 (src !! i) in
  [ N.shiftr (s 0%nat) 3;
    N.lor (N.land (shl (s 0%nat) 2) 31) (N.land (N.shiftr (s 1%nat) 6) 31);
    N.land (N.shiftr (s 1%nat) 1) 31;
    N.lor (N.land (shl (s 1%nat) 4) 31) (N.land (N.shiftr (s 2%nat) 4) 31);
    N.lor (N.land (shl (s 2%nat) 1) 31) (N.shiftr (s 3%nat) 7);
    N.land (N.shiftr (s 3%nat) 2) 31;
    N.lor (N.land (shl (s 3%nat) 3) 31) (N.shiftr (s 4%nat) 5);
    N.land (s 4%nat) 31 ].

(** [EncodedLen] without padding. *)
Definition EncodedLen (n : nat) : nat := (n / 5 * 8 + (n mod 5 * 8 + 4) / 5)%nat.

(** [StdEncoding.WithPadding(NoPadding).EncodeToString]: a last quantum
    of fewer than five bytes yields the characters its bits reach. *)
Fixpoint EncodeToString (src : list byte) : string :=
  match src with
  | [] => EmptyString
  | a :: b :: c :: d :: e :: rest =>
      string_of_list_ascii (map encodeChar (unpack [a; b; c; d; e]))
      +:+ EncodeToString rest
  | _ =>
      string_of_list_ascii (map encodeChar (take (EncodedLen (length src)) (unpack src)))
  end.

End base32.

(** ** strings *)

Module strings.

(** [strings.HasPrefix] and [strings.TrimPrefix] *)
Definition HasPrefix (s pfx : string) : bool := String.prefix pfx s.
Definition TrimPrefix (s pfx : string) : string :=
  if HasPrefix s pfx then jsonscan.string_drop (String.length pfx) s else s.

(** [strings.ToLower] on a string of ASCII bytes, which is what the base32
    encoder returns: the letters A to Z are moved to lower case. *)
Definition lower (c : ascii) : ascii :=
  let n := N_of_ascii c in
  if (65 <=? n)%N && (n <=? 90)%N then ascii_of_N (n + 32) else c.
Fixpoint ToLower (s : string) : string :=
  match s with
  | EmptyString => EmptyString
  | String c rest => String (lower c) (ToLower rest)
  end.

End strings.

(** ** math/big, strconv: decimal numerals *)

Module strconv.
Local Open Scope Z_scope.

Definition digit (d : Z) : ascii := ascii_of_N (Z.to_N (48 + d)).

(** The decimal digits of [n >= 0] before [acc], most significant first. *)
Fixpoint digits_before (fuel : nat) (n : Z) (acc : string) : string :=
  match fuel with
  | O => acc
  | S fuel' =>
      let acc' := String (digit (n mod 10)) acc in
      if n <? 10 then acc' else digits_before fuel' (n / 10) acc'
  end.

(** [strconv.FormatInt(n, 10)], which is [strconv.Itoa] and, for a
    [big.Int], its method [String]. *)
Definition FormatInt (n : Z) : string :=
  let mag := Z.abs n in
  let text := digits_before (S (Z.to_nat (Z.log2 mag))) mag EmptyString in
  if n <? 0 then String "-" text else text.
Definition Itoa := FormatInt.

End strconv.

(** ** fmt *)

Module fmt.
Local Open Scope Z_scope.

(** [utf8.RuneCountInString]; [skip] counts the bytes of the current rune
    still to pass over. *)
Fixpoint count_from (s : string) (skip : nat) : nat :=
  match s with
  | EmptyString => O
  | String _ rest =>
      match skip with
      | S k => count_from rest k
      | O => S (count_from rest ((utf8.DecodeRuneInString s).2 - 1))
      end
  end.
Definition RuneCountInString (s : string) : nat := count_from s 0.

Definition ldigits : string := "0123456789abcdefx".

(** [fmtSbx] with [ldigits], no flags: each byte as two hexadecimal
    digits.  [Sprintf_x b] is [fmt.Sprintf("%x", b)] for a byte array. *)
Fixpoint Sprintf_x (b : list byte) : string :=
  match b with
  | [] => EmptyString
  | c :: rest =>
      let digit n := default "0"%char (String.get (N.to_nat n) ldigits) in
      String (digit (N.shiftr (Byte.to_N c) 4)) (String (digit (N.land (Byte.to_N c) 15))
        (Sprintf_x rest))
  end.

Definition is_digit (c : ascii) : bool :=
  (48 <=? N_of_ascii c)%N && (N_of_ascii c <=? 57)%N.

Definition tooLarge (x : Z) : bool := (1000000 <? x) || (x <? -1000000).

(** [parsenum]: the number at the head of [s], whether there is one, and
    what follows it; a number that grows too large makes the parse skip
    to the end of the format. *)
Fixpoint parsenum (s : string) (num : Z) (isnum : bool) : Z * bool * string :=
  match s with
  | String c rest =>
      if is_digit c then
        if tooLarge num then (0, false, EmptyString)
        else parsenum rest (num * 10 + (Z.of_N (N_of_ascii c) - 48)) true
      else (num, isnum, s)
  | EmptyString => (num, isnum, s)
  end.

(** [padString]: [s] with padding on its left up to the width, counted in
    runes; with the [0] flag the padding is zeros, for a string operand
    as for a number. *)
Definition padString (zero : bool) (wid : Z) (widPresent : bool) (s : string) : string :=
  if negb widPresent || (wid =? 0) then s
  else
    let width := wid - Z.of_nat (RuneCountInString s) in
    let padByte := if zero then "0"%char else " "%char in
    string_of_list_ascii (repeat padByte (Z.to_nat width)) +:+ s.

(** The run of [0] flags after the percent sign. *)
Fixpoint zero_flags (s : string) (zero : bool) : bool * string :=
  match s with
  | String "0"%char rest => zero_flags rest true
  | _ => (zero, s)
  end.

Definition one_of (c : ascii) (set : string) : bool :=
  existsb (Ascii.eqb c) (list_ascii_of_string set).

(** [fmt.Sprintf(format, s)] with the one string operand [s], for a
    format that is a single verb [%v] with [0] flags and a width; [None]
    stands for every other format, which is not modelled. *)
Definition Sprintf (format : string) (s : string) : option string :=
  match format with
  | String "%"%char rest =>
      let '(zero, rest) := zero_flags rest false in
      match rest with
      | EmptyString => None
      | String c after =>
          if one_of c "#+- [*." then None
          else if (97 <=? N_of_ascii c)%N && (N_of_ascii c <=? 122)%N then
            (* a simple verb without width *)
            if Ascii.eqb c "v" && str_empty after then Some (padString zero 0 false s)
            else None
          else
            let '(wid, widPresent, rest) := parsenum rest 0 false in
            match rest with
            | String "v"%char EmptyString => Some (padString zero wid widPresent s)
            | _ => None
            end
      end
  | _ => None
  end.

End fmt.

(** ** Test vectors *)

(** The bytes a string of lower-case hexadecimal digits spells. *)
Definition hexval (c : ascii) : Z :=
  let n := Z.of_N (N_of_ascii c) in
  if (48 <=? n)%Z && (n <=? 57)%Z then (n - 48)%Z else (n - 87)%Z.
Fixpoint hex (s : string) : list byte :=
  match s with
  | String a (String b rest) => byte_of_z (hexval a * 16 + hexval b) :: hex rest
  | _ => []
  end.

(** ** Package siws (internal/utilities/solana) *)

Module siws.

(** Modelled from the spec: the struct [siws.SIWSMessage] is declared in
    internal/utilities/solana, which is not part of the sources at hand;
    the fields are the ones [VerifySIWS] reads and section 3 of the
    specification lists. *)
Record SIWSMessage := {
  Domain : string;
  Address : string;
  Statement : string;
  URI : string;
  Version : string;
  ChainID : string;
  Nonce : string;
  IssuedAt : Time;
  ExpirationTime : Time;
  NotBefore : Time;
  Resources : list string
}.

(** Modelled from the spec: [siws.SIWSVerificationParams], same package. *)
Record SIWSVerificationParams := {
  ExpectedDomain : string;
  CheckTime : bool;
  TimeDuration : Duration
}.

(** The error values [VerifySIWS] returns. *)
Inductive Error :=
| ErrEmptyRawMessage
| ErrEmptySignature
| ErrNilMessage
| ErrMissingDomain
| ErrInvalidDomainFormat
| ErrDomainMismatch
| ErrInvalidPubKeySize
| ErrInvalidVersion
| ErrInvalidChainID
| ErrNonceTooShort
| ErrInvalidURI
| ErrInvalidResourceURI
| ErrSignatureVerification
| ErrFutureMessage
| ErrMessageExpired
| ErrNotYetValid.

(** Modelled from the spec: [siws.IsBase58PubKey] is not part of the
    sources at hand; section 4.1, step 7: the decoded address must be
    exactly 32 bytes. *)
Definition IsBase58PubKey (pk : list byte) : bool := (length pk =? 32)%nat.

End siws.

(** What [VerifySIWS] calls outside this file: the base58 decoder of
    btcutil, [ed25519.Verify] and [url.Parse] of the Go library, and the
    two validators of package siws whose rules the specification leaves
    open.  [url_Parse] answers whether [url.Parse] returns without error. *)
Class Externals := {
  base58_Decode : string -> list byte;
  ed25519_Verify : list byte -> list byte -> list byte -> bool;
  url_Parse : string -> bool;
  IsValidDomain : string -> bool;
  IsValidSolanaNetwork : string -> bool
}.

(** [if cond { return err }], and a run of checks that may return. *)
Notation "'when' c 'raise' e ;; k" := (if c then Some e else k)
  (at level 10, c at level 9, e at level 9, k at level 200,
   format "'[v' 'when'  c  'raise'  e  ;;  '/' k ']'").
Notation "'checking' a ;; k" := (match a with Some e => Some e | None => k end)
  (at level 10, a at level 9, k at level 200,
   format "'[v' 'checking'  a  ;;  '/' k ']'").

Section Verify.
Context `{Externals}.

(** The loop over [msg.Resources]: the first entry [url.Parse] refuses
    ends the verification. *)
Fixpoint check_resources (rs : list string) : option siws.Error :=
  match rs with
  | [] => None
  | resource :: rest =>
      if url_Parse resource then check_resources rest
      else Some siws.ErrInvalidResourceURI
  end.

(** Step 9 of [VerifySIWS], the time validations, at the instant [now]
    that [time.Now().UTC()] returned. *)
Definition time_validations (msg : siws.SIWSMessage) (params : siws.SIWSVerificationParams)
    (now : Time) : option siws.Error :=
  checking (if negb (time.IsZero (siws.IssuedAt msg)) then
              when (time.Before now (siws.IssuedAt msg)) raise siws.ErrFutureMessage ;;
              if siws.CheckTime params && (0 <? siws.TimeDuration params)%Z then
                let expiry := time.Add (siws.IssuedAt msg) (siws.TimeDuration params) in
                when (time.After now expiry) raise siws.ErrMessageExpired ;; None
              else None
            else None) ;;
  checking (if negb (time.IsZero (siws.NotBefore msg)) then
              when (time.Before now (siws.NotBefore msg)) raise siws.ErrNotYetValid ;; None
            else None) ;;
  if negb (time.IsZero (siws.ExpirationTime msg)) then
    when (time.After now (siws.ExpirationTime msg)) raise siws.ErrMessageExpired ;; None
  else None.

Definition VerifySIWS (rawMessage : string) (signature : list byte)
    (msg : option siws.SIWSMessage) (params : siws.SIWSVerificationParams)
    (now : Time) : option siws.Error :=
  (* 1) Basic input validation *)
  when (str_empty rawMessage) raise siws.ErrEmptyRawMessage ;;
  when (length signature =? 0)%nat raise siws.ErrEmptySignature ;;
  match msg with
  | None => Some siws.ErrNilMessage
  | Some msg =>
    (* 2) siws.Domain validation *)
    when (str_empty (siws.ExpectedDomain params)) raise siws.ErrMissingDomain ;;
    when (negb (IsValidDomain (siws.Domain msg))) raise siws.ErrInvalidDomainFormat ;;
    when (negb (String.eqb (siws.Domain msg) (siws.ExpectedDomain params))) raise siws.ErrDomainMismatch ;;
    (* 3) siws.Address/Public Key validation *)
    let pubKey := base58_Decode (siws.Address msg) in
    when (negb (siws.IsBase58PubKey pubKey)) raise siws.ErrInvalidPubKeySize ;;
    (* 4) siws.Version validation *)
    when (negb (String.eqb (siws.Version msg) "1")) raise siws.ErrInvalidVersion ;;
    (* 5) Chain ID validation *)
    when (negb (str_empty (siws.ChainID msg)) && negb (IsValidSolanaNetwork (siws.ChainID msg)))
      raise siws.ErrInvalidChainID ;;
    (* 6) siws.Nonce validation *)
    when (negb (str_empty (siws.Nonce msg)) && (String.length (siws.Nonce msg) <? 8)%nat)
      raise siws.ErrNonceTooShort ;;
    (* 7) siws.URI validation *)
    when (negb (str_empty (siws.URI msg)) && negb (url_Parse (siws.URI msg))) raise siws.ErrInvalidURI ;;
    (* siws.Resources validation *)
    checking (check_resources (siws.Resources msg)) ;;
    (* 8) Signature verification *)
    when (negb (ed25519_Verify pubKey (bytes_of rawMessage) signature))
      raise siws.ErrSignatureVerification ;;
    (* 9) Time validations *)
    time_validations msg params now
  end.

End Verify.


(** ** The encrypted envelope *)

Record EncryptedString := {
  KeyID : string;
  Algorithm : string;
  Data : list byte;
  Nonce : list byte
}.

Definition IsValid (es : EncryptedString) : bool :=
  negb (str_empty (KeyID es)) && (0 <? length (Data es))%nat
  && (0 <? length (Nonce es))%nat && String.eqb (Algorithm es) "aes-gcm-hkdf".

(** ShouldReEncrypt tells you if the value encrypted needs to be encrypted
    again with a newer key. *)
Definition ShouldReEncrypt (es : EncryptedString) (encryptionKeyID : string) : bool :=
  negb (String.eqb (KeyID es) encryptionKeyID).

(** The errors of the envelope functions: a [base64.CorruptInputError], the
    two [fmt.Errorf] values, and [cipher: message authentication failed]. *)
Inductive Error :=
| CorruptInputError
| ErrKeyNot256Bits (keyID : string)
| ErrKeyDoesNotExist (keyID : string)
| ErrOpen.

(** What a call returns: a value, an error, or a panic (of [must]). *)
Inductive result (A : Type) :=
| Ok (a : A)
| Err (e : Error)
| Panic.
Arguments Ok {A} a.
Arguments Err {A} e.
Arguments Panic {A}.

#[global] Instance result_bind : MBind result := fun A B k r =>
  match r with
  | Ok a => k a
  | Err e => Err e
  | Panic => Panic
  end.

(** Modelled from the spec: [must] is declared in another file of package
    crypto; section 9 of the specification describes it as turning an
    error into a panic.  [must(v, err)]: the value, or a panic. *)
Definition must {A} (o : option A) : result A :=
  match o with Some a => Ok a | None => Panic end.

Definition deriveSymmetricKey (id keyID keyBase64URL : string) : result (list byte) :=
  match base64.DecodeString base64.RawURLEncoding keyBase64URL with
  | None => Err CorruptInputError
  | Some hkdfKey =>
      if negb (length hkdfKey =? 256 / 8)%nat then Err (ErrKeyNot256Bits keyID)
      else
        (* Since we use AES-GCM here, the same symmetric key must not be
           used more than 2^32 times; the actual symmetric key is derived
           by using HKDF using the encryption key and the "ID" of the
           object containing the encryption string. *)
        let keyReader := hkdf.New hkdfKey [] (bytes_of id) in
        must (hkdf.ReadFull keyReader (256 / 8))
  end.

(** [rand.Reader]: the bytes it delivers, in order.  The source is taken
    to deliver; one that fails makes [must] panic. *)
Definition Rand := nat -> byte.
Definition rand_ReadFull (r : Rand) (n : nat) : list byte := map r (seq 0 n).

(** [cipher.NewGCM(block)] with [must]: the AES block size is the one GCM
    asks for, so it returns the AEAD of [block]. *)
Definition seal (block : aes.Block) (nonce plaintext : list byte) : result (list byte) :=
  match gcm.Seal block nonce plaintext [] with
  | gcm.Value ct => Ok ct
  | _ => Panic
  end.

Definition open (block : aes.Block) (nonce ciphertext : list byte) : result (list byte) :=
  match gcm.Open block nonce ciphertext [] with
  | gcm.Value pt => Ok pt
  | gcm.ErrOpen => Err ErrOpen
  | gcm.Panics => Panic
  end.

Definition NewEncryptedString (rand_Reader : Rand) (id : string) (data : list byte)
    (keyID keyBase64URL : string) : result EncryptedString :=
  key ← deriveSymmetricKey id keyID keyBase64URL;
  block ← must (aes.NewCipher key);
  let nonce := rand_ReadFull rand_Reader 12 in
  ct ← seal block nonce data;
  Ok {| KeyID := keyID; Algorithm := "aes-gcm-hkdf"; Data := ct; Nonce := nonce |}.

Section DecryptWith.
(** The body of [Decrypt], over the key derivation it calls. *)
Variable derive : string -> string -> string -> result (list byte).

Definition Decrypt_with (es : EncryptedString) (id : string)
    (decryptionKeys : gmap string string) : result (list byte) :=
  let decryptionKey := default EmptyString (decryptionKeys !! KeyID es) in
  if str_empty decryptionKey then Err (ErrKeyDoesNotExist (KeyID es))
  else
    key ← derive id (KeyID es) decryptionKey;
    block ← must (aes.NewCipher key);
    open block (Nonce es) (Data es).

End DecryptWith.

Definition Decrypt (es : EncryptedString) (id : string)
    (decryptionKeys : gmap string string) : result (list byte) :=
  Decrypt_with deriveSymmetricKey es id decryptionKeys.

(** [json.Marshal(es)]: the fields in the order of the struct, under the
    names of their tags; [nonce] is left out when empty. *)
Definition json_Marshal (es : EncryptedString) : string :=
  "{" +:+ json.q +:+ "key_id" +:+ json.q +:+ ":" +:+ json.appendString (KeyID es)
  +:+ "," +:+ json.q +:+ "alg" +:+ json.q +:+ ":" +:+ json.appendString (Algorithm es)
  +:+ "," +:+ json.q +:+ "data" +:+ json.q +:+ ":" +:+ json.encodeByteSlice (Data es)
  +:+ match Nonce es with
      | [] => EmptyString
      | _ => "," +:+ json.q +:+ "nonce" +:+ json.q +:+ ":" +:+ json.encodeByteSlice (Nonce es)
      end
  +:+ "}".

(** A number or [null] into an element of a [[]byte]. *)
Definition decode_uint8 (v : jsonscan.value) : option byte :=
  match v with
  | jsonscan.VNumber lit => jsonscan.parse_uint8 lit
  | jsonscan.VNull => Some Byte.x00
  | _ => None
  end.

(** A value into a [string] field: a string sets it, [null] leaves it. *)
Definition decode_string (v : jsonscan.value) (old : string) : option string :=
  match v with
  | jsonscan.VString s => Some s
  | jsonscan.VNull => Some old
  | _ => None
  end.

(** A value into a [[]byte] field: a string is standard base64, an array
    gives the bytes one by one, [null] gives nil. *)
Definition decode_bytes (v : jsonscan.value) : option (list byte) :=
  match v with
  | jsonscan.VString s => base64.DecodeString base64.StdEncoding s
  | jsonscan.VNull => Some []
  | jsonscan.VArray elems => mapM decode_uint8 elems
  | _ => None
  end.

(** One member of the object into the struct; a key that names no field
    (case folded) is skipped. *)
Definition decode_member (es : EncryptedString) (kv : string * jsonscan.value)
    : option EncryptedString :=
  let '(key, v) := kv in
  let name := jsonscan.foldName key in
  if String.eqb name "KEY_ID" then
    s ← decode_string v (KeyID es);
    Some {| KeyID := s; Algorithm := Algorithm es; Data := Data es; Nonce := Nonce es |}
  else if String.eqb name "ALG" then
    s ← decode_string v (Algorithm es);
    Some {| KeyID := KeyID es; Algorithm := s; Data := Data es; Nonce := Nonce es |}
  else if String.eqb name "DATA" then
    b ← decode_bytes v;
    Some {| KeyID := KeyID es; Algorithm := Algorithm es; Data := b; Nonce := Nonce es |}
  else if String.eqb name "NONCE" then
    b ← decode_bytes v;
    Some {| KeyID := KeyID es; Algorithm := Algorithm es; Data := Data es; Nonce := b |}
  else Some es.

Fixpoint decode_members (es : EncryptedString) (members : list (string * jsonscan.value))
    : option EncryptedString :=
  match members with
  | [] => Some es
  | kv :: rest =>
      match decode_member es kv with
      | Some es' => decode_members es' rest
      | None => None
      end
  end.

(** [json.Unmarshal([]byte(str), &es)] into a zero [es]; any error it
    returns is [None]. *)
Definition json_Unmarshal (str : string) : option EncryptedString :=
  let zero := {| KeyID := EmptyString; Algorithm := EmptyString; Data := []; Nonce := [] |} in
  match jsonscan.parse str with
  | Some (jsonscan.VObject members) => decode_members zero members
  | Some jsonscan.VNull => Some zero
  | _ => None
  end.

Definition ParseEncryptedString (str : string) : option EncryptedString :=
  if negb (String.prefix "{" str) then None
  else
    match json_Unmarshal str with
    | None => None
    | Some es => if negb (IsValid es) then None else Some es
    end.

(** [es.String()] *)
Definition String_ (es : EncryptedString) : string := json_Marshal es.

(** ** The nonce store *)

(** A [uuid.UUID] is sixteen bytes, read here as one number. *)
Definition UUID := N.

Module StoredNonce.
Record t := {
  ID : UUID;
  Nonce : string;
  Address : string;
  CreatedAt : Time;
  ExpiresAt : Time;
  Used : bool
}.
End StoredNonce.

(** The table [auth.nonces]: its rows, in the order a scan yields them. *)
Abbreviation Table := (list StoredNonce.t).

(** The errors [VerifyAndConsumeNonce] returns: [sql.ErrNoRows], which
    [QueryRow(...).Scan] returns when no row is selected, and the
    [fmt.Errorf] value of the expiration check. *)
Inductive ConsumeError :=
| ErrNoRows
| ErrNonceExpired.

(** [WHERE nonce = $1 AND used = false AND address = $2] *)
Definition selects (nonce address : string) (r : StoredNonce.t) : bool :=
  String.eqb (StoredNonce.Nonce r) nonce && negb (StoredNonce.Used r)
  && String.eqb (StoredNonce.Address r) address.

(** [tx.TX.QueryRow(SELECT ... FROM auth.nonces WHERE ...)]: the first
    selected row, if there is one. *)
Definition QueryRow (tx : Table) (nonce address : string) : option StoredNonce.t :=
  List.find (selects nonce address) tx.

(** [tx.TX.Exec(UPDATE auth.nonces SET used = true, address = $1 WHERE id = $2)] *)
Definition ExecUpdate (tx : Table) (address : string) (id : UUID) : Table :=
  map (fun r =>
         if (StoredNonce.ID r =? id)%N then
           {| StoredNonce.ID := StoredNonce.ID r;
              StoredNonce.Nonce := StoredNonce.Nonce r;
              StoredNonce.Address := address;
              StoredNonce.CreatedAt := StoredNonce.CreatedAt r;
              StoredNonce.ExpiresAt := StoredNonce.ExpiresAt r;
              StoredNonce.Used := true |}
         else r) tx.

(** Modelled from the spec: [storage.Connection.Transaction] is declared in
    internal/storage, which is not part of the sources at hand.  Section
    4.4: the function runs within a single isolated transaction, so it
    reads and writes the table with no other transaction in between; an
    error rolls its writes back (section 5). *)
Definition Transaction (fn : Table -> Table * option ConsumeError) (db : Table)
    : Table * option ConsumeError :=
  match fn db with
  | (db', None) => (db', None)
  | (_, Some err) => (db, Some err)
  end.

(** [now] is the instant [time.Now()] returns inside the transaction. *)
Definition VerifyAndConsumeNonce (db : Table) (nonce address : string) (now : Time)
    : Table * option ConsumeError :=
  Transaction (fun tx =>
    (* Find the nonce *)
    match QueryRow tx nonce address with
    | None => (tx, Some ErrNoRows)
    | Some storedNonce =>
      (* Check expiration *)
      if time.After now (StoredNonce.ExpiresAt storedNonce) then
        (tx, Some ErrNonceExpired)
      else
        (* Mark as used *)
        (ExecUpdate tx address (StoredNonce.ID storedNonce), None)
    end) db.

(** Callers that race on one [(nonce, address)] pair.  Each caller is the
    instant its clock shows; the store runs the pending transactions one
    at a time in an order of its own choosing, and an outcome records the
    caller, what it was returned and the table it left. *)
Definition Outcome : Type := Time * option ConsumeError * Table.

Inductive race (nonce address : string) : Table -> list Time -> list Outcome -> Prop :=
| race_done db : race nonce address db [] []
| race_next db before now after db' err outs :
    VerifyAndConsumeNonce db nonce address now = (db', err) ->
    race nonce address db' (before ++ after) outs ->
    race nonce address db (before ++ now :: after) ((now, err, db') :: outs).

(** The row at position [i] is an issued, unused nonce, and no other
    unused row carries its nonce and address. *)
Definition issued (db : Table) (i : nat) (row : StoredNonce.t) : Prop :=
  db !! i = Some row /\ StoredNonce.Used row = false /\
  forall j r, db !! j = Some r ->
    selects (StoredNonce.Nonce row) (StoredNonce.Address row) r = true -> j = i.

(** The caller was returned [nil]. *)
Definition succeeded (o : Outcome) : bool :=
  match o with (_, None, _) => true | _ => false end.

(** The [used] column of the row at position [i]. *)
Definition used_at (db : Table) (i : nat) : option bool :=
  StoredNonce.Used <$> db !! i.

(** A table of two rows: a nonce consumed earlier, and the nonce
    ["abcdefgh"] issued to one address and not yet used. *)
Definition sample_row : StoredNonce.t := {|
  StoredNonce.ID := 2%N;
  StoredNonce.Nonce := "abcdefgh";
  StoredNonce.Address := "2EZEiBdw47VHT6SpZSW9VnuSvBe7DxuYHBTxj19gxvv8";
  StoredNonce.CreatedAt := 1000%Z;
  StoredNonce.ExpiresAt := 2000%Z;
  StoredNonce.Used := false
|}.

Definition sample_table : Table := [
  {| StoredNonce.ID := 1%N;
     StoredNonce.Nonce := "abcdefgh";
     StoredNonce.Address := "2EZEiBdw47VHT6SpZSW9VnuSvBe7DxuYHBTxj19gxvv8";
     StoredNonce.CreatedAt := 10%Z;
     StoredNonce.ExpiresAt := 20%Z;
     StoredNonce.Used := true |};
  sample_row
].

(** A table of two issued nonces. *)
Definition other_row : StoredNonce.t := {|
  StoredNonce.ID := 3%N;
  StoredNonce.Nonce := "ijklmnop";
  StoredNonce.Address := "2EZEiBdw47VHT6SpZSW9VnuSvBe7DxuYHBTxj19gxvv8";
  StoredNonce.CreatedAt := 1100%Z;
  StoredNonce.ExpiresAt := 2100%Z;
  StoredNonce.Used := false
|}.
Definition two_nonces : Table := [sample_row; other_row].

(** ** Random tokens, one-time passwords and the Ethereum stub *)

(** [io.ReadFull(rand.Reader, b)] for the [n] bytes from position [pos]
    of the stream. *)
Definition rand_ReadAt (r : Rand) (pos n : nat) : list byte := map r (seq pos n).

Module rand.
Local Open Scope Z_scope.

(** [big.Int.BitLen] of [n >= 0]. *)
Definition BitLen (n : Z) : Z := if n =? 0 then 0 else Z.log2 n + 1.

(** [k], the bytes that encode a value below [max], and [b], the bits of
    the first of them that a value below [max] can have set. *)
Definition byte_count (max : Z) : nat := Z.to_nat ((BitLen (max - 1) + 7) / 8).
Definition top_bits (max : Z) : Z :=
  let b := BitLen (max - 1) mod 8 in if b =? 0 then 8 else b.

(** The candidate that attempt number [j] of [rand.Int] reads: [k] bytes
    as a big-endian number, the first byte cut to its low [b] bits. *)
Definition candidate (r : Rand) (max : Z) (j : nat) : Z :=
  let k := byte_count max in
  match rand_ReadAt r (j * k) k with
  | [] => 0
  | b0 :: rest =>
      be_number (byte_of_z (Z.land (z_of_byte b0) (Z.shiftl 1 (top_bits max) - 1)) :: rest)
  end.

(** The loop of [rand.Int]: candidates are read until one is below
    [max]; [None] when [fuel] attempts have found none. *)
Fixpoint Int_loop (fuel : nat) (r : Rand) (max : Z) (j : nat) : option Z :=
  match fuel with
  | O => None
  | S fuel' =>
      let n := candidate r max j in
      if n <? max then Some n else Int_loop fuel' r max (S j)
  end.

(** [rand.Int(rand.Reader, max)]: a panic for a bound that is not
    positive, zero without reading when the bound is one; [None] when
    the loop has not returned within [fuel] attempts. *)
Definition Int (fuel : nat) (r : Rand) (max : Z) : option (result Z) :=
  if max <=? 0 then Some Panic
  else if BitLen (max - 1) =? 0 then Some (Ok 0)
  else Ok <$> Int_loop fuel r max 0.

End rand.

(** SecureToken creates a new random token *)
Definition SecureToken (rand_Reader : Rand) : string :=
  let b := rand_ReadFull rand_Reader 16 in
  base64.EncodeToString base64.RawURLEncoding b.

Section Otp.
(** The [int64] that converting [math.Pow10(digits)] yields when the power
    is beyond the range of [int64]; the language leaves the value to the
    implementation. *)
Variable int64_out_of_range : Z -> Z.

(** [int64(math.Pow10(digits))]: the powers up to 10^18 are exact in
    [float64] and in [int64]; a negative exponent gives a fraction, which
    the conversion truncates to zero. *)
Definition int64_Pow10 (digits : Z) : Z :=
  if (digits <? 0)%Z then 0%Z
  else if (digits <=? 18)%Z then (10 ^ digits)%Z
  else int64_out_of_range digits.

(** GenerateOtp generates a random n digit otp

    The result is [None] when the random source has delivered no
    candidate below the bound within [fuel] attempts (the loop of
    [rand.Int] is still running), or when the format is outside the
    modelled part of [fmt.Sprintf]. *)
Definition GenerateOtp (fuel : nat) (rand_Reader : Rand) (digits : Z)
    : option (result string) :=
  let upper := int64_Pow10 digits in
  match rand.Int fuel rand_Reader upper with
  | Some (Ok val) =>
      (* adds a variable zero-padding to the left to ensure otp is
         uniformly random *)
      let expr := "%0" +:+ strconv.Itoa digits +:+ "v" in
      Ok <$> fmt.Sprintf expr (strconv.FormatInt val)
  | Some (Err e) => Some (Err e)
  | Some Panic => Some Panic
  | None => None
  end.

End Otp.

Definition GenerateTokenHash (emailOrPhone otp : string) : string :=
  fmt.Sprintf_x (sha256.Sum224 (bytes_of (emailOrPhone +:+ otp))).

(** A Go [int] (64 bits) of an integer, with its wrap-around. *)
Definition int_wrap (z : Z) : Z := ((z + 2 ^ 63) mod 2 ^ 64 - 2 ^ 63)%Z.

(** Generated a random secure integer from [0, max[

    [None] as for [rand.Int]; [int(randomInt.Int64())] keeps the low 64
    bits. *)
Definition secureRandomInt (fuel : nat) (rand_Reader : Rand) (max : Z)
    : option (result Z) :=
  match rand.Int fuel rand_Reader max with
  | Some (Ok randomInt) => Some (Ok (int_wrap randomInt))
  | other => other
  end.

(** The two [fmt.Errorf] values of [VerifyEthereumSignature]; the first
    wraps the error of [hex.DecodeString]. *)
Inductive SiweError :=
| ErrInvalidSignatureHex (err : hex.Error)
| ErrInvalidSignatureLength.

Definition removeHexPrefix (signature : string) : string :=
  if strings.HasPrefix signature "0x" then strings.TrimPrefix signature "0x"
  else signature.

(** The body of the function after the adjustment of V is commented out
    in the source: nothing is recovered or compared. *)
Definition VerifyEthereumSignature (message signature : string) : option SiweError :=
  (* Remove 0x prefix if present *)
  let signature := removeHexPrefix signature in
  (* Convert signature hex to bytes *)
  let '(sigBytes, err) := hex.DecodeString signature in
  match err with
  | Some err => Some (ErrInvalidSignatureHex err)
  | None =>
      (* Adjust V value in signature (Ethereum specific) *)
      if negb (length sigBytes =? 65)%nat then Some ErrInvalidSignatureLength
      else
        let v := z_of_byte (nth 64 sigBytes Byte.x00) in
        let sigBytes :=
          if (v <? 27)%Z then <[64%nat := byte_of_z (v + 27)]> sigBytes else sigBytes in
        None
  end.

(** SecureAlphanumeric generates a secure random alphanumeric string using
    standard library

    [make] panics on a negative length, and the slice expression
    [s[:length]] on a string shorter than [length]. *)
Definition SecureAlphanumeric (rand_Reader : Rand) (length : Z) : result string :=
  let length := if (length <? 8)%Z then 8%Z else length in
  (* Calculate bytes needed for desired length
     base32 encoding: 5 bytes -> 8 chars *)
  let numBytes := Z.quot (int_wrap (int_wrap (length * 5) + 7)) 8 in
  if (numBytes <? 0)%Z then Panic
  else
    let b := rand_ReadFull rand_Reader (Z.to_nat numBytes) in
    (* Use standard library's base32 without padding *)
    let s := strings.ToLower (base32.EncodeToString b) in
    if (Z.of_nat (String.length s) <? length)%Z then Panic
    else Ok (substring 0 (Z.to_nat length) s).

(** ** Section 4.1 of the specification, as a list of checks *)

(** What [verify] is given, with the reading of the clock. *)
Record VerifyInput := {
  rawMessageBytes : string;
  signatureBytes : list byte;
  parsedMessage : option siws.SIWSMessage;
  verifyParams : siws.SIWSVerificationParams;
  currentTime : Time
}.

(** A check passes ([None]) or names its error kind. *)
Definition Check := VerifyInput -> option siws.Error.

(** [require c e]: the condition [c] must hold, else [e]. *)
Definition require (c : bool) (e : siws.Error) : option siws.Error :=
  if c then None else Some e.

(** A check on the parsed message says nothing when there is none. *)
Definition on_message (f : siws.SIWSMessage -> VerifyInput -> option siws.Error) : Check :=
  fun inp => match parsedMessage inp with Some m => f m inp | None => None end.

(** Fail-fast: the first failing check determines the reported error kind. *)
Fixpoint first_failure (checks : list Check) (inp : VerifyInput) : option siws.Error :=
  match checks with
  | [] => None
  | c :: rest => match c inp with Some e => Some e | None => first_failure rest inp end
  end.

Section SpecChecks.
Context `{Externals}.

(** The sixteen preconditions, in the words of section 4.1. *)
Definition spec_checks : list Check := [
  (* 1 *) (fun inp => require (negb (str_empty (rawMessageBytes inp))) siws.ErrEmptyRawMessage);
  (* 2 *) (fun inp => require (negb (length (signatureBytes inp) =? 0)%nat) siws.ErrEmptySignature);
  (* 3 *) (fun inp => require (bool_decide (is_Some (parsedMessage inp))) siws.ErrNilMessage);
  (* 4 *) (fun inp => require (negb (str_empty (siws.ExpectedDomain (verifyParams inp))))
                        siws.ErrMissingDomain);
  (* 5 *) on_message (fun m _ => require (IsValidDomain (siws.Domain m)) siws.ErrInvalidDomainFormat);
  (* 6 *) on_message (fun m inp =>
            require (String.eqb (siws.Domain m) (siws.ExpectedDomain (verifyParams inp)))
              siws.ErrDomainMismatch);
  (* 7 *) on_message (fun m _ =>
            require (length (base58_Decode (siws.Address m)) =? 32)%nat siws.ErrInvalidPubKeySize);
  (* 8 *) on_message (fun m _ => require (String.eqb (siws.Version m) "1") siws.ErrInvalidVersion);
  (* 9 *) on_message (fun m _ =>
            require (str_empty (siws.ChainID m) || IsValidSolanaNetwork (siws.ChainID m))
              siws.ErrInvalidChainID);
  (* 10 *) on_message (fun m _ =>
            require (str_empty (siws.Nonce m) || (8 <=? String.length (siws.Nonce m))%nat)
              siws.ErrNonceTooShort);
  (* 11 *) on_message (fun m _ =>
            require (str_empty (siws.URI m) || url_Parse (siws.URI m)) siws.ErrInvalidURI);
  (* 12 *) on_message (fun m _ =>
            require (forallb url_Parse (siws.Resources m)) siws.ErrInvalidResourceURI);
  (* 13 *) on_message (fun m inp =>
            require (ed25519_Verify (base58_Decode (siws.Address m))
                       (bytes_of (rawMessageBytes inp)) (signatureBytes inp))
              siws.ErrSignatureVerification);
  (* 14 *) on_message (fun m inp =>
            if time.IsZero (siws.IssuedAt m) then None
            else if time.Before (currentTime inp) (siws.IssuedAt m) then Some siws.ErrFutureMessage
            else require (negb (siws.CheckTime (verifyParams inp)
                                && (0 <? siws.TimeDuration (verifyParams inp))%Z
                                && time.After (currentTime inp)
                                     (time.Add (siws.IssuedAt m)
                                        (siws.TimeDuration (verifyParams inp)))))
                   siws.ErrMessageExpired);
  (* 15 *) on_message (fun m inp =>
            require (time.IsZero (siws.NotBefore m)
                     || negb (time.Before (currentTime inp) (siws.NotBefore m)))
              siws.ErrNotYetValid);
  (* 16 *) on_message (fun m inp =>
            require (time.IsZero (siws.ExpirationTime m)
                     || negb (time.After (currentTime inp) (siws.ExpirationTime m)))
              siws.ErrMessageExpired)
].

(** [VerifySIWS] on an input record. *)
Definition verify (inp : VerifyInput) : option siws.Error :=
  VerifySIWS (rawMessageBytes inp) (signatureBytes inp) (parsedMessage inp)
    (verifyParams inp) (currentTime inp).

End SpecChecks.

(** ** Stand-ins for the external functions

    The theorems about [VerifySIWS] hold for every instance of
    [Externals].  To run the verifier on concrete inputs, this instance
    decodes base58 the way btcutil does and uses simple stand-ins for the
    rest: a URL is refused when it holds an ASCII control byte (the first
    thing [url.Parse] checks), a domain when it is empty or holds a space,
    and a signature is accepted when it is the message prefixed by the
    key (no cryptography). *)

Module base58.

Definition alphabet : string :=
  "123456789ABCDEFGHJKLMNPQRSTUVWXYZabcdefghijkmnopqrstuvwxyz".

Fixpoint index_of (c : ascii) (s : string) (i : N) : option N :=
  match s with
  | EmptyString => None
  | String d rest => if Ascii.eqb c d then Some i else index_of c rest (i + 1)%N
  end.

(** The digits of [b] read as one number in base 58, or [None] at a
    character outside the alphabet. *)
Fixpoint number (b : string) (acc : N) : option N :=
  match b with
  | EmptyString => Some acc
  | String c rest =>
      match index_of c alphabet 0 with
      | Some d => number rest (acc * 58 + d)%N
      | None => None
      end
  end.

(** [big.Int.Bytes]: big-endian, no leading zero byte. *)
Fixpoint big_bytes (fuel : nat) (n : N) (acc : list byte) : list byte :=
  match fuel with
  | O => acc
  | S fuel' =>
      if (n =? 0)%N then acc
      else big_bytes fuel' (n / 256)%N
             (default Byte.x00 (Byte.of_N (n mod 256)%N) :: acc)
  end.

Fixpoint leading_ones (b : string) : nat :=
  match b with
  | String "1"%char rest => S (leading_ones rest)
  | _ => O
  end.

Definition Decode (b : string) : list byte :=
  match number b 0 with
  | None => []
  | Some n => repeat Byte.x00 (leading_ones b) ++ big_bytes (String.length b) n []
  end.

End base58.

Fixpoint has_ctl_byte (s : string) : bool :=
  match s with
  | EmptyString => false
  | String c rest =>
      (N_of_ascii c <? 32)%N || (N_of_ascii c =? 127)%N || has_ctl_byte rest
  end.

Fixpoint has_space (s : string) : bool :=
  match s with
  | EmptyString => false
  | String c rest => Ascii.eqb c " "%char || has_space rest
  end.

#[local] Instance stand_ins : Externals := {|
  base58_Decode := base58.Decode;
  ed25519_Verify := fun pk m sig => bool_decide (sig = pk ++ m);
  url_Parse := fun u => negb (has_ctl_byte u);
  IsValidDomain := fun d => negb (str_empty d) && negb (has_space d);
  IsValidSolanaNetwork := fun c =>
    bool_decide (c ∈ ["mainnet"; "devnet"; "testnet"])
|}.

(** The message of [TestHappyPath] (web3_test.go), with an optional URI
    and resource list put in. *)
Definition sample_message (uri : string) (resources : list string) : siws.SIWSMessage := {|
  siws.Domain := "phantom.com";
  siws.Address := "2EZEiBdw47VHT6SpZSW9VnuSvBe7DxuYHBTxj19gxvv8";
  siws.Statement := "supabase/auth tests";
  siws.URI := uri;
  siws.Version := "1";
  siws.ChainID := "";
  siws.Nonce := "";
  siws.IssuedAt := 0%Z;
  siws.ExpirationTime := 0%Z;
  siws.NotBefore := 0%Z;
  siws.Resources := resources
|}.

Definition sample_params : siws.SIWSVerificationParams := {|
  siws.ExpectedDomain := "phantom.com";
  siws.CheckTime := false;
  siws.TimeDuration := 0%Z
|}.

Definition sample_input (raw : string) (m : siws.SIWSMessage) : VerifyInput := {|
  rawMessageBytes := raw;
  signatureBytes := [Byte.x00];
  parsedMessage := Some m;
  verifyParams := sample_params;
  currentTime := 0%Z
|}.

(** A string [url.Parse] refuses: the single byte 0x7f. *)
Definition bad_uri : string := String (ascii_of_N 127) EmptyString.

(** ** Notions for the proofs about strings *)

(** Every byte of [s] lies outside ASCII. *)
Definition high_bytes (s : string) : Prop :=
  Forall (fun c => (128 <= jsonscan.code c)%N) (list_ascii_of_string s).

(** Inside a string literal and outside an escape, the scanner reads the
    whole of [raw] and is outside an escape again. *)
Definition accepts (raw : string) : Prop :=
  forall toks acc,
    jsonscan.run raw (toks, jsonscan.InString acc jsonscan.SNormal)
    = Some (toks, jsonscan.InString (rev (list_ascii_of_string raw) ++ acc) jsonscan.SNormal).

(** Every byte of [s] is one that [appendString] writes as it is. *)
Definition plain (s : string) : Prop :=
  Forall (fun c => json.htmlSafe (N_of_ascii c) = true) (list_ascii_of_string s).

(** A hexadecimal digit of either case, a decimal digit, and the
    alphabet of [SecureAlphanumeric]. *)
Definition is_hex_digit (c : ascii) : Prop := is_Some (hex.fromHexChar c).
Definition is_decimal_digit (c : ascii) : Prop := (48 <= N_of_ascii c <= 57)%N.
Definition base32_lower : string := "abcdefghijklmnopqrstuvwxyz234567".

(** What a call of [VerifyAndConsumeNonce] leaves of a row: everything, or
    everything but [used], now true, and the address, now that of the
    call. *)
Definition row_kept (address : string) (r r' : StoredNonce.t) : Prop :=
  StoredNonce.ID r' = StoredNonce.ID r /\
  StoredNonce.Nonce r' = StoredNonce.Nonce r /\
  StoredNonce.CreatedAt r' = StoredNonce.CreatedAt r /\
  StoredNonce.ExpiresAt r' = StoredNonce.ExpiresAt r /\
  (r' = r \/ (StoredNonce.Used r' = true /\ StoredNonce.Address r' = address)).

(** ** Sample envelopes *)

Definition sample_envelope : EncryptedString := {|
  KeyID := "k1";
  Algorithm := "aes-gcm-hkdf";
  Data := hex "0102ff";
  Nonce := hex "aabbccddeeff001122334455"
|}.

(** An envelope whose key id is the single byte 0xff, and the envelope
    with the replacement character U+FFFD in its place. *)
Definition odd_envelope : EncryptedString := {|
  KeyID := String (ascii_of_N 255) EmptyString;
  Algorithm := "aes-gcm-hkdf";
  Data := hex "0102ff";
  Nonce := hex "aabbccddeeff001122334455"
|}.

Definition coerced_envelope : EncryptedString := {|
  KeyID := utf8.EncodeRune utf8.RuneError;
  Algorithm := "aes-gcm-hkdf";
  Data := hex "0102ff";
  Nonce := hex "aabbccddeeff001122334455"
|}.

(** The envelope of the word "secret" for the record "record-1" under
    the key "k1" of 32 zero bytes, with the nonce 00 01 ... 0b. *)
Definition sample_key : string := "AAAAAAAAAAAAAAAAAAAAAAAAAAAAAAAAAAAAAAAAAAA".
Definition secret_envelope : EncryptedString :=
  Eval vm_compute in
    match NewEncryptedString (fun i => byte_of_z (Z.of_nat i)) "record-1"
            (bytes_of "secret") "k1" sample_key with
    | Ok es => es
    | _ => sample_envelope
    end.

(** The sample message, signed the stand-in way, under parameters that
    ask for the age check; the message has no [IssuedAt] and no
    [ExpirationTime]. *)
Definition signed_input : VerifyInput := {|
  rawMessageBytes := "x";
  signatureBytes := base58.Decode "2EZEiBdw47VHT6SpZSW9VnuSvBe7DxuYHBTxj19gxvv8"
                    ++ bytes_of "x";
  parsedMessage := Some (sample_message "" []);
  verifyParams := {| siws.ExpectedDomain := "phantom.com"; siws.CheckTime := true;
                     siws.TimeDuration := 10%Z |};
  currentTime := 0%Z
|}.

(** * Theorems *)

(** ** The library models against published test vectors *)

(** FIPS 180-4, the one-block message and the empty message. *)
Example sha256_abc :
  sha256.Sum256 (bytes_of "abc")
  = hex "ba7816bf8f01cfea414140de5dae2223b00361a396177a9cb410ff61f20015ad".
Proof. vm_compute. reflexivity. Qed.

Example sha256_empty :
  sha256.Sum256 []
  = hex "e3b0c44298fc1c149afbf4c8996fb92427ae41e4649b934ca495991b7852b855".
Proof. vm_compute. reflexivity. Qed.

(** RFC 4231, test case 1. *)
Example hmac_sha256_rfc4231 :
  hmac.Sum (repeat (byte_of_z 11) 20) (bytes_of "Hi There")
  = hex "b0344c61d8db38535ca8afceaf0bf12b881dc200c9833da726e9376c2e32cff7".
Proof. vm_compute. reflexivity. Qed.

(** RFC 5869, test case 3 (no salt, no info, 42 bytes). *)
Example hkdf_sha256_rfc5869 :
  hkdf.ReadFull (hkdf.New (repeat (byte_of_z 11) 22) [] []) 42
  = Some (hex ("8da4e775a563c18f715f802a063c5a31b8a11f5c5ee1879ec3454e5f3c738d2d"
               +:+ "9d201395faa4b61a96c8")).
Proof. vm_compute. reflexivity. Qed.

(** FIPS 197, appendix C.3 (AES-256) and C.1 (AES-128). *)
Example aes256_fips197 :
  (fun b => aes.Encrypt b (hex "00112233445566778899aabbccddeeff")) <$>
    aes.NewCipher (hex "000102030405060708090a0b0c0d0e0f101112131415161718191a1b1c1d1e1f")
  = Some (hex "8ea2b7ca516745bfeafc49904b496089").
Proof. vm_compute. reflexivity. Qed.

Example aes128_fips197 :
  (fun b => aes.Encrypt b (hex "00112233445566778899aabbccddeeff")) <$>
    aes.NewCipher (hex "000102030405060708090a0b0c0d0e0f")
  = Some (hex "69c4e0d86a7b0430d8cdb78070b4c55a").
Proof. vm_compute. reflexivity. Qed.

(** The GCM specification, test cases 13 and 14 (AES-256, zero key and
    nonce; no plaintext, and one block of zeros). *)
Example gcm_test_case_13 :
  (fun b => gcm.Seal b (repeat Byte.x00 12) [] []) <$> aes.NewCipher (repeat Byte.x00 32)
  = Some (gcm.Value (hex "530f8afbc74536b9a963b4f1c4cb738b")).
Proof. vm_compute. reflexivity. Qed.

Example gcm_test_case_14 :
  (fun b => gcm.Seal b (repeat Byte.x00 12) (repeat Byte.x00 16) []) <$>
    aes.NewCipher (repeat Byte.x00 32)
  = Some (gcm.Value (hex ("cea7403d4d606b6e074ec5d3baf39d18"
                          +:+ "d0d1c8a799996bf0265b98b5d48ab919"))).
Proof. vm_compute. reflexivity. Qed.

(** RFC 4648, section 10, and the two encodings on input the other one
    accepts. *)
Example base64_std_encode :
  base64.EncodeToString base64.StdEncoding (bytes_of "fooba") = "Zm9vYmE=".
Proof. vm_compute. reflexivity. Qed.

Example base64_std_decode :
  base64.DecodeString base64.StdEncoding "Zm9vYg==" = Some (bytes_of "foob").
Proof. vm_compute. reflexivity. Qed.

Example base64_std_needs_padding :
  base64.DecodeString base64.StdEncoding "Zm9vYg" = None.
Proof. vm_compute. reflexivity. Qed.

Example base64_rawurl_decode :
  base64.DecodeString base64.RawURLEncoding "Zm9vYg" = Some (bytes_of "foob").
Proof. vm_compute. reflexivity. Qed.

Example base64_rawurl_refuses_padding :
  base64.DecodeString base64.RawURLEncoding "Zm9vYg==" = None.
Proof. vm_compute. reflexivity. Qed.

(** ** Fail-fast lists of checks *)

Lemma first_failure_none (checks : list Check) (inp : VerifyInput) :
  first_failure checks inp = None <-> Forall (fun c => c inp = None) checks.
Proof.
  induction checks as [|c rest IH]; simpl.
  - split; [constructor | reflexivity].
  - destruct (c inp) eqn:Hc.
    + split; [discriminate | intros Hall; inversion Hall; congruence].
    + rewrite IH. split; [intros Hr; constructor; assumption | intros Hall; inversion Hall; assumption].
Qed.

Lemma first_failure_some (checks : list Check) (inp : VerifyInput) (e : siws.Error) :
  first_failure checks inp = Some e <->
  exists i c, checks !! i = Some c /\ c inp = Some e /\
    forall j c', (j < i)%nat -> checks !! j = Some c' -> c' inp = None.
Proof.
  revert e. induction checks as [|c rest IH]; intros e; simpl.
  - split; [discriminate | intros (i & c & Hi & _); destruct i; discriminate].
  - destruct (c inp) eqn:Hc.
    + split.
      * intros [= <-]. exists 0%nat, c. repeat split; try assumption.
        intros j c' Hj; lia.
      * intros (i & c0 & Hi & Hc0 & Hbefore). destruct i as [|i].
        -- simpl in Hi. injection Hi as <-. congruence.
        -- specialize (Hbefore 0%nat c ltac:(lia) eq_refl). congruence.
    + rewrite IH. split.
      * intros (i & c0 & Hi & Hc0 & Hbefore). exists (S i), c0. repeat split; try assumption.
        intros [|j] c' Hj Hl; simpl in Hl.
        -- injection Hl as <-. assumption.
        -- apply (Hbefore j); [lia | assumption].
      * intros (i & c0 & Hi & Hc0 & Hbefore). destruct i as [|i].
        -- simpl in Hi. injection Hi as <-. congruence.
        -- exists i, c0. repeat split; try assumption.
           intros j c' Hj Hl. apply (Hbefore (S j)); [lia | assumption].
Qed.

Section VerifyFacts.
Context `{Externals}.

Lemma check_resources_forallb (rs : list string) :
  check_resources rs = require (forallb url_Parse rs) siws.ErrInvalidResourceURI.
Proof.
  induction rs as [|r rest IH]; simpl; [reflexivity|].
  destruct (url_Parse r); simpl; [exact IH | reflexivity].
Qed.

Lemma verify_first_failure (inp : VerifyInput) :
  verify inp = first_failure spec_checks inp.
Proof.
  destruct inp as [raw sig msg params now].
  unfold verify, VerifySIWS, time_validations, spec_checks, siws.IsBase58PubKey.
  cbn [first_failure on_message rawMessageBytes signatureBytes parsedMessage
       verifyParams currentTime].
  unfold require.
  destruct (str_empty raw); [reflexivity|].
  destruct (length sig =? 0)%nat; [reflexivity|].
  destruct msg as [m|]; [|reflexivity].
  unfold on_message.
  cbn [rawMessageBytes signatureBytes parsedMessage verifyParams currentTime].
  rewrite check_resources_forallb, Nat.leb_antisym. unfold require.
  cbn [negb bool_decide decide_rel is_Some_dec].
  destruct (str_empty (siws.ExpectedDomain params)); [reflexivity|].
  destruct (IsValidDomain (siws.Domain m)); [|reflexivity].
  destruct (String.eqb (siws.Domain m) (siws.ExpectedDomain params)); [|reflexivity].
  destruct (length (base58_Decode (siws.Address m)) =? 32)%nat; [|reflexivity].
  destruct (String.eqb (siws.Version m) "1"); [|reflexivity].
  destruct (str_empty (siws.ChainID m));
    [|destruct (IsValidSolanaNetwork (siws.ChainID m)); [|reflexivity]].
  all: (destruct (str_empty (siws.Nonce m));
    [|destruct (String.length (siws.Nonce m) <? 8)%nat; [reflexivity|]]).
  all: (destruct (str_empty (siws.URI m));
    [|destruct (url_Parse (siws.URI m)); [|reflexivity]]).
  all: (destruct (forallb url_Parse (siws.Resources m)); [|reflexivity]).
  all: (destruct (ed25519_Verify _ _ _); [|reflexivity]).
  all: (destruct (time.IsZero (siws.IssuedAt m));
    [|destruct (time.Before now (siws.IssuedAt m)); [reflexivity|];
      destruct (siws.CheckTime params);
      [destruct (0 <? siws.TimeDuration params)%Z;
       [destruct (time.After now _); [reflexivity|]|]|]]).
  all: (destruct (time.IsZero (siws.NotBefore m));
    [|destruct (time.Before now (siws.NotBefore m)); [reflexivity|]]).
  all: (destruct (time.IsZero (siws.ExpirationTime m));
    [reflexivity|destruct (time.After now (siws.ExpirationTime m)); reflexivity]).
Qed.

End VerifyFacts.

(** ** The verifier *)

Example base58_sample_address :
  length (base58.Decode "2EZEiBdw47VHT6SpZSW9VnuSvBe7DxuYHBTxj19gxvv8") = 32%nat.
Proof. vm_compute. reflexivity. Qed.

(** C3. For every input the verifier evaluates the sixteen preconditions of
    section 4.1 in the stated order and stops at the first that fails: its
    result is that check's error kind, and it is success exactly when all
    sixteen checks pass. *)
Theorem VerifySIWS_checks_in_order `{Externals} (inp : VerifyInput) :
  length spec_checks = 16%nat /\
  VerifySIWS (rawMessageBytes inp) (signatureBytes inp) (parsedMessage inp)
    (verifyParams inp) (currentTime inp) = first_failure spec_checks inp /\
  (verify inp = None <-> Forall (fun c => c inp = None) spec_checks) /\
  (forall e, verify inp = Some e <->
     exists i c, spec_checks !! i = Some c /\ c inp = Some e /\
       forall j c', (j < i)%nat -> spec_checks !! j = Some c' -> c' inp = None).
Proof.
  split; [reflexivity|]. split; [apply verify_first_failure|].
  rewrite verify_first_failure. split.
  - apply first_failure_none.
  - intros e. apply first_failure_some.
Qed.

Lemma first_failure_app (cs1 cs2 : list Check) (inp : VerifyInput) :
  first_failure (cs1 ++ cs2) inp =
  match first_failure cs1 inp with Some e => Some e | None => first_failure cs2 inp end.
Proof.
  induction cs1 as [|c cs1 IH]; simpl; [reflexivity|].
  destruct (c inp); [reflexivity | exact IH].
Qed.

Lemma str_empty_false (s : string) : s <> "" -> str_empty s = false.
Proof. destruct s; [congruence | reflexivity]. Qed.

Lemma forallb_refused {A} (f : A -> bool) (l : list A) (x : A) :
  In x l -> f x = false -> forallb f l = false.
Proof.
  intros Hin Hx. destruct (forallb f l) eqn:Hall; [|reflexivity].
  rewrite forallb_forall in Hall. rewrite (Hall x Hin) in Hx. discriminate.
Qed.

Section UriFacts.
Context `{Externals}.

Lemma uri_check_fails (inp : VerifyInput) (m : siws.SIWSMessage) :
  parsedMessage inp = Some m -> siws.URI m <> "" -> url_Parse (siws.URI m) = false ->
  forall c, spec_checks !! 10%nat = Some c -> c inp = Some siws.ErrInvalidURI.
Proof.
  intros Hm Hne Hbad c [= <-]. unfold on_message, require. rewrite Hm.
  rewrite (str_empty_false _ Hne), Hbad. reflexivity.
Qed.

Lemma resources_check_fails (inp : VerifyInput) (m : siws.SIWSMessage) (r : string) :
  parsedMessage inp = Some m -> In r (siws.Resources m) -> url_Parse r = false ->
  forall c, spec_checks !! 11%nat = Some c -> c inp = Some siws.ErrInvalidResourceURI.
Proof.
  intros Hm Hin Hbad c [= <-]. unfold on_message, require. rewrite Hm.
  rewrite (forallb_refused _ _ _ Hin Hbad). reflexivity.
Qed.

End UriFacts.

(** C9, as amended.  The verifier is fail-fast, so an invalid URI is
    reported as [ErrInvalidURI] when the ten checks before the URI check
    pass, and an invalid resource entry as [ErrInvalidResourceURI] when the
    eleven checks before the resources check pass; whatever the earlier
    checks say, a message whose URI is non-empty and invalid, or one of
    whose resources is invalid, never passes verification. *)
Theorem VerifySIWS_invalid_uri_rejected `{Externals} (inp : VerifyInput)
    (m : siws.SIWSMessage) :
  parsedMessage inp = Some m ->
  (first_failure (take 10 spec_checks) inp = None ->
   siws.URI m <> "" -> url_Parse (siws.URI m) = false ->
   verify inp = Some siws.ErrInvalidURI) /\
  (first_failure (take 11 spec_checks) inp = None ->
   (exists r, In r (siws.Resources m) /\ url_Parse r = false) ->
   verify inp = Some siws.ErrInvalidResourceURI) /\
  ((siws.URI m <> "" /\ url_Parse (siws.URI m) = false) \/
   (exists r, In r (siws.Resources m) /\ url_Parse r = false) ->
   verify inp <> None).
Proof.
  intros Hm. rewrite verify_first_failure. repeat split.
  - intros Hpre Hne Hbad.
    rewrite <- (take_drop 10 spec_checks), first_failure_app, Hpre.
    cbn [drop spec_checks first_failure].
    rewrite (uri_check_fails inp m Hm Hne Hbad _ eq_refl). reflexivity.
  - intros Hpre (r & Hin & Hbad).
    rewrite <- (take_drop 11 spec_checks), first_failure_app, Hpre.
    cbn [drop spec_checks first_failure].
    rewrite (resources_check_fails inp m r Hm Hin Hbad _ eq_refl). reflexivity.
  - intros Hbad Hnone. apply first_failure_none in Hnone.
    rewrite Forall_lookup in Hnone.
    destruct Hbad as [[Hne Hbad] | (r & Hin & Hbad)].
    + specialize (Hnone 10%nat _ eq_refl).
      rewrite (uri_check_fails inp m Hm Hne Hbad _ eq_refl) in Hnone. discriminate.
    + specialize (Hnone 11%nat _ eq_refl).
      rewrite (resources_check_fails inp m r Hm Hin Hbad _ eq_refl) in Hnone. discriminate.
Qed.

(** An input whose first ten checks pass and whose URI is refused. *)
Lemma VerifySIWS_invalid_uri_witness :
  verify (sample_input "x" (sample_message bad_uri [])) = Some siws.ErrInvalidURI.
Proof.
  apply (proj1 (VerifySIWS_invalid_uri_rejected
                  (sample_input "x" (sample_message bad_uri []))
                  (sample_message bad_uri []) eq_refl)).
  - vm_compute. reflexivity.
  - discriminate.
  - vm_compute. reflexivity.
Defined.

(** C9 as stated fails: with an empty raw message an invalid URI is reported
    as [ErrEmptyRawMessage], and a message with an invalid URI and an invalid
    resource entry is reported as [ErrInvalidURI], not as
    [ErrInvalidResourceURI]. *)
Lemma invalid_uri_reported_as_earlier_error :
  (siws.URI (sample_message bad_uri []) <> "" /\ url_Parse bad_uri = false /\
   VerifySIWS "" [Byte.x00] (Some (sample_message bad_uri [])) sample_params 0%Z
   = Some siws.ErrEmptyRawMessage) /\
  (In bad_uri [bad_uri] /\ url_Parse bad_uri = false /\
   VerifySIWS "x" [Byte.x00] (Some (sample_message bad_uri [bad_uri])) sample_params 0%Z
   = Some siws.ErrInvalidURI).
Proof.
  repeat split; try (vm_compute; reflexivity); try discriminate.
  left. reflexivity.
Qed.

(** X1. The signature check of [VerifySIWS]: once the twelve checks before it
    pass, the decoded public key has 32 bytes and the verifier reports
    [ErrSignatureVerification] exactly when [ed25519.Verify] refuses that
    key, the bytes of the raw message and the signature. *)
Theorem VerifySIWS_signature_check `{Externals} (inp : VerifyInput) (m : siws.SIWSMessage) :
  parsedMessage inp = Some m ->
  first_failure (take 12 spec_checks) inp = None ->
  length (base58_Decode (siws.Address m)) = 32%nat /\
  (verify inp = Some siws.ErrSignatureVerification <->
   ed25519_Verify (base58_Decode (siws.Address m)) (bytes_of (rawMessageBytes inp))
     (signatureBytes inp) = false).
Proof.
  intros Hm Hpre. split.
  - apply first_failure_none in Hpre. rewrite Forall_lookup in Hpre.
    specialize (Hpre 6%nat _ eq_refl). unfold on_message, require in Hpre.
    rewrite Hm in Hpre.
    destruct (length (base58_Decode (siws.Address m)) =? 32)%nat eqn:Hlen; [|discriminate].
    apply Nat.eqb_eq in Hlen. exact Hlen.
  - rewrite verify_first_failure, <- (take_drop 12 spec_checks), first_failure_app, Hpre.
    cbn [drop spec_checks first_failure]. unfold on_message, require. rewrite Hm.
    destruct (ed25519_Verify _ _ _).
    + split; [|discriminate].
      repeat match goal with
             | |- context [if ?c then _ else _] => destruct c
             end; discriminate.
    + split; reflexivity.
Qed.

(** The sample message with the raw text "hello" and a one-byte signature. *)
Lemma VerifySIWS_signature_check_witness :
  length (base58.Decode "2EZEiBdw47VHT6SpZSW9VnuSvBe7DxuYHBTxj19gxvv8") = 32%nat /\
  (@verify stand_ins (sample_input "hello" (sample_message "" []))
   = Some siws.ErrSignatureVerification <->
   @ed25519_Verify stand_ins (base58.Decode "2EZEiBdw47VHT6SpZSW9VnuSvBe7DxuYHBTxj19gxvv8")
     (bytes_of "hello") [Byte.x00] = false).
Proof.
  apply (@VerifySIWS_signature_check stand_ins (sample_input "hello" (sample_message "" []))
           (sample_message "" [])); reflexivity.
Defined.

(** ** The envelope: key rotation *)

(** C7. [ShouldReEncrypt] is true if and only if the envelope's stored key
    id differs from the current key id, and false otherwise. *)
Theorem ShouldReEncrypt_iff (es : EncryptedString) (currentKeyID : string) :
  (ShouldReEncrypt es currentKeyID = true <-> KeyID es <> currentKeyID) /\
  (ShouldReEncrypt es currentKeyID = false <-> KeyID es = currentKeyID).
Proof.
  unfold ShouldReEncrypt.
  destruct (String.eqb_spec (KeyID es) currentKeyID) as [Heq|Hne]; simpl;
    intuition congruence.
Qed.

(** ** The nonce store: exactly-once consumption *)

Lemma selects_issued (db : Table) (i : nat) (row : StoredNonce.t) :
  issued db i row ->
  selects (StoredNonce.Nonce row) (StoredNonce.Address row) row = true.
Proof.
  intros (_ & Hunused & _). unfold selects.
  rewrite !String.eqb_refl, Hunused. reflexivity.
Qed.

Lemma QueryRow_issued (db : Table) (i : nat) (row : StoredNonce.t) :
  issued db i row ->
  QueryRow db (StoredNonce.Nonce row) (StoredNonce.Address row) = Some row.
Proof.
  intros Hiss. pose proof (selects_issued _ _ _ Hiss) as Hsel.
  destruct Hiss as (Hi & Hunused & Huniq). unfold QueryRow.
  destruct (List.find _ db) as [r|] eqn:Hfind.
  - apply List.find_some in Hfind as [Hin Hr].
    apply list_elem_of_In, list_elem_of_lookup in Hin as [j Hj].
    rewrite (Huniq j r Hj Hr) in Hj. congruence.
  - rewrite (List.find_none _ _ Hfind row) in Hsel; [discriminate|].
    apply list_elem_of_In, list_elem_of_lookup. eauto.
Qed.

Lemma QueryRow_none (db : Table) (nonce address : string) :
  (forall r, In r db -> selects nonce address r = false) ->
  QueryRow db nonce address = None.
Proof.
  intros Hall. unfold QueryRow. destruct (List.find _ db) as [r|] eqn:Hfind; [|reflexivity].
  apply List.find_some in Hfind as [Hin Hr]. rewrite (Hall r Hin) in Hr. discriminate.
Qed.

(** Once the issued row is marked, the query selects no row. *)
Lemma ExecUpdate_issued (db : Table) (i : nat) (row : StoredNonce.t) :
  issued db i row ->
  forall r, In r (ExecUpdate db (StoredNonce.Address row) (StoredNonce.ID row)) ->
    selects (StoredNonce.Nonce row) (StoredNonce.Address row) r = false.
Proof.
  intros (Hi & Hunused & Huniq) r Hin. unfold ExecUpdate in Hin.
  apply in_map_iff in Hin as (r0 & <- & Hin0).
  destruct (StoredNonce.ID r0 =? StoredNonce.ID row)%N eqn:Hid.
  - unfold selects; simpl. rewrite andb_false_r. reflexivity.
  - destruct (selects _ _ r0) eqn:Hsel; [|reflexivity].
    apply list_elem_of_In, list_elem_of_lookup in Hin0 as [j Hj].
    rewrite (Huniq j r0 Hj Hsel) in Hj.
    assert (r0 = row) as -> by congruence.
    rewrite N.eqb_refl in Hid. discriminate.
Qed.

Lemma ExecUpdate_used_at (db : Table) (i : nat) (row : StoredNonce.t) (address : string) :
  db !! i = Some row ->
  used_at (ExecUpdate db address (StoredNonce.ID row)) i = Some true.
Proof.
  intros Hi. unfold used_at, ExecUpdate.
  rewrite list_lookup_fmap, Hi. simpl. rewrite N.eqb_refl. reflexivity.
Qed.

Lemma consume_issued (db : Table) (i : nat) (row : StoredNonce.t) (now : Time) :
  issued db i row ->
  time.After now (StoredNonce.ExpiresAt row) = false ->
  VerifyAndConsumeNonce db (StoredNonce.Nonce row) (StoredNonce.Address row) now =
  (ExecUpdate db (StoredNonce.Address row) (StoredNonce.ID row), None).
Proof.
  intros Hiss Hfresh. unfold VerifyAndConsumeNonce, Transaction.
  rewrite (QueryRow_issued _ _ _ Hiss), Hfresh. reflexivity.
Qed.

Lemma consume_no_row (db : Table) (nonce address : string) (now : Time) :
  (forall r, In r db -> selects nonce address r = false) ->
  VerifyAndConsumeNonce db nonce address now = (db, Some ErrNoRows).
Proof.
  intros Hall. unfold VerifyAndConsumeNonce, Transaction.
  rewrite (QueryRow_none _ _ _ Hall). reflexivity.
Qed.

(** The store always finds an order to run the pending callers in. *)
Lemma race_total (nonce address : string) (callers : list Time) (db : Table) :
  exists outs, race nonce address db callers outs.
Proof.
  revert db. induction callers as [|now rest IH]; intros db.
  - exists []. constructor.
  - destruct (VerifyAndConsumeNonce db nonce address now) as [db' err] eqn:Hcall.
    destruct (IH db') as [outs Houts].
    exists ((now, err, db') :: outs).
    apply (race_next nonce address db [] now rest db' err outs Hcall Houts).
Qed.

(** With no selectable row every caller is returned [sql.ErrNoRows] and the
    table stays as it is. *)
Lemma race_no_row (nonce address : string) (db : Table) (callers : list Time)
    (outs : list Outcome) :
  (forall r, In r db -> selects nonce address r = false) ->
  race nonce address db callers outs ->
  length outs = length callers /\
  Forall (fun o => o.1.2 = Some ErrNoRows /\ o.2 = db) outs.
Proof.
  intros Hall Hrace. induction Hrace as [db|db before now after db' err outs Hcall Hrace IH].
  - split; [reflexivity | constructor].
  - rewrite (consume_no_row _ _ _ now Hall) in Hcall. injection Hcall as <- <-.
    destruct (IH Hall) as [Hlen Hrest]. split.
    + simpl. rewrite Hlen, !length_app. simpl. lia.
    + constructor; [split; reflexivity | exact Hrest].
Qed.

(** X2. A row whose [used] flag is set keeps it set through every later
    call of [VerifyAndConsumeNonce], whatever nonce and address the call
    is for. *)
Theorem used_never_reset (db : Table) (nonce address : string) (now : Time) (i : nat) :
  used_at db i = Some true ->
  used_at (VerifyAndConsumeNonce db nonce address now).1 i = Some true.
Proof.
  intros Hused. unfold VerifyAndConsumeNonce, Transaction.
  destruct (QueryRow db nonce address) as [r|]; [|exact Hused].
  destruct (time.After now _); [exact Hused|]. simpl.
  unfold used_at, ExecUpdate in *. rewrite list_lookup_fmap.
  destruct (db !! i) as [r0|]; [|discriminate]. simpl in *.
  destruct (StoredNonce.ID r0 =? StoredNonce.ID r)%N; [reflexivity | exact Hused].
Qed.

(** The first row of the sample table, used before, while the second is
    consumed. *)
Lemma used_never_reset_witness :
  used_at (VerifyAndConsumeNonce sample_table "abcdefgh"
             "2EZEiBdw47VHT6SpZSW9VnuSvBe7DxuYHBTxj19gxvv8" 1500%Z).1 0 = Some true.
Proof.
  apply (used_never_reset sample_table "abcdefgh"
           "2EZEiBdw47VHT6SpZSW9VnuSvBe7DxuYHBTxj19gxvv8" 1500%Z 0).
  reflexivity.
Defined.

(** C1. N callers race to consume one issued nonce with its address, each
    before the nonce expires.  Whatever order the store runs their
    transactions in, every caller gets an answer, exactly one is returned
    success and every other is returned [sql.ErrNoRows] (not found or
    already used); the row's [used] flag, false before the race, is true
    after the first transaction and after every later one. *)
Theorem consume_exactly_once (db : Table) (i : nat) (row : StoredNonce.t)
    (callers : list Time) :
  issued db i row ->
  callers <> [] ->
  Forall (fun now => time.After now (StoredNonce.ExpiresAt row) = false) callers ->
  used_at db i = Some false /\
  (exists outs,
     race (StoredNonce.Nonce row) (StoredNonce.Address row) db callers outs) /\
  forall outs,
    race (StoredNonce.Nonce row) (StoredNonce.Address row) db callers outs ->
    length outs = length callers /\
    length (List.filter succeeded outs) = 1%nat /\
    Forall (fun o => o.1.2 = None \/ o.1.2 = Some ErrNoRows) outs /\
    Forall (fun o => used_at o.2 i = Some true) outs.
Proof.
  intros Hiss Hne Hfresh. split; [|split].
  - destruct Hiss as (Hi & Hunused & _). unfold used_at. rewrite Hi. simpl. congruence.
  - apply race_total.
  - intros outs Hrace.
    inversion Hrace as [|db0 before now after db' err outs' Hcall Hrest Hcallers];
      subst; [congruence|].
    assert (time.After now (StoredNonce.ExpiresAt row) = false) as Hnow.
    { rewrite Forall_forall in Hfresh. apply Hfresh.
      apply list_elem_of_In, in_or_app. right. left. reflexivity. }
    rewrite (consume_issued _ _ _ _ Hiss Hnow) in Hcall. injection Hcall as <- <-.
    destruct (race_no_row _ _ _ _ _ (ExecUpdate_issued _ _ _ Hiss) Hrest) as [Hlen Hall].
    pose proof (ExecUpdate_used_at db i row (StoredNonce.Address row)
                  (proj1 Hiss)) as Hused.
    repeat split.
    + simpl. rewrite Hlen, !length_app. simpl. lia.
    + simpl. f_equal. clear -Hall. induction Hall as [|[[t e] d] outs [He _] _ IH]; [reflexivity|].
      simpl in *. subst e. exact IH.
    + constructor; [left; reflexivity|].
      eapply Forall_impl; [exact Hall|]. intros o [He _]. right. exact He.
    + constructor; [exact Hused|].
      eapply Forall_impl; [exact Hall|]. intros o [_ ->]. exact Hused.
Qed.

Lemma sample_row_issued : issued sample_table 1 sample_row.
Proof.
  split; [reflexivity|]. split; [reflexivity|].
  intros [|[|j]] r Hj Hsel; [|reflexivity|destruct j; discriminate].
  injection Hj as <-. vm_compute in Hsel. discriminate.
Defined.

(** Three callers race for the sample nonce before it expires. *)
Lemma consume_exactly_once_witness :
  used_at sample_table 1 = Some false /\
  (exists outs,
     race (StoredNonce.Nonce sample_row) (StoredNonce.Address sample_row)
       sample_table [1500; 1200; 2000]%Z outs) /\
  forall outs,
    race (StoredNonce.Nonce sample_row) (StoredNonce.Address sample_row)
      sample_table [1500; 1200; 2000]%Z outs ->
    length outs = 3%nat /\
    length (List.filter succeeded outs) = 1%nat /\
    Forall (fun o => o.1.2 = None \/ o.1.2 = Some ErrNoRows) outs /\
    Forall (fun o => used_at o.2 1 = Some true) outs.
Proof.
  apply (consume_exactly_once sample_table 1 sample_row [1500; 1200; 2000]%Z).
  - exact sample_row_issued.
  - discriminate.
  - repeat constructor.
Defined.

(** C6. When the row that the lookup for [(nonce, address)] finds has an
    [ExpiresAt] that has passed, consuming fails with the expiration error
    and the table is left as it was: the row is still there and its [used]
    field is still false. *)
Theorem expired_nonce_not_consumed (db : Table) (nonce address : string)
    (now : Time) (row : StoredNonce.t) :
  QueryRow db nonce address = Some row ->
  time.After now (StoredNonce.ExpiresAt row) = true ->
  VerifyAndConsumeNonce db nonce address now = (db, Some ErrNonceExpired) /\
  In row (VerifyAndConsumeNonce db nonce address now).1 /\
  StoredNonce.Used row = false.
Proof.
  intros Hrow Hexpired.
  assert (VerifyAndConsumeNonce db nonce address now = (db, Some ErrNonceExpired)) as Hcall.
  { unfold VerifyAndConsumeNonce, Transaction. rewrite Hrow, Hexpired. reflexivity. }
  rewrite Hcall. split; [reflexivity|].
  apply List.find_some in Hrow as [Hin Hsel]. split; [exact Hin|].
  unfold selects in Hsel.
  destruct (StoredNonce.Used row); [|reflexivity].
  rewrite andb_false_r in Hsel. discriminate.
Qed.

(** The sample nonce, consumed one nanosecond after it expired. *)
Lemma expired_nonce_not_consumed_witness :
  VerifyAndConsumeNonce sample_table "abcdefgh"
    "2EZEiBdw47VHT6SpZSW9VnuSvBe7DxuYHBTxj19gxvv8" 2001%Z
  = (sample_table, Some ErrNonceExpired) /\
  In sample_row (VerifyAndConsumeNonce sample_table "abcdefgh"
    "2EZEiBdw47VHT6SpZSW9VnuSvBe7DxuYHBTxj19gxvv8" 2001%Z).1 /\
  StoredNonce.Used sample_row = false.
Proof.
  apply (expired_nonce_not_consumed sample_table "abcdefgh"
           "2EZEiBdw47VHT6SpZSW9VnuSvBe7DxuYHBTxj19gxvv8" 2001%Z sample_row);
    vm_compute; reflexivity.
Defined.

(** X3. A nonce is scoped to its address: when no unused row of the nonce
    carries the address of the call, the call is returned [sql.ErrNoRows]
    and the table is left as it was. *)
Theorem consume_other_address (db : Table) (nonce address : string) (now : Time) :
  (forall r, In r db -> StoredNonce.Nonce r = nonce -> StoredNonce.Used r = false ->
             StoredNonce.Address r <> address) ->
  VerifyAndConsumeNonce db nonce address now = (db, Some ErrNoRows).
Proof.
  intros Hother. apply consume_no_row. intros r Hin. unfold selects.
  destruct (String.eqb_spec (StoredNonce.Nonce r) nonce) as [Hn|]; [|reflexivity].
  destruct (StoredNonce.Used r) eqn:Hu; [reflexivity|].
  destruct (String.eqb_spec (StoredNonce.Address r) address) as [Ha|]; [|reflexivity].
  destruct (Hother r Hin Hn Hu Ha).
Qed.

(** The sample nonce, asked for under another address. *)
Lemma consume_other_address_witness :
  VerifyAndConsumeNonce sample_table "abcdefgh" "11111111111111111111111111111111" 1500%Z
  = (sample_table, Some ErrNoRows).
Proof.
  apply (consume_other_address sample_table "abcdefgh" "11111111111111111111111111111111" 1500%Z).
  intros r [<-|[<-|[]]] _ Hu; [discriminate Hu | discriminate].
Defined.

(** X4. No replay: consuming an issued nonce before it expires succeeds and
    sets its [used] flag, and every later call for the same nonce and
    address is returned [sql.ErrNoRows] and changes nothing. *)
Theorem consume_replay (db : Table) (i : nat) (row : StoredNonce.t) (now later : Time) :
  issued db i row ->
  time.After now (StoredNonce.ExpiresAt row) = false ->
  exists db',
    VerifyAndConsumeNonce db (StoredNonce.Nonce row) (StoredNonce.Address row) now = (db', None) /\
    used_at db' i = Some true /\
    VerifyAndConsumeNonce db' (StoredNonce.Nonce row) (StoredNonce.Address row) later
    = (db', Some ErrNoRows).
Proof.
  intros Hiss Hfresh.
  exists (ExecUpdate db (StoredNonce.Address row) (StoredNonce.ID row)).
  split; [apply (consume_issued db i row now Hiss Hfresh)|]. split.
  - apply ExecUpdate_used_at. exact (proj1 Hiss).
  - apply consume_no_row, (ExecUpdate_issued db i row Hiss).
Qed.

(** The sample nonce, consumed and presented again. *)
Lemma consume_replay_witness :
  exists db',
    VerifyAndConsumeNonce sample_table "abcdefgh"
      "2EZEiBdw47VHT6SpZSW9VnuSvBe7DxuYHBTxj19gxvv8" 1500%Z = (db', None) /\
    used_at db' 1 = Some true /\
    VerifyAndConsumeNonce db' "abcdefgh"
      "2EZEiBdw47VHT6SpZSW9VnuSvBe7DxuYHBTxj19gxvv8" 1600%Z = (db', Some ErrNoRows).
Proof.
  apply (consume_replay sample_table 1 sample_row 1500%Z 1600%Z).
  - exact sample_row_issued.
  - reflexivity.
Defined.

(** ** Key derivation *)

Lemma sha256_Sum256_length (msg : list byte) :
  length (sha256.Sum256 msg) = 32%nat.
Proof.
  unfold sha256.Sum256. destruct (fold_left sha256.compress _ sha256.init).
  reflexivity.
Qed.

Lemma hmac_Sum_length (key msg : list byte) : length (hmac.Sum key msg) = 32%nat.
Proof. unfold hmac.Sum. apply sha256_Sum256_length. Qed.

(** Reading 32 bytes from a fresh HKDF reader yields the first output
    block, T(1) = HMAC(PRK, info || 0x01). *)
Lemma hkdf_ReadFull_32 (r : hkdf.Reader) :
  hkdf.ReadFull r 32 = Some (hmac.Sum (hkdf.prk r) (hkdf.info r ++ [byte_of_z 1])).
Proof.
  unfold hkdf.ReadFull, sha256.Size.
  change (255 * 32 <? 32)%nat with false.
  change (Nat.div (32 + 32 - 1) 32) with 1%nat.
  cbn [hkdf.blocks]. rewrite app_nil_r, app_nil_l.
  rewrite take_ge; [reflexivity|]. rewrite hmac_Sum_length. lia.
Qed.

(** A base key that decodes to 32 bytes yields the first output block. *)
Lemma deriveSymmetricKey_ok (id keyID keyBase64URL : string) (hkdfKey : list byte) :
  base64.DecodeString base64.RawURLEncoding keyBase64URL = Some hkdfKey ->
  length hkdfKey = 32%nat ->
  deriveSymmetricKey id keyID keyBase64URL
  = Ok (hmac.Sum (hkdf.Extract hkdfKey []) (bytes_of id ++ [byte_of_z 1])).
Proof.
  intros Hdec Hlen. unfold deriveSymmetricKey. change (256 / 8)%nat with 32%nat.
  rewrite Hdec, Hlen, hkdf_ReadFull_32. cbn [Nat.eqb negb must hkdf.New hkdf.prk hkdf.info].
  reflexivity.
Qed.

(** C5. Key derivation fails with an error exactly when the base key
    material is not valid URL-safe base64 (the decoder refuses it) or does
    not decode to exactly 256 bits, and it never panics; when it succeeds it
    outputs exactly 256 bits, the first output block of HKDF (extract, then
    expand) over SHA-256, keyed by the decoded base material, with no salt
    and with the record identifier as the info parameter. *)
Theorem deriveSymmetricKey_spec (id keyID keyBase64URL : string) :
  ((exists e, deriveSymmetricKey id keyID keyBase64URL = Err e) <->
   (base64.DecodeString base64.RawURLEncoding keyBase64URL = None \/
    exists bs, base64.DecodeString base64.RawURLEncoding keyBase64URL = Some bs /\
               length bs <> 32%nat)) /\
  deriveSymmetricKey id keyID keyBase64URL <> Panic /\
  (forall key, deriveSymmetricKey id keyID keyBase64URL = Ok key ->
     length key = 32%nat /\
     exists hkdfKey,
       base64.DecodeString base64.RawURLEncoding keyBase64URL = Some hkdfKey /\
       length hkdfKey = 32%nat /\
       Some key = hkdf.ReadFull (hkdf.New hkdfKey [] (bytes_of id)) 32 /\
       key = hmac.Sum (hkdf.Extract hkdfKey []) (bytes_of id ++ [byte_of_z 1])).
Proof.
  unfold deriveSymmetricKey. change (256 / 8)%nat with 32%nat.
  destruct (base64.DecodeString base64.RawURLEncoding keyBase64URL) as [hkdfKey|].
  - rewrite hkdf_ReadFull_32. cbn [must hkdf.New hkdf.prk hkdf.info].
    destruct (Nat.eqb_spec (length hkdfKey) 32) as [Hlen|Hlen]; cbn [negb].
    + split; [|split].
      * split; [intros [e He]; discriminate|].
        intros [Hnone | (bs & [= <-] & Hbs)]; [discriminate | contradiction].
      * discriminate.
      * intros key [= <-]. split; [apply hmac_Sum_length|].
        exists hkdfKey. repeat split; try assumption; try reflexivity.
        rewrite hkdf_ReadFull_32. cbn [hkdf.New hkdf.prk hkdf.info]. reflexivity.
    + split; [|split].
      * split; [|eauto]. intros _. right. exists hkdfKey. split; [reflexivity | exact Hlen].
      * discriminate.
      * discriminate.
  - split; [|split].
    + split; [|eauto]. intros _. left. reflexivity.
    + discriminate.
    + discriminate.
Qed.

(** Derivation on concrete input: a key of 32 zero bytes, and keys the
    decoder or the length check refuses. *)
Example deriveSymmetricKey_sample :
  deriveSymmetricKey "record-1" "k1" "AAAAAAAAAAAAAAAAAAAAAAAAAAAAAAAAAAAAAAAAAAA"
  = Ok (hmac.Sum (hmac.Sum (repeat Byte.x00 32) (repeat Byte.x00 32))
          (bytes_of "record-1" ++ [byte_of_z 1])).
Proof. vm_compute. reflexivity. Qed.

Example deriveSymmetricKey_refused :
  deriveSymmetricKey "record-1" "k1" "not base64!" = Err CorruptInputError /\
  deriveSymmetricKey "record-1" "k1" "AAAA" = Err (ErrKeyNot256Bits "k1") /\
  deriveSymmetricKey "record-1" "k1" "" = Err (ErrKeyNot256Bits "k1").
Proof. vm_compute. repeat split. Qed.

(** ** The envelope: encryption and decryption *)

Lemma z_of_byte_range (b : byte) : (0 <= z_of_byte b < 256)%Z.
Proof. unfold z_of_byte. pose proof (Byte.to_N_bounded b). lia. Qed.

Lemma byte_of_z_of_byte (b : byte) : byte_of_z (z_of_byte b) = b.
Proof.
  unfold byte_of_z. rewrite Z.mod_small by apply z_of_byte_range.
  unfold z_of_byte. rewrite N2Z.id, Byte.of_to_N. reflexivity.
Qed.

Lemma z_of_byte_of_z (z : Z) : (0 <= z < 256)%Z -> z_of_byte (byte_of_z z) = z.
Proof.
  intros Hz. unfold byte_of_z, z_of_byte. rewrite Z.mod_small by exact Hz.
  destruct (Byte.of_N (Z.to_N z)) as [b|] eqn:Hb.
  - apply Byte.to_of_N in Hb. simpl. rewrite Hb. lia.
  - apply Byte.of_N_None_iff in Hb. lia.
Qed.

Lemma lxor_byte_range (a b : Z) :
  (0 <= a < 256)%Z -> (0 <= b < 256)%Z -> (0 <= Z.lxor a b < 256)%Z.
Proof.
  intros Ha Hb. split; [apply Z.lxor_nonneg; lia|].
  destruct (Z.eq_dec (Z.lxor a b) 0%Z) as [->|Hnz]; [lia|].
  assert (0 < Z.lxor a b)%Z as Hpos by (pose proof (proj2 (Z.lxor_nonneg a b)); lia).
  apply (Z.log2_lt_pow2 _ 8 Hpos).
  pose proof (Z.log2_lxor a b ltac:(lia) ltac:(lia)) as Hlog.
  assert (forall x, 0 <= x < 256 -> Z.log2 x < 8)%Z as Hsmall.
  { intros x Hx. destruct (Z.eq_dec x 0%Z) as [->|]; [reflexivity|].
    apply Z.log2_lt_pow2; lia. }
  pose proof (Hsmall a Ha). pose proof (Hsmall b Hb). lia.
Qed.

Lemma byte_xor_twice (a b : byte) : byte_xor (byte_xor a b) b = a.
Proof.
  unfold byte_xor.
  rewrite z_of_byte_of_z by (apply lxor_byte_range; apply z_of_byte_range).
  rewrite Z.lxor_assoc, Z.lxor_nilpotent, Z.lxor_0_r. apply byte_of_z_of_byte.
Qed.

Lemma xor_stream_twice (data ks : list byte) :
  (length data <= length ks)%nat ->
  zip_with byte_xor (zip_with byte_xor data ks) ks = data /\
  length (zip_with byte_xor data ks) = length data.
Proof.
  revert ks. induction data as [|d data IH]; intros [|k ks] Hlen; simpl in *;
    try (split; reflexivity); try lia.
  destruct (IH ks ltac:(lia)) as [Heq Hl]. rewrite byte_xor_twice, Heq, Hl.
  split; reflexivity.
Qed.

Lemma aes_add_round_key_length (st rk : list Z) :
  length (aes.add_round_key st rk) = 16%nat.
Proof. unfold aes.add_round_key. rewrite length_map, length_seq. reflexivity. Qed.

Lemma aes_rounds_length (rks : list (list Z)) (st : list Z) :
  length st = 16%nat -> length (aes.rounds rks st) = 16%nat.
Proof.
  revert st. induction rks as [|rk rest IH]; intros st Hst; [exact Hst|].
  destruct rest as [|rk2 rest].
  - apply aes_add_round_key_length.
  - change (aes.rounds (rk :: rk2 :: rest) st)
      with (aes.rounds (rk2 :: rest)
              (aes.add_round_key (aes.mix_columns (aes.shift_rows (aes.sub_bytes st))) rk)).
    apply IH, aes_add_round_key_length.
Qed.

Lemma aes_Encrypt_length (b : aes.Block) (src : list byte) :
  length (aes.Encrypt b src) = 16%nat.
Proof.
  unfold aes.Encrypt. rewrite length_map.
  apply aes_rounds_length, aes_add_round_key_length.
Qed.

Lemma flat_map_length_const {A B} (f : A -> list B) (k : nat) (l : list A) :
  (forall x, length (f x) = k) -> length (flat_map f l) = (k * length l)%nat.
Proof.
  intros Hf. induction l as [|x l IH]; simpl; [lia|].
  rewrite length_app, Hf, IH. lia.
Qed.

Lemma gcm_keystream_length (b : aes.Block) (nonce : list byte) (n : nat) :
  (n <= length (gcm.keystream b nonce n))%nat.
Proof.
  unfold gcm.keystream.
  rewrite (flat_map_length_const _ 16) by (intros x; apply aes_Encrypt_length).
  rewrite length_seq.
  pose proof (Nat.div_mod (n + 15) 16 ltac:(lia)) as Hdiv.
  pose proof (Nat.mod_upper_bound (n + 15) 16 ltac:(lia)). lia.
Qed.

Lemma gcm_xor_stream_twice (b : aes.Block) (nonce data : list byte) :
  gcm.xor_stream b nonce (gcm.xor_stream b nonce data) = data.
Proof.
  unfold gcm.xor_stream.
  destruct (xor_stream_twice data _ (gcm_keystream_length b nonce (length data)))
    as [Heq Hlen].
  rewrite Hlen. exact Heq.
Qed.

Lemma gcm_tag_length (b : aes.Block) (nonce data ct : list byte) :
  length (gcm.tag b nonce data ct) = 16%nat.
Proof.
  unfold gcm.tag, gcm.block_bytes. rewrite length_map, length_seq. reflexivity.
Qed.

(** Opening what was sealed, with the same block, nonce and additional
    data, gives the plaintext back. *)
Lemma gcm_Open_Seal (b : aes.Block) (nonce plaintext data : list byte) :
  length nonce = 12%nat ->
  exists sealed,
    gcm.Seal b nonce plaintext data = gcm.Value sealed /\
    gcm.Open b nonce sealed data = gcm.Value plaintext.
Proof.
  intros Hnonce. unfold gcm.Seal, gcm.Open, gcm.NonceSize, gcm.TagSize.
  rewrite Hnonce. cbn [Nat.eqb negb].
  set (ct := gcm.xor_stream b nonce plaintext).
  exists (ct ++ gcm.tag b nonce data ct). split; [reflexivity|].
  rewrite length_app, gcm_tag_length.
  destruct (Nat.ltb_spec (length ct + 16) 16) as [Hlt|_]; [lia|].
  replace (length ct + 16 - 16)%nat with (length ct) by lia.
  rewrite take_app_length, drop_app_length.
  rewrite bool_decide_eq_true_2 by reflexivity.
  unfold ct. rewrite gcm_xor_stream_twice. reflexivity.
Qed.

Lemma rand_ReadFull_length (r : Rand) (n : nat) : length (rand_ReadFull r n) = n.
Proof. unfold rand_ReadFull. rewrite length_map, length_seq. reflexivity. Qed.

(** C4. For every record identifier, plaintext (the empty one included),
    key id and valid 256-bit base key, and whatever nonce the random source
    delivers, encrypting succeeds, and decrypting the envelope with the same
    record identifier and a key map that maps the key id to the same base
    key returns exactly the plaintext. *)
Theorem Decrypt_NewEncryptedString (rand_Reader : Rand) (id : string)
    (data : list byte) (keyID keyBase64URL : string) (hkdfKey : list byte)
    (decryptionKeys : gmap string string) :
  base64.DecodeString base64.RawURLEncoding keyBase64URL = Some hkdfKey ->
  length hkdfKey = 32%nat ->
  decryptionKeys !! keyID = Some keyBase64URL ->
  exists es,
    NewEncryptedString rand_Reader id data keyID keyBase64URL = Ok es /\
    Decrypt es id decryptionKeys = Ok data.
Proof.
  intros Hdec Hlen Hkey.
  assert (exists key, deriveSymmetricKey id keyID keyBase64URL = Ok key /\ length key = 32%nat)
    as (key & Hderive & Hkeylen).
  { eexists. split; [exact (deriveSymmetricKey_ok id keyID keyBase64URL hkdfKey Hdec Hlen)|].
    apply hmac_Sum_length. }
  assert (aes.NewCipher key = Some (aes.key_schedule key)) as Hcipher.
  { unfold aes.NewCipher. rewrite Hkeylen. reflexivity. }
  destruct (gcm_Open_Seal (aes.key_schedule key) (rand_ReadFull rand_Reader 12)
              data [] (rand_ReadFull_length _ _)) as (sealed & Hseal & Hopen).
  exists {| KeyID := keyID; Algorithm := "aes-gcm-hkdf"; Data := sealed;
            Nonce := rand_ReadFull rand_Reader 12 |}.
  split.
  - unfold NewEncryptedString. rewrite Hderive. cbn [mbind result_bind].
    rewrite Hcipher. cbn [must mbind result_bind]. unfold seal. rewrite Hseal.
    reflexivity.
  - assert (str_empty keyBase64URL = false) as Hnonempty.
    { destruct keyBase64URL; [|reflexivity].
      vm_compute in Hdec. injection Hdec as <-. discriminate. }
    unfold Decrypt, Decrypt_with. cbn [KeyID Nonce Data]. rewrite Hkey.
    cbn [from_option Datatypes.id]. rewrite Hnonempty, Hderive. cbn [mbind result_bind].
    rewrite Hcipher. cbn [must mbind result_bind]. unfold open. rewrite Hopen.
    reflexivity.
Qed.

(** An envelope for the word "secret" under a base key of 32 zero bytes. *)
Lemma Decrypt_NewEncryptedString_witness :
  exists es,
    NewEncryptedString (fun i => byte_of_z (Z.of_nat i)) "record-1" (bytes_of "secret")
      "k1" "AAAAAAAAAAAAAAAAAAAAAAAAAAAAAAAAAAAAAAAAAAA" = Ok es /\
    Decrypt es "record-1" {[ "k1" := "AAAAAAAAAAAAAAAAAAAAAAAAAAAAAAAAAAAAAAAAAAA" ]}
    = Ok (bytes_of "secret").
Proof.
  apply (Decrypt_NewEncryptedString _ _ _ _ _ (repeat Byte.x00 32)).
  - vm_compute. reflexivity.
  - reflexivity.
  - apply lookup_singleton_eq.
Defined.

(** The same envelope, computed: nonce 00 01 ... 0b, six bytes of
    ciphertext and the tag; it decrypts under the record it was made for
    and fails authentication under another record. *)
Example envelope_sample :
  match NewEncryptedString (fun i => byte_of_z (Z.of_nat i)) "record-1"
          (bytes_of "secret") "k1" "AAAAAAAAAAAAAAAAAAAAAAAAAAAAAAAAAAAAAAAAAAA" with
  | Ok es =>
      KeyID es = "k1" /\ Nonce es = hex "000102030405060708090a0b" /\
      length (Data es) = (6 + 16)%nat /\
      Decrypt es "record-1" {[ "k1" := "AAAAAAAAAAAAAAAAAAAAAAAAAAAAAAAAAAAAAAAAAAA" ]}
      = Ok (bytes_of "secret") /\
      Decrypt es "record-2" {[ "k1" := "AAAAAAAAAAAAAAAAAAAAAAAAAAAAAAAAAAAAAAAAAAA" ]}
      = Err ErrOpen
  | _ => False
  end.
Proof. vm_compute. repeat split. Qed.

(** C10. [Decrypt] tests the looked-up key for emptiness, not the map for
    membership: a key id that the map holds with the empty string fails with
    the same does-not-exist error as a key id the map does not hold, and
    [Decrypt] never calls the key derivation with an empty base key (what
    the derivation would do with one has no bearing on the result). *)
Theorem Decrypt_empty_key (es : EncryptedString) (id : string)
    (decryptionKeys : gmap string string) :
  (decryptionKeys !! KeyID es = Some EmptyString ->
   Decrypt es id decryptionKeys = Err (ErrKeyDoesNotExist (KeyID es))) /\
  (decryptionKeys !! KeyID es = None ->
   Decrypt es id decryptionKeys = Err (ErrKeyDoesNotExist (KeyID es))) /\
  (forall derive derive' : string -> string -> string -> result (list byte),
     (forall i k base, base <> EmptyString -> derive i k base = derive' i k base) ->
     Decrypt_with derive es id decryptionKeys = Decrypt_with derive' es id decryptionKeys).
Proof.
  unfold Decrypt, Decrypt_with. repeat split.
  - intros ->. reflexivity.
  - intros ->. reflexivity.
  - intros derive derive' Hagree.
    destruct (decryptionKeys !! KeyID es) as [[|c base]|]; cbn [from_option Datatypes.id str_empty];
      try reflexivity.
    rewrite Hagree by discriminate. reflexivity.
Qed.

(** A key map that holds the key id of the envelope with an empty key. *)
Lemma Decrypt_empty_key_witness :
  Decrypt {| KeyID := "k1"; Algorithm := "aes-gcm-hkdf"; Data := [Byte.x01];
             Nonce := [Byte.x02] |} "record-1" {[ "k1" := EmptyString ]}
  = Err (ErrKeyDoesNotExist "k1").
Proof.
  apply (proj1 (Decrypt_empty_key
                  {| KeyID := "k1"; Algorithm := "aes-gcm-hkdf"; Data := [Byte.x01];
                     Nonce := [Byte.x02] |} "record-1" {[ "k1" := EmptyString ]})).
  apply lookup_singleton_eq.
Defined.

(** X5. [Decrypt] panics on an envelope whose nonce is not 12 bytes long
    when the key map holds a valid 256-bit base key for its key id: the
    key derivation and the cipher construction succeed, and [AEAD.Open]
    panics on the length of the nonce. *)
Theorem Decrypt_nonce_length_panics (es : EncryptedString) (id keyBase64URL : string)
    (hkdfKey : list byte) (decryptionKeys : gmap string string) :
  decryptionKeys !! KeyID es = Some keyBase64URL ->
  base64.DecodeString base64.RawURLEncoding keyBase64URL = Some hkdfKey ->
  length hkdfKey = 32%nat ->
  length (Nonce es) <> 12%nat ->
  Decrypt es id decryptionKeys = Panic.
Proof.
  intros Hkey Hdec Hlen Hnonce.
  assert (exists key, deriveSymmetricKey id (KeyID es) keyBase64URL = Ok key /\ length key = 32%nat)
    as (key & Hderive & Hkeylen).
  { eexists. split; [exact (deriveSymmetricKey_ok id (KeyID es) keyBase64URL hkdfKey Hdec Hlen)|].
    apply hmac_Sum_length. }
  assert (str_empty keyBase64URL = false) as Hnonempty.
  { destruct keyBase64URL; [|reflexivity].
    vm_compute in Hdec. injection Hdec as <-. discriminate. }
  unfold Decrypt, Decrypt_with. rewrite Hkey.
  cbn [from_option Datatypes.id]. rewrite Hnonempty, Hderive. cbn [mbind result_bind].
  unfold aes.NewCipher. rewrite Hkeylen. cbn [must mbind result_bind bool_decide].
  change (bool_decide (32%nat ∈ [16%nat; 24%nat; 32%nat])) with true.
  cbn [must mbind result_bind].
  unfold open, gcm.Open, gcm.NonceSize.
  destruct (Nat.eqb_spec (length (Nonce es)) 12) as [|_]; [contradiction|]. reflexivity.
Qed.

(** An envelope with a nonce of one byte. *)
Lemma Decrypt_nonce_length_panics_witness :
  Decrypt {| KeyID := "k1"; Algorithm := "aes-gcm-hkdf"; Data := [Byte.x01];
             Nonce := [Byte.x02] |} "record-1"
    {[ "k1" := "AAAAAAAAAAAAAAAAAAAAAAAAAAAAAAAAAAAAAAAAAAA" ]} = Panic.
Proof.
  apply (Decrypt_nonce_length_panics
           {| KeyID := "k1"; Algorithm := "aes-gcm-hkdf"; Data := [Byte.x01];
              Nonce := [Byte.x02] |} "record-1" "AAAAAAAAAAAAAAAAAAAAAAAAAAAAAAAAAAAAAAAAAAA"
           (repeat Byte.x00 32)).
  - apply lookup_singleton_eq.
  - vm_compute. reflexivity.
  - reflexivity.
  - cbn. lia.
Defined.

(** Such an envelope is one [ParseEncryptedString] returns: it passes
    [IsValid], which asks only for a nonce that is not empty. *)
Example short_nonce_envelope :
  let es := {| KeyID := "k1"; Algorithm := "aes-gcm-hkdf"; Data := [Byte.x01];
               Nonce := [Byte.x02] |} in
  ParseEncryptedString (String_ es) = Some es /\
  Decrypt es "record-1" {[ "k1" := "AAAAAAAAAAAAAAAAAAAAAAAAAAAAAAAAAAAAAAAAAAA" ]} = Panic.
Proof. vm_compute. split; reflexivity. Qed.

Lemma gcm_xor_stream_length (b : aes.Block) (nonce data : list byte) :
  length (gcm.xor_stream b nonce data) = length data.
Proof.
  unfold gcm.xor_stream.
  apply (xor_stream_twice data _ (gcm_keystream_length b nonce (length data))).
Qed.

(** X6. The envelope [NewEncryptedString] returns carries the key id it
    was given and the algorithm tag, a nonce of the 12 bytes read from the
    random source, and data 16 bytes (the tag) longer than the plaintext;
    it passes [IsValid] exactly when the key id is not empty. *)
Theorem NewEncryptedString_shape (rand_Reader : Rand) (id : string) (data : list byte)
    (keyID keyBase64URL : string) (es : EncryptedString) :
  NewEncryptedString rand_Reader id data keyID keyBase64URL = Ok es ->
  KeyID es = keyID /\ Algorithm es = "aes-gcm-hkdf" /\
  Nonce es = rand_ReadFull rand_Reader 12 /\ length (Nonce es) = 12%nat /\
  length (Data es) = (length data + 16)%nat /\
  IsValid es = negb (str_empty keyID).
Proof.
  unfold NewEncryptedString.
  destruct (deriveSymmetricKey id keyID keyBase64URL) as [key| |]; cbn [mbind result_bind];
    try discriminate.
  destruct (aes.NewCipher key) as [block|]; cbn [must mbind result_bind]; try discriminate.
  unfold seal, gcm.Seal, gcm.NonceSize. rewrite rand_ReadFull_length.
  cbn [Nat.eqb negb mbind result_bind]. intros [= <-]. cbn [KeyID Algorithm Nonce Data].
  assert (length (gcm.xor_stream block (rand_ReadFull rand_Reader 12) data
                  ++ gcm.tag block (rand_ReadFull rand_Reader 12) []
                       (gcm.xor_stream block (rand_ReadFull rand_Reader 12) data))
          = (length data + 16)%nat) as Hdata.
  { rewrite length_app, gcm_xor_stream_length, gcm_tag_length. reflexivity. }
  repeat split; try reflexivity; try apply rand_ReadFull_length; try exact Hdata.
  unfold IsValid. cbn [KeyID Algorithm Nonce Data].
  rewrite Hdata, rand_ReadFull_length.
  replace (0 <? length data + 16)%nat with true by (symmetry; apply Nat.ltb_lt; lia).
  change (0 <? 12)%nat with true.
  change (String.eqb "aes-gcm-hkdf" "aes-gcm-hkdf") with true.
  rewrite !andb_true_r. reflexivity.
Qed.

(** The envelope for the word "secret" again. *)
Lemma NewEncryptedString_shape_witness :
  exists es,
    NewEncryptedString (fun i => byte_of_z (Z.of_nat i)) "record-1" (bytes_of "secret")
      "k1" "AAAAAAAAAAAAAAAAAAAAAAAAAAAAAAAAAAAAAAAAAAA" = Ok es /\
    KeyID es = "k1" /\ Algorithm es = "aes-gcm-hkdf" /\
    Nonce es = rand_ReadFull (fun i => byte_of_z (Z.of_nat i)) 12 /\
    length (Nonce es) = 12%nat /\
    length (Data es) = (length (bytes_of "secret") + 16)%nat /\
    IsValid es = negb (str_empty "k1").
Proof.
  destruct (NewEncryptedString (fun i => byte_of_z (Z.of_nat i)) "record-1" (bytes_of "secret")
      "k1" "AAAAAAAAAAAAAAAAAAAAAAAAAAAAAAAAAAAAAAAAAAA") as [es| |] eqn:Hnew;
    [|vm_compute in Hnew; discriminate..].
  exists es. split; [reflexivity|].
  apply (NewEncryptedString_shape _ _ _ _ _ es Hnew).
Defined.

(** * The serialized envelope *)

(** ** Base64: decoding what was encoded *)

Lemma below_64 (P : N -> bool) :
  forallb (fun n => P (N.of_nat n)) (seq 0 64) = true ->
  forall v, (v < 64)%N -> P v = true.
Proof.
  intros Hall v Hv. rewrite forallb_forall in Hall.
  specialize (Hall (N.to_nat v)). rewrite N2Nat.id in Hall.
  apply Hall, in_seq. lia.
Qed.

Lemma list_ind3 {A} (P : list A -> Prop) :
  P [] -> (forall a, P [a]) -> (forall a b, P [a; b]) ->
  (forall a b c rest, P rest -> P (a :: b :: c :: rest)) ->
  forall l, P l.
Proof.
  intros H0 H1 H2 H3.
  fix IH 1. intros [|a [|b [|c rest]]]; [exact H0 | apply H1 | apply H2 |].
  apply H3, IH.
Qed.

Lemma base64_byte_of_N_to_N (b : byte) : base64.byte_of_N (Byte.to_N b) = b.
Proof.
  unfold base64.byte_of_N. pose proof (Byte.to_N_bounded b).
  rewrite N.mod_small by lia. rewrite Byte.of_to_N. reflexivity.
Qed.

Lemma std_decodeMap_encodeChar (v : N) :
  (v < 64)%N ->
  base64.decodeMap base64.StdEncoding (base64.encodeChar base64.StdEncoding v) = Some v.
Proof.
  intros Hv.
  apply (below_64 (fun v => bool_decide
           (base64.decodeMap base64.StdEncoding
              (base64.encodeChar base64.StdEncoding v) = Some v))) in Hv.
  - apply bool_decide_eq_true_1 in Hv. exact Hv.
  - vm_compute. reflexivity.
Qed.

Lemma base64_decode_quantum (enc : base64.Encoding) (c0 c1 c2 c3 : ascii)
    (v0 v1 v2 v3 : N) (rest : string) :
  base64.decodeMap enc c0 = Some v0 -> base64.decodeMap enc c1 = Some v1 ->
  base64.decodeMap enc c2 = Some v2 -> base64.decodeMap enc c3 = Some v3 ->
  base64.decode enc (String c0 (String c1 (String c2 (String c3 rest)))) []
  = app (base64.quantum_bytes [v0; v1; v2; v3]) <$> base64.decode enc rest [].
Proof.
  intros H0 H1 H2 H3. cbn [base64.decode]. rewrite H0. cbn [app].
  rewrite H1. cbn [app]. rewrite H2. cbn [app]. rewrite H3. reflexivity.
Qed.

Lemma base64_regroup (a b c : byte) :
  let A := Byte.to_N a in let B := Byte.to_N b in let C := Byte.to_N c in
  base64.quantum_bytes
    [A / 4; A mod 4 * 16 + B / 16; B mod 16 * 4 + C / 64; C mod 64]%N = [a; b; c].
Proof.
  intros A B C. unfold base64.quantum_bytes.
  pose proof (Byte.to_N_bounded a). pose proof (Byte.to_N_bounded b).
  pose proof (Byte.to_N_bounded c).
  replace (A / 4 * 4 + (A mod 4 * 16 + B / 16) / 16)%N with A
    by (subst A B C; zify; Z.to_euclidean_division_equations; lia).
  replace ((A mod 4 * 16 + B / 16) mod 16 * 16 + (B mod 16 * 4 + C / 64) / 4)%N with B
    by (subst A B C; zify; Z.to_euclidean_division_equations; lia).
  replace ((B mod 16 * 4 + C / 64) mod 4 * 64 + C mod 64)%N with C
    by (subst A B C; zify; Z.to_euclidean_division_equations; lia).
  subst A B C. rewrite !base64_byte_of_N_to_N. reflexivity.
Qed.

Lemma base64_regroup2 (a b : byte) :
  let A := Byte.to_N a in let B := Byte.to_N b in
  base64.quantum_bytes [A / 4; A mod 4 * 16 + B / 16; B mod 16 * 4]%N = [a; b].
Proof.
  intros A B. unfold base64.quantum_bytes.
  pose proof (Byte.to_N_bounded a). pose proof (Byte.to_N_bounded b).
  replace (A / 4 * 4 + (A mod 4 * 16 + B / 16) / 16)%N with A
    by (subst A B; zify; Z.to_euclidean_division_equations; lia).
  replace ((A mod 4 * 16 + B / 16) mod 16 * 16 + (B mod 16 * 4) / 4)%N with B
    by (subst A B; zify; Z.to_euclidean_division_equations; lia).
  subst A B. rewrite !base64_byte_of_N_to_N. reflexivity.
Qed.

Lemma base64_regroup1 (a : byte) :
  let A := Byte.to_N a in
  base64.quantum_bytes [A / 4; A mod 4 * 16]%N = [a].
Proof.
  intros A. unfold base64.quantum_bytes. pose proof (Byte.to_N_bounded a).
  replace (A / 4 * 4 + (A mod 4 * 16) / 16)%N with A
    by (subst A; zify; Z.to_euclidean_division_equations; lia).
  subst A. rewrite base64_byte_of_N_to_N. reflexivity.
Qed.

Lemma sextet_bounds (a b : byte) :
  let A := Byte.to_N a in let B := Byte.to_N b in
  (A / 4 < 64 /\ A mod 4 * 16 + B / 16 < 64 /\ A mod 16 * 4 + B / 64 < 64 /\
   A mod 64 < 64 /\ A mod 4 * 16 < 64 /\ A mod 16 * 4 < 64)%N.
Proof.
  intros A B. pose proof (Byte.to_N_bounded a). pose proof (Byte.to_N_bounded b).
  subst A B. repeat split; zify; Z.to_euclidean_division_equations; lia.
Qed.

Lemma base64_std_decode_pad2 (c0 c1 : ascii) (v0 v1 : N) :
  base64.decodeMap base64.StdEncoding c0 = Some v0 ->
  base64.decodeMap base64.StdEncoding c1 = Some v1 ->
  base64.decode base64.StdEncoding (String c0 (String c1 "==")) []
  = Some (base64.quantum_bytes [v0; v1]).
Proof.
  intros H0 H1. cbn [base64.decode]. rewrite H0. cbn [app]. rewrite H1. reflexivity.
Qed.

Lemma base64_std_decode_pad1 (c0 c1 c2 : ascii) (v0 v1 v2 : N) :
  base64.decodeMap base64.StdEncoding c0 = Some v0 ->
  base64.decodeMap base64.StdEncoding c1 = Some v1 ->
  base64.decodeMap base64.StdEncoding c2 = Some v2 ->
  base64.decode base64.StdEncoding (String c0 (String c1 (String c2 "="))) []
  = Some (base64.quantum_bytes [v0; v1; v2]).
Proof.
  intros H0 H1 H2. cbn [base64.decode]. rewrite H0. cbn [app]. rewrite H1. cbn [app].
  rewrite H2. reflexivity.
Qed.

(** Decoding the standard encoding of a byte string gives it back. *)
Lemma base64_std_DecodeString_EncodeToString (bs : list byte) :
  base64.DecodeString base64.StdEncoding (base64.EncodeToString base64.StdEncoding bs)
  = Some bs.
Proof.
  unfold base64.DecodeString. induction bs as [|a|a b|a b c rest IH] using list_ind3.
  - reflexivity.
  - pose proof (sextet_bounds a a) as (H0 & _ & _ & _ & H1 & _).
    change (base64.EncodeToString base64.StdEncoding [a])
      with (String (base64.encodeChar base64.StdEncoding (Byte.to_N a / 4))
              (String (base64.encodeChar base64.StdEncoding (Byte.to_N a mod 4 * 16)) "==")).
    rewrite (base64_std_decode_pad2 _ _ _ _ (std_decodeMap_encodeChar _ H0)
               (std_decodeMap_encodeChar _ H1)).
    rewrite base64_regroup1. reflexivity.
  - pose proof (sextet_bounds a b) as (H0 & H1 & _).
    pose proof (sextet_bounds b b) as (_ & _ & _ & _ & _ & H2).
    change (base64.EncodeToString base64.StdEncoding [a; b])
      with (String (base64.encodeChar base64.StdEncoding (Byte.to_N a / 4))
              (String (base64.encodeChar base64.StdEncoding
                         (Byte.to_N a mod 4 * 16 + Byte.to_N b / 16))
                 (String (base64.encodeChar base64.StdEncoding (Byte.to_N b mod 16 * 4))
                    "="))).
    rewrite (base64_std_decode_pad1 _ _ _ _ _ _ (std_decodeMap_encodeChar _ H0)
               (std_decodeMap_encodeChar _ H1) (std_decodeMap_encodeChar _ H2)).
    rewrite base64_regroup2. reflexivity.
  - pose proof (sextet_bounds a b) as (H0 & H1 & _).
    pose proof (sextet_bounds b c) as (_ & _ & H2 & _).
    pose proof (sextet_bounds c c) as (_ & _ & _ & H3 & _).
    cbn [base64.EncodeToString].
    rewrite (base64_decode_quantum _ _ _ _ _ _ _ _ _ _
               (std_decodeMap_encodeChar _ H0) (std_decodeMap_encodeChar _ H1)
               (std_decodeMap_encodeChar _ H2) (std_decodeMap_encodeChar _ H3)).
    rewrite IH, base64_regroup. reflexivity.
Qed.

(** ** Strings: dropping, appending *)

Lemma append_cons (x : ascii) (a b : string) : String x a +:+ b = String x (a +:+ b).
Proof. reflexivity. Qed.

Lemma append_nil_l (b : string) : EmptyString +:+ b = b.
Proof. reflexivity. Qed.

Lemma append_nil_r (a : string) : a +:+ EmptyString = a.
Proof. induction a as [|x a IH]; [reflexivity | rewrite append_cons, IH; reflexivity]. Qed.

Lemma string_app_assoc (a b c : string) : (a +:+ b) +:+ c = a +:+ (b +:+ c).
Proof.
  induction a as [|x a IH]; [reflexivity|]. rewrite !append_cons, IH. reflexivity.
Qed.

Lemma string_drop_app (a b : string) : jsonscan.string_drop (String.length a) (a +:+ b) = b.
Proof.
  induction a as [|x a IH]; [destruct b; reflexivity|].
  rewrite append_cons. exact IH.
Qed.

Lemma list_ascii_app (a b : string) :
  list_ascii_of_string (a +:+ b) = list_ascii_of_string a ++ list_ascii_of_string b.
Proof.
  induction a as [|x a IH]; [reflexivity|].
  rewrite append_cons. cbn [list_ascii_of_string app]. rewrite IH. reflexivity.
Qed.

(** ** UTF-8: a well-formed sequence decodes and encodes to itself *)

Lemma chr_code (c : ascii) : utf8.chr (N_of_ascii c) = c.
Proof. apply ascii_N_embedding. Qed.

Lemma chr_eq (n : N) (c : ascii) : n = N_of_ascii c -> utf8.chr n = c.
Proof. intros ->. apply ascii_N_embedding. Qed.

Lemma code_bound (c : ascii) : (N_of_ascii c < 256)%N.
Proof. apply N_ascii_bounded. Qed.

Ltac bool_cases :=
  repeat match goal with
         | H : context [utf8.between _ _ _] |- _ => unfold utf8.between in H
         | H : (_ && _) = true |- _ => apply andb_true_iff in H; destruct H
         | H : (_ && _) = false |- _ => apply andb_false_iff in H; destruct H
         | H : (_ || _) = true |- _ => apply orb_true_iff in H; destruct H
         | H : (_ || _) = false |- _ => apply orb_false_iff in H; destruct H
         | H : negb _ = true |- _ => apply negb_true_iff in H
         | H : negb _ = false |- _ => apply negb_false_iff in H
         | H : (_ <=? _)%N = true |- _ => apply N.leb_le in H
         | H : (_ <=? _)%N = false |- _ => apply N.leb_gt in H
         | H : (_ <? _)%N = true |- _ => apply N.ltb_lt in H
         | H : (_ <? _)%N = false |- _ => apply N.ltb_ge in H
         | H : (_ =? _)%N = true |- _ => apply N.eqb_eq in H
         | H : (_ =? _)%N = false |- _ => apply N.eqb_neq in H
         end.

Ltac euclid := zify; Z.to_euclidean_division_equations; lia.

Ltac chr_bytes :=
  repeat match goal with
         | |- String _ _ = String _ _ => f_equal
         | |- utf8.chr _ = _ => apply chr_eq; euclid
         end.

Lemma first_cases (b0 : N) (sz : nat) (lo hi : N) :
  utf8.first b0 = Some (sz, lo, hi) ->
  (sz = 2%nat /\ 194 <= b0 <= 223 /\ lo = 128 /\ hi = 191)%N \/
  (sz = 3%nat /\ 224 <= b0 <= 239 /\ 128 <= lo /\ hi <= 191 /\
   (b0 = 224 -> lo = 160) /\ (b0 = 237 -> hi = 159))%N \/
  (sz = 4%nat /\ 240 <= b0 <= 244 /\ 128 <= lo /\ hi <= 191 /\
   (b0 = 240 -> lo = 144) /\ (b0 = 244 -> hi = 143))%N.
Proof.
  unfold utf8.first.
  repeat match goal with
         | |- context [if ?c then _ else _] => destruct c eqn:?
         end; intros [= <- <- <-]; bool_cases; lia.
Qed.

(** The rune at the head of a string that starts with a byte outside
    ASCII: either the encoding is not well formed, or its bytes are all
    outside ASCII, the rune encodes to them, and the decoder reads them
    whatever follows. *)
Lemma utf8_decode_cases (c0 : ascii) (r0 : string) :
  (128 <= N_of_ascii c0)%N ->
  utf8.DecodeRuneInString (String c0 r0) = (utf8.RuneError, 1%nat) \/
  exists r pre rest,
    String c0 r0 = pre +:+ rest /\
    (2 <= String.length pre <= 4)%nat /\
    high_bytes pre /\
    utf8.EncodeRune r = pre /\
    forall X, utf8.DecodeRuneInString (pre +:+ X) = (r, String.length pre).
Proof.
  intros Hhigh. unfold utf8.DecodeRuneInString at 1.
  destruct (N.ltb_spec (N_of_ascii c0) utf8.RuneSelf) as [Hlt|_];
    [unfold utf8.RuneSelf in Hlt; lia|].
  destruct (utf8.first (N_of_ascii c0)) as [[[sz lo] hi]|] eqn:Hfirst; [|left; reflexivity].
  destruct r0 as [|c1 r1]; [left; reflexivity|].
  destruct (utf8.between lo hi (N_of_ascii c1)) eqn:Hb1; cbn [negb]; [|left; reflexivity].
  pose proof (code_bound c0). pose proof (code_bound c1).
  apply first_cases in Hfirst as Hcases.
  destruct Hcases as [(-> & Hr0 & -> & ->) | [(-> & Hr0 & Hlo & Hhi & Hlo' & Hhi')
                                            | (-> & Hr0 & Hlo & Hhi & Hlo' & Hhi')]];
    bool_cases; cbn [Nat.eqb].
  - (* two bytes *)
    right. exists (N_of_ascii c0 mod 32 * 64 + N_of_ascii c1 mod 64)%N,
             (String c0 (String c1 EmptyString)), r1.
    split; [reflexivity|]. split; [cbn; lia|]. split.
    { repeat constructor; unfold jsonscan.code; lia. }
    split.
    + unfold utf8.EncodeRune.
      destruct (N.ltb_spec (N_of_ascii c0 mod 32 * 64 + N_of_ascii c1 mod 64) 128);
        [euclid|].
      destruct (N.ltb_spec (N_of_ascii c0 mod 32 * 64 + N_of_ascii c1 mod 64) 2048);
        [|euclid].
      chr_bytes.
    + intros X. rewrite !append_cons, append_nil_l. unfold utf8.DecodeRuneInString.
      destruct (N.ltb_spec (N_of_ascii c0) utf8.RuneSelf) as [Hlt|_];
        [unfold utf8.RuneSelf in Hlt; lia|].
      rewrite Hfirst. unfold utf8.between.
      rewrite (proj2 (N.leb_le _ _)), (proj2 (N.leb_le _ _)) by lia. reflexivity.
  - (* three bytes *)
    destruct r1 as [|c2 r2]; [left; reflexivity|].
    destruct (utf8.between 128 191 (N_of_ascii c2)) eqn:Hb2; cbn [negb]; [|left; reflexivity].
    bool_cases. pose proof (code_bound c2).
    right. exists (N_of_ascii c0 mod 16 * 4096 + N_of_ascii c1 mod 64 * 64
                   + N_of_ascii c2 mod 64)%N,
             (String c0 (String c1 (String c2 EmptyString))), r2.
    split; [reflexivity|]. split; [cbn; lia|]. split.
    { repeat constructor; unfold jsonscan.code; lia. }
    split.
    + unfold utf8.EncodeRune, utf8.between.
      set (r := (N_of_ascii c0 mod 16 * 4096 + N_of_ascii c1 mod 64 * 64
                 + N_of_ascii c2 mod 64)%N).
      assert (2048 <= r < 65536 /\ (r < 55296 \/ 57343 < r))%N as Hr.
      { subst r. destruct (N.eq_dec (N_of_ascii c0) 224%N) as [E|E];
          [specialize (Hlo' E)|]; (destruct (N.eq_dec (N_of_ascii c0) 237%N) as [E'|E'];
          [specialize (Hhi' E')|]); euclid. }
      destruct (N.ltb_spec r 128); [lia|]. destruct (N.ltb_spec r 2048); [lia|].
      destruct (N.ltb_spec 1114111 r); [lia|].
      destruct (N.leb_spec 55296 r); destruct (N.leb_spec r 57343); cbn [andb orb];
        try lia.
      all: destruct (N.ltb_spec r 65536); [|lia].
      all: subst r; chr_bytes.
    + intros X. rewrite !append_cons, append_nil_l. unfold utf8.DecodeRuneInString.
      destruct (N.ltb_spec (N_of_ascii c0) utf8.RuneSelf) as [Hlt|_];
        [unfold utf8.RuneSelf in Hlt; lia|].
      rewrite Hfirst. unfold utf8.between.
      rewrite (proj2 (N.leb_le lo _)), (proj2 (N.leb_le _ hi)) by lia.
      rewrite (proj2 (N.leb_le 128 (N_of_ascii c2))), (proj2 (N.leb_le _ 191)) by lia.
      reflexivity.
  - (* four bytes *)
    destruct r1 as [|c2 r2]; [left; reflexivity|].
    destruct (utf8.between 128 191 (N_of_ascii c2)) eqn:Hb2; cbn [negb]; [|left; reflexivity].
    destruct r2 as [|c3 r3]; [left; reflexivity|].
    destruct (utf8.between 128 191 (N_of_ascii c3)) eqn:Hb3; cbn [negb]; [|left; reflexivity].
    bool_cases. pose proof (code_bound c2). pose proof (code_bound c3).
    right. exists (N_of_ascii c0 mod 8 * 262144 + N_of_ascii c1 mod 64 * 4096
                   + N_of_ascii c2 mod 64 * 64 + N_of_ascii c3 mod 64)%N,
             (String c0 (String c1 (String c2 (String c3 EmptyString)))), r3.
    split; [reflexivity|]. split; [cbn; lia|]. split.
    { repeat constructor; unfold jsonscan.code; lia. }
    split.
    + unfold utf8.EncodeRune, utf8.between.
      set (r := (N_of_ascii c0 mod 8 * 262144 + N_of_ascii c1 mod 64 * 4096
                 + N_of_ascii c2 mod 64 * 64 + N_of_ascii c3 mod 64)%N).
      assert (65536 <= r <= 1114111)%N as Hr.
      { subst r. destruct (N.eq_dec (N_of_ascii c0) 240%N) as [E|E];
          [specialize (Hlo' E)|]; (destruct (N.eq_dec (N_of_ascii c0) 244%N) as [E'|E'];
          [specialize (Hhi' E')|]); euclid. }
      destruct (N.ltb_spec r 128); [lia|]. destruct (N.ltb_spec r 2048); [lia|].
      destruct (N.ltb_spec 1114111 r); [lia|].
      destruct (N.leb_spec 55296 r); destruct (N.leb_spec r 57343); cbn [andb orb];
        try lia.
      all: destruct (N.ltb_spec r 65536); [lia|].
      all: subst r; chr_bytes.
    + intros X. rewrite !append_cons, append_nil_l. unfold utf8.DecodeRuneInString.
      destruct (N.ltb_spec (N_of_ascii c0) utf8.RuneSelf) as [Hlt|_];
        [unfold utf8.RuneSelf in Hlt; lia|].
      rewrite Hfirst. unfold utf8.between.
      rewrite (proj2 (N.leb_le lo _)), (proj2 (N.leb_le _ hi)) by lia.
      rewrite (proj2 (N.leb_le 128 (N_of_ascii c2))), (proj2 (N.leb_le _ 191)) by lia.
      rewrite (proj2 (N.leb_le 128 (N_of_ascii c3))), (proj2 (N.leb_le (N_of_ascii c3) 191)) by lia.
      reflexivity.
Qed.

(** ** Strings the scanner accepts inside a literal *)

Lemma run_app (a b : string) (st : list jsonscan.token * jsonscan.mode) :
  jsonscan.run (a +:+ b) st = jsonscan.run a st ≫= jsonscan.run b.
Proof.
  revert st. induction a as [|x a IH]; intros st; [reflexivity|].
  rewrite append_cons. cbn [jsonscan.run]. destruct (jsonscan.step st x); [apply IH | reflexivity].
Qed.

Lemma accepts_nil : accepts EmptyString.
Proof. intros toks acc. reflexivity. Qed.

Lemma accepts_app (a b : string) : accepts a -> accepts b -> accepts (a +:+ b).
Proof.
  intros Ha Hb toks acc. rewrite run_app, Ha. cbn [mbind option_bind]. rewrite Hb.
  rewrite list_ascii_app, rev_app_distr, <- app_assoc. reflexivity.
Qed.

Lemma accepts_char (c : ascii) :
  (32 <= N_of_ascii c)%N -> c <> json.quote -> c <> json.backslash ->
  accepts (String c EmptyString).
Proof.
  intros Hc Hq Hb toks acc. cbn [jsonscan.run jsonscan.step].
  rewrite (proj2 (Ascii.eqb_neq _ _) Hq), (proj2 (Ascii.eqb_neq _ _) Hb).
  unfold jsonscan.code. rewrite (proj2 (N.ltb_ge _ _) Hc). reflexivity.
Qed.

Lemma high_not_ascii (c d : ascii) :
  (128 <= N_of_ascii c)%N -> (N_of_ascii d < 128)%N -> c <> d.
Proof. intros Hc Hd ->. lia. Qed.

Lemma accepts_high (pre : string) : high_bytes pre -> accepts pre.
Proof.
  induction pre as [|c pre IH]; intros Hhigh; [apply accepts_nil|].
  inversion Hhigh as [|c' l Hc Hrest]; subst.
  change (String c pre) with (String c EmptyString +:+ pre).
  apply accepts_app; [|apply IH, Hrest].
  unfold jsonscan.code in Hc.
  apply accepts_char; [lia | |]; apply high_not_ascii; try assumption; vm_compute; reflexivity.
Qed.

(** ** The rune at the head of a string *)

Lemma substring_app (a b : string) : substring 0 (String.length a) (a +:+ b) = a.
Proof.
  induction a as [|x a IH]; [destruct b; reflexivity|].
  rewrite append_cons. cbn [String.length substring]. rewrite IH. reflexivity.
Qed.

Lemma string_drop_length (k : nat) (s : string) :
  String.length (jsonscan.string_drop k s) = (String.length s - k)%nat.
Proof.
  revert k. induction s as [|c s IH]; intros [|k]; try reflexivity. apply IH.
Qed.

Lemma app_length_string (a b : string) :
  String.length (a +:+ b) = (String.length a + String.length b)%nat.
Proof.
  induction a as [|x a IH]; [reflexivity|]. rewrite append_cons.
  cbn [String.length]. rewrite IH. reflexivity.
Qed.

Lemma rune_width_ascii (c : ascii) (rest : string) :
  (N_of_ascii c < 128)%N -> json.rune_width (String c rest) = 1%nat.
Proof.
  intros Hc. unfold json.rune_width, utf8.DecodeRuneInString, utf8.RuneSelf.
  rewrite (proj2 (N.ltb_lt _ _) Hc). reflexivity.
Qed.

(** The width of the head rune is at least one byte, and dropping it
    leaves a shorter string. *)
Lemma rune_width_pos (c : ascii) (rest : string) :
  (1 <= json.rune_width (String c rest) <= String.length (String c rest))%nat.
Proof.
  destruct (N.lt_ge_cases (N_of_ascii c) 128) as [Hc|Hc].
  - rewrite rune_width_ascii by exact Hc. cbn [String.length]. lia.
  - destruct (utf8_decode_cases c rest Hc) as [Hinv | (r & pre & rest' & Hs & Hlen & _ & _ & Hdec)].
    + unfold json.rune_width. rewrite Hinv. cbn [snd String.length]. lia.
    + unfold json.rune_width. rewrite Hs, Hdec, app_length_string. cbn [snd]. lia.
Qed.

(** ** The functions that pass over the bytes of a rune *)

Lemma escape_from_skip (s : string) (k : nat) :
  json.escape_from s k = json.escape_from (jsonscan.string_drop k s) 0.
Proof.
  revert k. induction s as [|c s IH]; intros [|k]; try reflexivity.
  cbn [json.escape_from jsonscan.string_drop]. apply IH.
Qed.

Lemma unquote_from_skip (s : string) (k : nat) :
  jsonscan.unquote_from s k = jsonscan.unquote_from (jsonscan.string_drop k s) 0.
Proof.
  revert k. induction s as [|c s IH]; intros [|k]; try reflexivity.
  cbn [jsonscan.unquote_from jsonscan.string_drop]. apply IH.
Qed.

Lemma valid_from_skip (s : string) (k : nat) :
  utf8.valid_from s k = utf8.valid_from (jsonscan.string_drop k s) 0.
Proof.
  revert k. induction s as [|c s IH]; intros [|k]; try reflexivity.
  cbn [utf8.valid_from jsonscan.string_drop]. apply IH.
Qed.

Lemma string_drop_pred (w : nat) (c : ascii) (rest : string) :
  (1 <= w)%nat ->
  jsonscan.string_drop (w - 1) rest = jsonscan.string_drop w (String c rest).
Proof. intros Hw. destruct w as [|w]; [lia|]. cbn. rewrite Nat.sub_0_r. reflexivity. Qed.

Lemma escape_from_unfold (c : ascii) (rest : string) :
  json.escape_from (String c rest) 0
  = json.escape_rune (String c rest)
    +:+ json.escape_from
          (jsonscan.string_drop (json.rune_width (String c rest)) (String c rest)) 0.
Proof.
  cbn [json.escape_from]. rewrite escape_from_skip.
  rewrite (string_drop_pred _ c) by apply rune_width_pos. reflexivity.
Qed.

Lemma unquote_from_unfold (c : ascii) (rest : string) :
  jsonscan.unquote_from (String c rest) 0
  = (jsonscan.unquote_rune (String c rest)).1
    +:+ jsonscan.unquote_from
          (jsonscan.string_drop ((jsonscan.unquote_rune (String c rest)).2 - 1) rest) 0.
Proof.
  cbn [jsonscan.unquote_from].
  destruct (jsonscan.unquote_rune (String c rest)) as [out n]. cbn [fst snd].
  rewrite unquote_from_skip. reflexivity.
Qed.

(** ** What [appendString] writes for one rune *)

Lemma escape_rune_ascii (c : ascii) (rest : string) :
  (N_of_ascii c <? 128)%N = true ->
  accepts (json.escape_rune (String c rest)) /\
  forall Y,
    jsonscan.unquote_rune (json.escape_rune (String c rest) +:+ Y)
    = (String c EmptyString, String.length (json.escape_rune (String c rest))) /\
    (1 <= String.length (json.escape_rune (String c rest)))%nat.
Proof.
  intros Hc.
  destruct c as [[] [] [] [] [] [] [] []]; try (vm_compute in Hc; discriminate Hc);
    (split; [intros toks acc; reflexivity | intros Y; split; [reflexivity | vm_compute; lia]]).
Qed.

Lemma not_rune_error_1 (r : N) (n : nat) :
  (2 <= n)%nat -> ((r =? utf8.RuneError)%N && (n =? 1)%nat) = false.
Proof.
  intros Hn. destruct (Nat.eqb_spec n 1) as [->|_]; [lia|]. apply andb_false_r.
Qed.

(** What [appendString] writes for a rune outside ASCII: the scanner
    accepts it, and it is not empty. *)
Lemma escape_rune_high_accepts (c : ascii) (rest : string) :
  (128 <= N_of_ascii c)%N ->
  accepts (json.escape_rune (String c rest)) /\
  (1 <= String.length (json.escape_rune (String c rest)))%nat.
Proof.
  intros Hc. unfold json.escape_rune, utf8.RuneSelf.
  rewrite (proj2 (N.ltb_ge _ _) Hc).
  destruct (utf8_decode_cases c rest Hc)
    as [Hinv | (r & pre & rest' & Hs & Hlen & Hhigh & Henc & Hdec)].
  - rewrite Hinv. split; [intros toks acc; reflexivity | vm_compute; lia].
  - rewrite Hs, Hdec, (not_rune_error_1 _ _ (proj1 Hlen)).
    destruct (r =? 8232)%N; [split; [intros toks acc; reflexivity | vm_compute; lia]|].
    destruct (r =? 8233)%N; [split; [intros toks acc; reflexivity | vm_compute; lia]|].
    rewrite substring_app. split; [apply accepts_high, Hhigh | lia].
Qed.

(** For a well-formed rune outside ASCII, [unquote] reads what
    [appendString] wrote and writes the bytes of the rune. *)
Lemma escape_rune_high_unquote (c : ascii) (rest : string) :
  (128 <= N_of_ascii c)%N ->
  utf8.DecodeRuneInString (String c rest) <> (utf8.RuneError, 1%nat) ->
  exists pre rest',
    String c rest = pre +:+ rest' /\
    json.rune_width (String c rest) = String.length pre /\
    forall Y,
      jsonscan.unquote_rune (json.escape_rune (String c rest) +:+ Y)
      = (pre, String.length (json.escape_rune (String c rest))).
Proof.
  intros Hc Hvalid.
  destruct (utf8_decode_cases c rest Hc)
    as [Hinv | (r & pre & rest' & Hs & Hlen & Hhigh & Henc & Hdec)]; [contradiction|].
  exists pre, rest'. split; [exact Hs|]. split.
  { unfold json.rune_width. rewrite Hs, Hdec. reflexivity. }
  intros Y. unfold json.escape_rune, utf8.RuneSelf.
  rewrite (proj2 (N.ltb_ge _ _) Hc).
  rewrite Hs, Hdec, (not_rune_error_1 _ _ (proj1 Hlen)).
  destruct (N.eqb_spec r 8232) as [->|_];
    [rewrite <- Henc; vm_compute; reflexivity|].
  destruct (N.eqb_spec r 8233) as [->|_];
    [rewrite <- Henc; vm_compute; reflexivity|].
  rewrite substring_app.
  destruct pre as [|c' pre']; [cbn in Hlen; lia|].
  assert (c' = c) as -> by (rewrite append_cons in Hs; congruence).
  rewrite append_cons. unfold jsonscan.unquote_rune.
  rewrite (proj2 (Ascii.eqb_neq c json.backslash))
    by (apply high_not_ascii; [exact Hc | vm_compute; reflexivity]).
  unfold jsonscan.code, utf8.RuneSelf. rewrite (proj2 (N.ltb_ge _ _) Hc).
  rewrite <- append_cons, Hdec, Henc. reflexivity.
Qed.

(** ** [appendString] and [unquote] on whole strings *)

Lemma string_length_ind (P : string -> Prop) :
  (forall s, (forall t, (String.length t < String.length s)%nat -> P t) -> P s) ->
  forall s, P s.
Proof.
  intros Hstep s. remember (String.length s) as n eqn:Hn.
  revert s Hn. induction n as [n IH] using lt_wf_ind. intros s ->.
  apply Hstep. intros t Ht. apply (IH _ Ht t eq_refl).
Qed.

Lemma drop_rune_shorter (c : ascii) (rest : string) :
  (String.length (jsonscan.string_drop (json.rune_width (String c rest)) (String c rest))
   < String.length (String c rest))%nat.
Proof.
  rewrite string_drop_length. pose proof (rune_width_pos c rest). lia.
Qed.

(** The scanner accepts whatever [appendString] writes between the
    quotes. *)
Lemma escape_accepted (s : string) : accepts (json.escape_from s 0).
Proof.
  induction s as [s IH] using string_length_ind.
  destruct s as [|c rest]; [apply accepts_nil|].
  rewrite escape_from_unfold. apply accepts_app; [|apply IH, drop_rune_shorter].
  destruct (N.lt_ge_cases (N_of_ascii c) 128) as [Hc|Hc].
  - apply escape_rune_ascii, N.ltb_lt, Hc.
  - apply escape_rune_high_accepts, Hc.
Qed.

(** [unquote] undoes [appendString] on valid UTF-8. *)
Lemma unquote_escape (s : string) :
  utf8.ValidString s = true -> jsonscan.unquote (json.escape_from s 0) = s.
Proof.
  unfold utf8.ValidString, jsonscan.unquote.
  induction s as [s IH] using string_length_ind. intros Hvalid.
  destruct s as [|c rest]; [reflexivity|].
  rewrite escape_from_unfold.
  cbn [utf8.valid_from] in Hvalid.
  destruct (utf8.DecodeRuneInString (String c rest)) as [r size] eqn:Hdecode.
  destruct ((r =? utf8.RuneError)%N && (size =? 1)%nat) eqn:Hbad; [discriminate|].
  rewrite valid_from_skip in Hvalid.
  assert (size = json.rune_width (String c rest)) as Hsize
    by (unfold json.rune_width; rewrite Hdecode; reflexivity).
  rewrite Hsize, (string_drop_pred _ c) in Hvalid by apply rune_width_pos.
  specialize (IH _ (drop_rune_shorter c rest) Hvalid).
  set (tail := jsonscan.string_drop _ _) in *.
  assert (exists pre,
            String c rest = pre +:+ tail /\
            (1 <= String.length (json.escape_rune (String c rest)))%nat /\
            forall Y,
              jsonscan.unquote_rune (json.escape_rune (String c rest) +:+ Y)
              = (pre, String.length (json.escape_rune (String c rest))))
    as (pre & Hs & Hlen & Hunq).
  { destruct (N.lt_ge_cases (N_of_ascii c) 128) as [Hc|Hc].
    - exists (String c EmptyString). subst tail.
      rewrite rune_width_ascii by exact Hc.
      pose proof (escape_rune_ascii c rest (proj2 (N.ltb_lt _ _) Hc)) as [_ Hy].
      split; [reflexivity|]. split; [apply (Hy EmptyString) | intros Y; apply Hy].
    - destruct (escape_rune_high_unquote c rest Hc) as (pre & rest' & Hs & Hw & Hunq).
      { rewrite Hdecode. intros [= -> ->]. discriminate. }
      exists pre. subst tail. rewrite Hw. rewrite Hs at 2. rewrite string_drop_app.
      split; [exact Hs|]. split; [apply escape_rune_high_accepts, Hc | exact Hunq]. }
  destruct (json.escape_rune (String c rest)) as [|e piece] eqn:Hpiece;
    [cbn in Hlen; lia|].
  rewrite append_cons, unquote_from_unfold, <- append_cons, Hunq. cbn [fst snd].
  cbn [String.length]. rewrite Nat.sub_succ, Nat.sub_0_r.
  rewrite string_drop_app, IH. symmetry. exact Hs.
Qed.

(** ** Plain text: what [appendString] leaves as it is *)

Lemma htmlSafe_ascii (b : N) : json.htmlSafe b = true -> (b < 128)%N.
Proof. unfold json.htmlSafe. intros H. bool_cases. assumption. Qed.

Lemma escape_plain (s : string) : plain s -> json.escape_from s 0 = s.
Proof.
  induction s as [|c rest IH]; intros Hplain; [reflexivity|].
  inversion Hplain as [|c' l Hc Hrest]; subst.
  pose proof (htmlSafe_ascii _ Hc) as Hlt.
  rewrite escape_from_unfold, rune_width_ascii by exact Hlt.
  cbn [jsonscan.string_drop]. rewrite (IH Hrest).
  unfold json.escape_rune, utf8.RuneSelf. rewrite (proj2 (N.ltb_lt _ _) Hlt), Hc.
  reflexivity.
Qed.

Lemma valid_plain (s : string) : plain s -> utf8.ValidString s = true.
Proof.
  unfold utf8.ValidString.
  induction s as [|c rest IH]; intros Hplain; [reflexivity|].
  inversion Hplain as [|c' l Hc Hrest]; subst.
  pose proof (htmlSafe_ascii _ Hc) as Hlt.
  cbn [utf8.valid_from]. unfold utf8.DecodeRuneInString, utf8.RuneSelf.
  rewrite (proj2 (N.ltb_lt _ _) Hlt).
  destruct (N.eqb_spec (N_of_ascii c) utf8.RuneError) as [E|_];
    [unfold utf8.RuneError in E; lia|].
  cbn [andb Nat.sub]. apply IH, Hrest.
Qed.

Lemma accepts_plain (s : string) : plain s -> accepts s.
Proof. intros Hplain. rewrite <- (escape_plain s Hplain). apply escape_accepted. Qed.

Lemma unquote_plain (s : string) : plain s -> jsonscan.unquote s = s.
Proof.
  intros Hplain. rewrite <- (escape_plain s Hplain) at 1.
  apply unquote_escape, valid_plain, Hplain.
Qed.

Lemma std_encodeChar_plain (v : N) :
  (v < 64)%N -> json.htmlSafe (N_of_ascii (base64.encodeChar base64.StdEncoding v)) = true.
Proof.
  apply (below_64 (fun v => json.htmlSafe
                              (N_of_ascii (base64.encodeChar base64.StdEncoding v)))).
  vm_compute. reflexivity.
Qed.

(** The standard base64 text of a byte string is plain. *)
Lemma base64_std_plain (bs : list byte) :
  plain (base64.EncodeToString base64.StdEncoding bs).
Proof.
  unfold plain. induction bs as [|a|a b|a b c rest IH] using list_ind3.
  - constructor.
  - pose proof (sextet_bounds a a) as (H0 & _ & _ & _ & H1 & _).
    change (base64.EncodeToString base64.StdEncoding [a])
      with (String (base64.encodeChar base64.StdEncoding (Byte.to_N a / 4))
              (String (base64.encodeChar base64.StdEncoding (Byte.to_N a mod 4 * 16)) "==")).
    repeat (constructor; try (apply std_encodeChar_plain; assumption)).
  - pose proof (sextet_bounds a b) as (H0 & H1 & _).
    pose proof (sextet_bounds b b) as (_ & _ & _ & _ & _ & H2).
    change (base64.EncodeToString base64.StdEncoding [a; b])
      with (String (base64.encodeChar base64.StdEncoding (Byte.to_N a / 4))
              (String (base64.encodeChar base64.StdEncoding
                         (Byte.to_N a mod 4 * 16 + Byte.to_N b / 16))
                 (String (base64.encodeChar base64.StdEncoding (Byte.to_N b mod 16 * 4))
                    "="))).
    repeat (constructor; try (apply std_encodeChar_plain; assumption)).
  - pose proof (sextet_bounds a b) as (H0 & H1 & _).
    pose proof (sextet_bounds b c) as (_ & _ & H2 & _).
    pose proof (sextet_bounds c c) as (_ & _ & _ & H3 & _).
    cbn [base64.EncodeToString list_ascii_of_string].
    repeat (constructor; try (apply std_encodeChar_plain; assumption)).
    exact IH.
Qed.

(** ** The tokens of a marshalled envelope *)

Lemma text_rev (raw : string) : jsonscan.text (rev (list_ascii_of_string raw) ++ []) = raw.
Proof.
  unfold jsonscan.text. rewrite app_nil_r, rev_involutive.
  apply string_of_list_ascii_of_string.
Qed.

(** A string literal whose inside the scanner accepts is one token, the
    unquoted text. *)
Lemma run_literal (raw rest : string) (toks : list jsonscan.token) :
  accepts raw ->
  jsonscan.run (json.q +:+ raw +:+ json.q +:+ rest) (toks, jsonscan.Idle)
  = jsonscan.run rest (jsonscan.TString (jsonscan.unquote raw) :: toks, jsonscan.Idle).
Proof.
  intros Hacc.
  change (json.q +:+ raw +:+ json.q +:+ rest)
    with (String json.quote (raw +:+ String json.quote rest)).
  cbn [jsonscan.run]. change (jsonscan.step (toks, jsonscan.Idle) json.quote)
    with (Some (toks, jsonscan.InString [] jsonscan.SNormal)).
  cbv beta iota. rewrite run_app, Hacc. cbn [mbind option_bind jsonscan.run jsonscan.step].
  rewrite Ascii.eqb_refl, text_rev. reflexivity.
Qed.

Lemma run_key_id (rest : string) (toks : list jsonscan.token) :
  jsonscan.run ("{" +:+ json.q +:+ "key_id" +:+ json.q +:+ ":" +:+ rest) (toks, jsonscan.Idle)
  = jsonscan.run rest
      (jsonscan.TColon :: jsonscan.TString "key_id" :: jsonscan.TLBrace :: toks, jsonscan.Idle).
Proof. reflexivity. Qed.

Lemma run_alg (rest : string) (toks : list jsonscan.token) :
  jsonscan.run ("," +:+ json.q +:+ "alg" +:+ json.q +:+ ":" +:+ rest) (toks, jsonscan.Idle)
  = jsonscan.run rest
      (jsonscan.TColon :: jsonscan.TString "alg" :: jsonscan.TComma :: toks, jsonscan.Idle).
Proof. reflexivity. Qed.

Lemma run_data (rest : string) (toks : list jsonscan.token) :
  jsonscan.run ("," +:+ json.q +:+ "data" +:+ json.q +:+ ":" +:+ rest) (toks, jsonscan.Idle)
  = jsonscan.run rest
      (jsonscan.TColon :: jsonscan.TString "data" :: jsonscan.TComma :: toks, jsonscan.Idle).
Proof. reflexivity. Qed.

Lemma run_nonce (rest : string) (toks : list jsonscan.token) :
  jsonscan.run ("," +:+ json.q +:+ "nonce" +:+ json.q +:+ ":" +:+ rest) (toks, jsonscan.Idle)
  = jsonscan.run rest
      (jsonscan.TColon :: jsonscan.TString "nonce" :: jsonscan.TComma :: toks, jsonscan.Idle).
Proof. reflexivity. Qed.

Lemma encodeByteSlice_nonempty (b : list byte) :
  b <> [] ->
  json.encodeByteSlice b = json.q +:+ base64.EncodeToString base64.StdEncoding b +:+ json.q.
Proof. destruct b; [congruence | reflexivity]. Qed.

(** A marshalled envelope with data and a nonce scans to seventeen
    tokens. *)
Lemma tokens_Marshal (es : EncryptedString) :
  Data es <> [] -> Nonce es <> [] ->
  jsonscan.tokens (json_Marshal es)
  = Some [jsonscan.TLBrace;
          jsonscan.TString "key_id"; jsonscan.TColon;
          jsonscan.TString (jsonscan.unquote (json.escape_from (KeyID es) 0));
          jsonscan.TComma;
          jsonscan.TString "alg"; jsonscan.TColon;
          jsonscan.TString (jsonscan.unquote (json.escape_from (Algorithm es) 0));
          jsonscan.TComma;
          jsonscan.TString "data"; jsonscan.TColon;
          jsonscan.TString (base64.EncodeToString base64.StdEncoding (Data es));
          jsonscan.TComma;
          jsonscan.TString "nonce"; jsonscan.TColon;
          jsonscan.TString (base64.EncodeToString base64.StdEncoding (Nonce es));
          jsonscan.TRBrace].
Proof.
  intros Hdata Hnonce. unfold jsonscan.tokens, json_Marshal, json.appendString.
  rewrite (encodeByteSlice_nonempty _ Hdata).
  destruct (Nonce es) as [|n0 nonce] eqn:Hn; [congruence|].
  rewrite (encodeByteSlice_nonempty (n0 :: nonce)) by discriminate.
  rewrite !string_app_assoc.
  rewrite run_key_id, (run_literal _ _ _ (escape_accepted _)).
  rewrite run_alg, (run_literal _ _ _ (escape_accepted _)).
  rewrite run_data, (run_literal _ _ _ (accepts_plain _ (base64_std_plain _))).
  rewrite run_nonce, (run_literal _ _ _ (accepts_plain _ (base64_std_plain _))).
  rewrite !(unquote_plain _ (base64_std_plain _)).
  reflexivity.
Qed.

(** ** Parsing a serialized envelope *)

Lemma decode_member_key_id (es : EncryptedString) (v : jsonscan.value) :
  decode_member es ("key_id", v)
  = s ← decode_string v (KeyID es);
    Some {| KeyID := s; Algorithm := Algorithm es; Data := Data es; Nonce := Nonce es |}.
Proof. reflexivity. Qed.

Lemma decode_member_alg (es : EncryptedString) (v : jsonscan.value) :
  decode_member es ("alg", v)
  = s ← decode_string v (Algorithm es);
    Some {| KeyID := KeyID es; Algorithm := s; Data := Data es; Nonce := Nonce es |}.
Proof. reflexivity. Qed.

Lemma decode_member_data (es : EncryptedString) (v : jsonscan.value) :
  decode_member es ("data", v)
  = b ← decode_bytes v;
    Some {| KeyID := KeyID es; Algorithm := Algorithm es; Data := b; Nonce := Nonce es |}.
Proof. reflexivity. Qed.

Lemma decode_member_nonce (es : EncryptedString) (v : jsonscan.value) :
  decode_member es ("nonce", v)
  = b ← decode_bytes v;
    Some {| KeyID := KeyID es; Algorithm := Algorithm es; Data := Data es; Nonce := b |}.
Proof. reflexivity. Qed.

(** Unmarshalling a marshalled envelope with data and a nonce: the key id
    and the algorithm come back as [unquote] reads what [appendString]
    wrote, the data and the nonce come back as they were. *)
Lemma Unmarshal_Marshal (es : EncryptedString) :
  Data es <> [] -> Nonce es <> [] ->
  json_Unmarshal (json_Marshal es)
  = Some {| KeyID := jsonscan.unquote (json.escape_from (KeyID es) 0);
            Algorithm := jsonscan.unquote (json.escape_from (Algorithm es) 0);
            Data := Data es;
            Nonce := Nonce es |}.
Proof.
  intros Hdata Hnonce. unfold json_Unmarshal, jsonscan.parse.
  rewrite (tokens_Marshal es Hdata Hnonce).
  cbn [length Nat.mul Nat.add jsonscan.parse_value jsonscan.parse_elements
       jsonscan.parse_members N.leb jsonscan.maxNestingDepth N.compare N.succ
       Pos.compare Pos.compare_cont Pos.succ rev app].
  cbn [decode_members].
  rewrite decode_member_key_id. cbn [decode_string mbind option_bind].
  rewrite decode_member_alg. cbn [decode_string mbind option_bind].
  rewrite decode_member_data. cbn [decode_bytes mbind option_bind Algorithm KeyID Data Nonce].
  rewrite base64_std_DecodeString_EncodeToString. cbn [mbind option_bind].
  rewrite decode_member_nonce. cbn [decode_bytes mbind option_bind Algorithm KeyID Data Nonce].
  rewrite base64_std_DecodeString_EncodeToString. reflexivity.
Qed.

Lemma IsValid_fields (es : EncryptedString) :
  IsValid es = true ->
  KeyID es <> EmptyString /\ Data es <> [] /\ Nonce es <> [] /\
  Algorithm es = "aes-gcm-hkdf".
Proof.
  unfold IsValid. intros H.
  apply andb_true_iff in H as [H Halg]. apply andb_true_iff in H as [H Hnonce].
  apply andb_true_iff in H as [Hkey Hdata].
  apply String.eqb_eq in Halg. apply Nat.ltb_lt in Hdata, Hnonce.
  repeat split; try assumption.
  - destruct (KeyID es); [discriminate | congruence].
  - destruct (Data es); [cbn in Hdata; lia | congruence].
  - destruct (Nonce es); [cbn in Hnonce; lia | congruence].
Qed.

Lemma Marshal_prefix (es : EncryptedString) : String.prefix "{" (json_Marshal es) = true.
Proof. reflexivity. Qed.

(** C8, as amended.  For every valid envelope whose key id is valid UTF-8,
    serializing it and parsing the string yields the envelope back; and
    for every string, parsing returns an envelope or absent (it never
    throws): absent exactly when the string does not start with the
    opening brace, or does not unmarshal, or unmarshals to an envelope that
    fails the validity invariant; an envelope it returns is valid. *)
Theorem ParseEncryptedString_String :
  (forall es : EncryptedString,
     IsValid es = true -> utf8.ValidString (KeyID es) = true ->
     ParseEncryptedString (String_ es) = Some es) /\
  (forall str : string,
     ParseEncryptedString str = None <->
     String.prefix "{" str = false \/ json_Unmarshal str = None \/
     exists es, json_Unmarshal str = Some es /\ IsValid es = false) /\
  (forall (str : string) (es : EncryptedString),
     ParseEncryptedString str = Some es ->
     IsValid es = true /\ String.prefix "{" str = true /\ json_Unmarshal str = Some es).
Proof.
  split; [|split].
  - intros es Hvalid Hutf8.
    destruct (IsValid_fields es Hvalid) as (Hkey & Hdata & Hnonce & Halg).
    unfold ParseEncryptedString, String_.
    rewrite Marshal_prefix, (Unmarshal_Marshal es Hdata Hnonce). cbn [negb].
    rewrite (unquote_escape _ Hutf8), Halg.
    change (jsonscan.unquote (json.escape_from "aes-gcm-hkdf" 0)) with "aes-gcm-hkdf".
    rewrite <- Halg.
    replace {| KeyID := KeyID es; Algorithm := Algorithm es; Data := Data es;
               Nonce := Nonce es |} with es by (destruct es; reflexivity).
    rewrite Hvalid. reflexivity.
  - intros str. unfold ParseEncryptedString.
    destruct (String.prefix "{" str); cbn [negb].
    + destruct (json_Unmarshal str) as [es|].
      * destruct (IsValid es) eqn:Hv; cbn [negb].
        -- split; [discriminate|]. intros [H | [H | (es' & [= <-] & H)]]; congruence.
        -- split; [|reflexivity]. intros _. right. right. eauto.
      * split; [|reflexivity]. intros _. right. left. reflexivity.
    + split; [|reflexivity]. intros _. left. reflexivity.
  - intros str es. unfold ParseEncryptedString.
    destruct (String.prefix "{" str); cbn [negb]; [|discriminate].
    destruct (json_Unmarshal str) as [es'|]; [|discriminate].
    destruct (IsValid es') eqn:Hv; cbn [negb]; [|discriminate].
    intros [= <-]. repeat split. exact Hv.
Qed.

(** A valid envelope with the key id ["k1"]. *)
Lemma ParseEncryptedString_String_witness :
  ParseEncryptedString (String_ sample_envelope) = Some sample_envelope.
Proof.
  apply (proj1 ParseEncryptedString_String sample_envelope); vm_compute; reflexivity.
Defined.

(** C8 as stated fails: a valid envelope whose key id is not valid UTF-8
    does not come back; [json.Marshal] writes the byte 0xff as the
    escape of U+FFFD. *)
Lemma invalid_utf8_key_id_not_restored :
  IsValid odd_envelope = true /\
  String_ odd_envelope
  = ("{" +:+ json.q +:+ "key_id" +:+ json.q +:+ ":" +:+ json.q
     +:+ String json.backslash "ufffd" +:+ json.q
     +:+ "," +:+ json.q +:+ "alg" +:+ json.q +:+ ":" +:+ json.q +:+ "aes-gcm-hkdf" +:+ json.q
     +:+ "," +:+ json.q +:+ "data" +:+ json.q +:+ ":" +:+ json.q +:+ "AQL/" +:+ json.q
     +:+ "," +:+ json.q +:+ "nonce" +:+ json.q +:+ ":" +:+ json.q +:+ "qrvM3e7/ABEiM0RV"
     +:+ json.q +:+ "}") /\
  ParseEncryptedString (String_ odd_envelope) = Some coerced_envelope /\
  coerced_envelope <> odd_envelope.
Proof. repeat split; try (vm_compute; reflexivity). discriminate. Qed.

(** * The other functions of the package *)

(** ** The further library models against test vectors *)

(** FIPS 180-4, SHA-224 of the one-block message and of the empty one. *)
Example sha224_abc :
  hex.EncodeToString (sha256.Sum224 (bytes_of "abc"))
  = "23097d223405d8228642a477bda255b32aadbce4bda0b3f7e36c9da7".
Proof. vm_compute. reflexivity. Qed.

Example sha224_empty :
  hex.EncodeToString (sha256.Sum224 [])
  = "d14a028c2a3a2bc9476102bb288234c415a2b01f828ea62ac5b3e42f".
Proof. vm_compute. reflexivity. Qed.

(** RFC 4648, section 10, without the padding. *)
Example base32_rfc4648 :
  map (fun s => base32.EncodeToString (bytes_of s))
    ["f"; "fo"; "foo"; "foob"; "fooba"; "foobar"]
  = ["MY"; "MZXQ"; "MZXW6"; "MZXW6YQ"; "MZXW6YTB"; "MZXW6YTBOI"].
Proof. vm_compute. reflexivity. Qed.

Example hex_decode :
  hex.DecodeString "00Ff7a" = (hex "00ff7a", None) /\
  hex.DecodeString "00f" = (hex "00", Some hex.ErrLength) /\
  hex.DecodeString "0g" = ([], Some (hex.InvalidByteError "g")) /\
  hex.DecodeString "g" = ([], Some (hex.InvalidByteError "g")).
Proof. repeat split. Qed.

Example strconv_Itoa :
  map strconv.Itoa [0; 7; 10; 18; 999999; -42; 9223372036854775807]%Z
  = ["0"; "7"; "10"; "18"; "999999"; "-42"; "9223372036854775807"].
Proof. vm_compute. reflexivity. Qed.

Example fmt_Sprintf_width :
  fmt.Sprintf "%05v" "42" = Some "00042" /\ fmt.Sprintf "%00v" "42" = Some "42" /\
  fmt.Sprintf "%010v" "42" = Some "0000000042" /\ fmt.Sprintf "%02v" "4242" = Some "4242".
Proof. vm_compute. repeat split. Qed.

(** A bound of 1000 takes two bytes and two bits of the first: the bytes
    fb fc give 1020, which is refused, and fd fe give 510. *)
Example rand_Int_rejects :
  rand.Int 5 (fun i => byte_of_z (Z.of_nat i + 251)) 1000 = Some (Ok 510%Z) /\
  rand.Int 5 (fun _ => byte_of_z 255) 1000 = None.
Proof. vm_compute. repeat split. Qed.

(** ** Random tokens *)

Lemma rawurl_decodeMap_encodeChar (v : N) :
  (v < 64)%N ->
  base64.decodeMap base64.RawURLEncoding (base64.encodeChar base64.RawURLEncoding v) = Some v.
Proof.
  intros Hv.
  apply (below_64 (fun v => bool_decide
           (base64.decodeMap base64.RawURLEncoding
              (base64.encodeChar base64.RawURLEncoding v) = Some v))) in Hv.
  - apply bool_decide_eq_true_1 in Hv. exact Hv.
  - vm_compute. reflexivity.
Qed.

Lemma rawurl_encodeChar_alphabet (v : N) :
  (v < 64)%N ->
  In (base64.encodeChar base64.RawURLEncoding v) (list_ascii_of_string base64.encodeURL).
Proof.
  intros Hv.
  apply (below_64 (fun v => bool_decide
           (In (base64.encodeChar base64.RawURLEncoding v)
              (list_ascii_of_string base64.encodeURL)))) in Hv.
  - apply bool_decide_eq_true_1 in Hv. exact Hv.
  - vm_compute. reflexivity.
Qed.

(** Decoding the unpadded URL-safe encoding of a byte string gives it
    back. *)
Lemma base64_rawurl_DecodeString_EncodeToString (bs : list byte) :
  base64.DecodeString base64.RawURLEncoding
    (base64.EncodeToString base64.RawURLEncoding bs) = Some bs.
Proof.
  unfold base64.DecodeString. induction bs as [|a|a b|a b c rest IH] using list_ind3.
  - reflexivity.
  - pose proof (sextet_bounds a a) as (H0 & _ & _ & _ & H1 & _).
    change (base64.EncodeToString base64.RawURLEncoding [a])
      with (String (base64.encodeChar base64.RawURLEncoding (Byte.to_N a / 4))
              (String (base64.encodeChar base64.RawURLEncoding (Byte.to_N a mod 4 * 16))
                 EmptyString)).
    cbn [base64.decode]. rewrite (rawurl_decodeMap_encodeChar _ H0). cbn [app].
    rewrite (rawurl_decodeMap_encodeChar _ H1). cbn [app base64.padChar base64.RawURLEncoding].
    rewrite base64_regroup1. reflexivity.
  - pose proof (sextet_bounds a b) as (H0 & H1 & _).
    pose proof (sextet_bounds b b) as (_ & _ & _ & _ & _ & H2).
    change (base64.EncodeToString base64.RawURLEncoding [a; b])
      with (String (base64.encodeChar base64.RawURLEncoding (Byte.to_N a / 4))
              (String (base64.encodeChar base64.RawURLEncoding
                         (Byte.to_N a mod 4 * 16 + Byte.to_N b / 16))
                 (String (base64.encodeChar base64.RawURLEncoding (Byte.to_N b mod 16 * 4))
                    EmptyString))).
    cbn [base64.decode]. rewrite (rawurl_decodeMap_encodeChar _ H0). cbn [app].
    rewrite (rawurl_decodeMap_encodeChar _ H1). cbn [app].
    rewrite (rawurl_decodeMap_encodeChar _ H2). cbn [app base64.padChar base64.RawURLEncoding].
    rewrite base64_regroup2. reflexivity.
  - pose proof (sextet_bounds a b) as (H0 & H1 & _).
    pose proof (sextet_bounds b c) as (_ & _ & H2 & _).
    pose proof (sextet_bounds c c) as (_ & _ & _ & H3 & _).
    cbn [base64.EncodeToString].
    rewrite (base64_decode_quantum _ _ _ _ _ _ _ _ _ _
               (rawurl_decodeMap_encodeChar _ H0) (rawurl_decodeMap_encodeChar _ H1)
               (rawurl_decodeMap_encodeChar _ H2) (rawurl_decodeMap_encodeChar _ H3)).
    rewrite IH, base64_regroup. reflexivity.
Qed.

Lemma base64_rawurl_alphabet (bs : list byte) :
  Forall (fun c => In c (list_ascii_of_string base64.encodeURL))
    (list_ascii_of_string (base64.EncodeToString base64.RawURLEncoding bs)).
Proof.
  induction bs as [|a|a b|a b c rest IH] using list_ind3.
  - constructor.
  - pose proof (sextet_bounds a a) as (H0 & _ & _ & _ & H1 & _).
    repeat (constructor; [apply rawurl_encodeChar_alphabet; assumption|]). constructor.
  - pose proof (sextet_bounds a b) as (H0 & H1 & _).
    pose proof (sextet_bounds b b) as (_ & _ & _ & _ & _ & H2).
    repeat (constructor; [apply rawurl_encodeChar_alphabet; assumption|]). constructor.
  - pose proof (sextet_bounds a b) as (H0 & H1 & _).
    pose proof (sextet_bounds b c) as (_ & _ & H2 & _).
    pose proof (sextet_bounds c c) as (_ & _ & _ & H3 & _).
    cbn [base64.EncodeToString list_ascii_of_string].
    repeat (constructor; [apply rawurl_encodeChar_alphabet; assumption|]). exact IH.
Qed.

(** X7. [SecureToken] returns 22 characters of the URL-safe alphabet, and
    they decode (unpadded URL-safe base64) to the 16 bytes read from the
    random source: tokens are equal only when those bytes are. *)
Theorem SecureToken_spec (rand_Reader rand_Reader' : Rand) :
  String.length (SecureToken rand_Reader) = 22%nat /\
  Forall (fun c => In c (list_ascii_of_string base64.encodeURL))
    (list_ascii_of_string (SecureToken rand_Reader)) /\
  base64.DecodeString base64.RawURLEncoding (SecureToken rand_Reader)
  = Some (rand_ReadFull rand_Reader 16) /\
  (SecureToken rand_Reader = SecureToken rand_Reader' ->
   rand_ReadFull rand_Reader 16 = rand_ReadFull rand_Reader' 16).
Proof.
  unfold SecureToken. split; [reflexivity|]. split; [apply base64_rawurl_alphabet|].
  split; [apply base64_rawurl_DecodeString_EncodeToString|].
  intros Heq.
  pose proof (base64_rawurl_DecodeString_EncodeToString (rand_ReadFull rand_Reader 16)) as H1.
  rewrite Heq, base64_rawurl_DecodeString_EncodeToString in H1. congruence.
Qed.

(** ** Random alphanumeric strings *)

Lemma list_ind5 {A} (P : list A -> Prop) :
  (forall l, (length l < 5)%nat -> P l) ->
  (forall a b c d e rest, P rest -> P (a :: b :: c :: d :: e :: rest)) ->
  forall l, P l.
Proof.
  intros Hshort Hstep.
  fix IH 1. intros [|a [|b [|c [|d [|e rest]]]]]; try (apply Hshort; simpl; lia).
  apply Hstep, IH.
Qed.

Lemma string_of_list_ascii_length (l : list ascii) :
  String.length (string_of_list_ascii l) = length l.
Proof. induction l as [|c l IH]; [reflexivity | simpl; rewrite IH; reflexivity]. Qed.

Lemma base32_unpack_length (src : list byte) : length (base32.unpack src) = 8%nat.
Proof. reflexivity. Qed.

Lemma base32_EncodeToString_length (src : list byte) :
  String.length (base32.EncodeToString src) = base32.EncodedLen (length src).
Proof.
  induction src as [src Hshort|a b c d e rest IH] using list_ind5.
  - destruct src as [|a [|b [|c [|d [|e rest]]]]]; try reflexivity. simpl in Hshort. lia.
  - cbn [base32.EncodeToString]. rewrite app_length_string, string_of_list_ascii_length.
    rewrite length_map, base32_unpack_length, IH.
    unfold base32.EncodedLen. cbn [length].
    replace (S (S (S (S (S (length rest)))))) with (length rest + 1 * 5)%nat by lia.
    rewrite Nat.div_add, Nat.Div0.mod_add by lia. lia.
Qed.

Lemma base32_lower_encodeChar (v : N) :
  In (strings.lower (base32.encodeChar v)) (list_ascii_of_string base32_lower).
Proof.
  unfold base32.encodeChar.
  assert (N.land v 31 < 32)%N as Hv.
  { change 31%N with (N.ones 5). rewrite N.land_ones. apply N.mod_lt. discriminate. }
  revert Hv. generalize (N.land v 31). intros w Hw.
  assert (forallb (fun n => bool_decide
            (In (strings.lower (default "000"%char (String.get n base32.encodeStd)))
               (list_ascii_of_string base32_lower))) (seq 0 32) = true) as Hall
    by (vm_compute; reflexivity).
  rewrite forallb_forall in Hall. specialize (Hall (N.to_nat w)).
  apply bool_decide_eq_true_1 in Hall; [exact Hall|]. apply in_seq. lia.
Qed.

Lemma ToLower_list (s : string) :
  list_ascii_of_string (strings.ToLower s) = map strings.lower (list_ascii_of_string s).
Proof. induction s as [|c s IH]; [reflexivity | simpl; rewrite IH; reflexivity]. Qed.

Lemma ToLower_length (s : string) : String.length (strings.ToLower s) = String.length s.
Proof. induction s as [|c s IH]; [reflexivity | simpl; rewrite IH; reflexivity]. Qed.

Lemma list_ascii_of_list (l : list ascii) :
  list_ascii_of_string (string_of_list_ascii l) = l.
Proof. apply list_ascii_of_string_of_list_ascii. Qed.

Lemma base32_lower_alphabet (src : list byte) :
  Forall (fun c => In c (list_ascii_of_string base32_lower))
    (list_ascii_of_string (strings.ToLower (base32.EncodeToString src))).
Proof.
  rewrite ToLower_list, Forall_map.
  induction src as [src Hshort|a b c d e rest IH] using list_ind5.
  - assert (forall l, Forall (fun c => In (strings.lower c) (list_ascii_of_string base32_lower))
              (map base32.encodeChar l)) as Hchars.
    { intros l. rewrite Forall_map. apply Forall_forall. intros v _.
      apply base32_lower_encodeChar. }
    destruct src as [|a [|b [|c [|d [|e rest]]]]];
      try (cbn [base32.EncodeToString]; rewrite list_ascii_of_list; apply Hchars).
    + constructor.
    + simpl in Hshort. lia.
  - cbn [base32.EncodeToString]. rewrite list_ascii_app, list_ascii_of_list.
    apply Forall_app. split; [|exact IH].
    rewrite Forall_map. apply Forall_forall. intros v _. apply base32_lower_encodeChar.
Qed.

Lemma substring_prefix_length (n : nat) (s : string) :
  (n <= String.length s)%nat -> String.length (substring 0 n s) = n.
Proof.
  revert n. induction s as [|c s IH]; intros [|n] Hn; simpl in *; try reflexivity; try lia.
  rewrite IH by lia. reflexivity.
Qed.

Lemma substring_prefix_Forall (P : ascii -> Prop) (n : nat) (s : string) :
  Forall P (list_ascii_of_string s) -> Forall P (list_ascii_of_string (substring 0 n s)).
Proof.
  revert n. induction s as [|c s IH]; intros [|n] Hall; simpl in *; try constructor.
  - inversion Hall; assumption.
  - apply IH. inversion Hall; assumption.
Qed.

Lemma int_wrap_small (z : Z) : (- 2 ^ 63 <= z < 2 ^ 63)%Z -> int_wrap z = z.
Proof. intros Hz. unfold int_wrap. rewrite Z.mod_small by lia. lia. Qed.



(** ** Hexadecimal text *)

Lemma string_ind2 (P : string -> Prop) :
  P EmptyString -> (forall c, P (String c EmptyString)) ->
  (forall c d rest, P rest -> P (String c (String d rest))) ->
  forall s, P s.
Proof.
  intros H0 H1 H2. fix IH 1. intros [|c [|d rest]]; [exact H0 | apply H1 |].
  apply H2, IH.
Qed.

Lemma below_16 (P : N -> bool) :
  forallb (fun n => P (N.of_nat n)) (seq 0 16) = true ->
  forall v, (v < 16)%N -> P v = true.
Proof.
  intros Hall v Hv. rewrite forallb_forall in Hall.
  specialize (Hall (N.to_nat v)). rewrite N2Nat.id in Hall.
  apply Hall, in_seq. lia.
Qed.

Lemma hex_digit_value (v : N) : (v < 16)%N -> hex.fromHexChar (hex.digit v) = Some v.
Proof.
  intros Hv.
  apply (below_16 (fun v => bool_decide (hex.fromHexChar (hex.digit v) = Some v))) in Hv.
  - apply bool_decide_eq_true_1 in Hv. exact Hv.
  - vm_compute. reflexivity.
Qed.

Lemma hex_digit_lower (v : N) :
  (v < 16)%N -> In (hex.digit v) (list_ascii_of_string hex.hextable).
Proof.
  intros Hv.
  apply (below_16 (fun v => bool_decide
           (In (hex.digit v) (list_ascii_of_string hex.hextable)))) in Hv.
  - apply bool_decide_eq_true_1 in Hv. exact Hv.
  - vm_compute. reflexivity.
Qed.

Lemma nibbles (b : byte) :
  (Byte.to_N b / 16 < 16 /\ Byte.to_N b mod 16 < 16 /\
   Byte.to_N b / 16 * 16 + Byte.to_N b mod 16 = Byte.to_N b)%N.
Proof.
  pose proof (Byte.to_N_bounded b).
  repeat split; zify; Z.to_euclidean_division_equations; lia.
Qed.

(** [%x] of a byte array writes what [hex.EncodeToString] writes. *)
Lemma Sprintf_x_hex (bs : list byte) : fmt.Sprintf_x bs = hex.EncodeToString bs.
Proof.
  induction bs as [|b bs IH]; [reflexivity|].
  cbn [fmt.Sprintf_x hex.EncodeToString]. rewrite IH.
  pose proof (nibbles b) as (Hhi & Hlo & _).
  rewrite N.shiftr_div_pow2. change (2 ^ 4)%N with 16%N.
  change 15%N with (N.ones 4). rewrite N.land_ones. change (2 ^ 4)%N with 16%N.
  assert (forall v, (v < 16)%N ->
            default "0"%char (String.get (N.to_nat v) fmt.ldigits) = hex.digit v) as Hd.
  { intros v Hv.
    apply (below_16 (fun v => bool_decide
             (default "0"%char (String.get (N.to_nat v) fmt.ldigits) = hex.digit v))) in Hv.
    - apply bool_decide_eq_true_1 in Hv. exact Hv.
    - vm_compute. reflexivity. }
  rewrite (Hd _ Hhi), (Hd _ Hlo). reflexivity.
Qed.

Lemma hex_EncodeToString_length (bs : list byte) :
  String.length (hex.EncodeToString bs) = (2 * length bs)%nat.
Proof. induction bs as [|b bs IH]; [reflexivity|]. simpl. rewrite IH. lia. Qed.

Lemma hex_EncodeToString_lower (bs : list byte) :
  Forall (fun c => In c (list_ascii_of_string hex.hextable))
    (list_ascii_of_string (hex.EncodeToString bs)).
Proof.
  induction bs as [|b bs IH]; [constructor|].
  pose proof (nibbles b) as (Hhi & Hlo & _).
  cbn [hex.EncodeToString list_ascii_of_string].
  constructor; [apply hex_digit_lower, Hhi|]. constructor; [apply hex_digit_lower, Hlo|].
  exact IH.
Qed.

(** Decoding the hexadecimal text of a byte string gives it back. *)
Lemma hex_DecodeString_EncodeToString (bs : list byte) :
  hex.DecodeString (hex.EncodeToString bs) = (bs, None).
Proof.
  induction bs as [|b bs IH]; [reflexivity|].
  pose proof (nibbles b) as (Hhi & Hlo & Hsum).
  cbn [hex.EncodeToString hex.DecodeString].
  rewrite (hex_digit_value _ Hhi), (hex_digit_value _ Hlo), IH, Hsum.
  rewrite base64_byte_of_N_to_N. reflexivity.
Qed.

(** [hex.DecodeString] returns without error exactly on an even number
    of hexadecimal digits, and then returns half as many bytes. *)
Lemma hex_DecodeString_ok (s : string) :
  (hex.DecodeString s).2 = None <->
  Forall is_hex_digit (list_ascii_of_string s) /\ Nat.even (String.length s) = true.
Proof.
  induction s as [|c|c d rest IH] using string_ind2.
  - split; [intros _; split; [constructor | reflexivity] | reflexivity].
  - cbn [hex.DecodeString]. destruct (hex.fromHexChar c); cbn; split;
      try discriminate; intros [_ Hlen]; discriminate.
  - cbn [hex.DecodeString list_ascii_of_string String.length Nat.even].
    destruct (hex.fromHexChar c) as [a|] eqn:Hc.
    + destruct (hex.fromHexChar d) as [b|] eqn:Hd.
      * destruct (hex.DecodeString rest) as [bs err]. cbn [fst snd] in *.
        rewrite IH. split.
        -- intros [Hall Hlen]. split; [|exact Hlen].
           constructor; [exists a; exact Hc|]. constructor; [exists b; exact Hd|]. exact Hall.
        -- intros [Hall Hlen]. split; [|exact Hlen].
           inversion Hall as [|? ? _ Hall']. inversion Hall'. assumption.
      * cbn. split; [discriminate|]. intros [Hall _].
        inversion Hall as [|? ? _ Hall']. inversion Hall' as [|? ? [? Hx] _]. congruence.
    + cbn. split; [discriminate|]. intros [Hall _].
      inversion Hall as [|? ? [? Hx] _]. congruence.
Qed.

Lemma hex_DecodeString_length (s : string) :
  (hex.DecodeString s).2 = None ->
  String.length s = (2 * length (hex.DecodeString s).1)%nat.
Proof.
  induction s as [|c|c d rest IH] using string_ind2.
  - reflexivity.
  - cbn [hex.DecodeString]. destruct (hex.fromHexChar c); discriminate.
  - cbn [hex.DecodeString String.length].
    destruct (hex.fromHexChar c) as [a|]; [|discriminate].
    destruct (hex.fromHexChar d) as [b|]; [|discriminate].
    destruct (hex.DecodeString rest) as [bs err]. cbn [fst snd length] in *.
    intros Herr. rewrite (IH Herr). lia.
Qed.

Lemma sha256_Sum224_length (msg : list byte) : length (sha256.Sum224 msg) = 28%nat.
Proof.
  unfold sha256.Sum224.
  destruct (fold_left sha256.compress _ sha256.init224). reflexivity.
Qed.

(** X9. [GenerateTokenHash] returns 56 lower-case hexadecimal digits: the
    text of the SHA-224 digest of the identifier followed by the code,
    which [hex.DecodeString] reads back. *)
Theorem GenerateTokenHash_spec (emailOrPhone otp : string) :
  String.length (GenerateTokenHash emailOrPhone otp) = 56%nat /\
  Forall (fun c => In c (list_ascii_of_string "0123456789abcdef"))
    (list_ascii_of_string (GenerateTokenHash emailOrPhone otp)) /\
  hex.DecodeString (GenerateTokenHash emailOrPhone otp)
  = (sha256.Sum224 (bytes_of emailOrPhone ++ bytes_of otp), None).
Proof.
  unfold GenerateTokenHash. rewrite Sprintf_x_hex.
  split; [|split].
  - rewrite hex_EncodeToString_length, sha256_Sum224_length. reflexivity.
  - apply hex_EncodeToString_lower.
  - rewrite hex_DecodeString_EncodeToString. do 2 f_equal.
    unfold bytes_of, list_byte_of_string. rewrite list_ascii_app, map_app. reflexivity.
Qed.

(** X10. The hash does not separate the identifier from the code: moving
    text from the end of the one to the start of the other leaves the
    hash as it is. *)
Theorem GenerateTokenHash_boundary (emailOrPhone moved otp : string) :
  GenerateTokenHash (emailOrPhone +:+ moved) otp
  = GenerateTokenHash emailOrPhone (moved +:+ otp).
Proof. unfold GenerateTokenHash. rewrite string_app_assoc. reflexivity. Qed.

(** ** The Ethereum signature stub *)

Lemma HasPrefix_0x (s : string) :
  strings.HasPrefix s "0x" = true -> s = "0x" +:+ jsonscan.string_drop 2 s.
Proof.
  unfold strings.HasPrefix. destruct s as [|c [|d rest]]; cbn [String.prefix];
    try discriminate.
  - destruct (ascii_dec "0" c); discriminate.
  - destruct (ascii_dec "0" c) as [<-|]; [|discriminate].
    destruct (ascii_dec "x" d) as [<-|]; [|discriminate]. reflexivity.
Qed.

Lemma removeHexPrefix_cases (s : string) :
  (strings.HasPrefix s "0x" = false /\ removeHexPrefix s = s) \/
  s = "0x" +:+ removeHexPrefix s.
Proof.
  unfold removeHexPrefix, strings.TrimPrefix.
  destruct (strings.HasPrefix s "0x") eqn:Hp; [right | left; split; reflexivity].
  apply HasPrefix_0x, Hp.
Qed.

Lemma removeHexPrefix_prefixed (s : string) : removeHexPrefix ("0x" +:+ s) = s.
Proof.
  rewrite !append_cons, append_nil_l.
  unfold removeHexPrefix, strings.TrimPrefix, strings.HasPrefix. cbn [String.prefix].
  destruct (ascii_dec "0" "0") as [_|Hne]; [|destruct Hne; reflexivity].
  destruct (ascii_dec "x" "x") as [_|Hne]; [|destruct Hne; reflexivity].
  destruct s; reflexivity.
Qed.

Lemma removeHexPrefix_hex (s : string) :
  Forall is_hex_digit (list_ascii_of_string s) -> removeHexPrefix s = s.
Proof.
  intros Hall. destruct (removeHexPrefix_cases s) as [[_ Heq]|Heq]; [exact Heq|].
  rewrite Heq in Hall. cbn [list_ascii_of_string] in Hall.
  rewrite !append_cons in Hall. cbn [list_ascii_of_string] in Hall.
  inversion Hall as [|? ? _ Hall']. inversion Hall' as [|? ? [v Hx] _].
  vm_compute in Hx. discriminate.
Qed.

(** X11. The stub accepts exactly the signatures that are 130
    hexadecimal digits (65 bytes), with or without one leading [0x], for
    every message: it involves neither the message nor a key or address. *)
Theorem VerifyEthereumSignature_accepts (message signature : string) :
  VerifyEthereumSignature message signature = None <->
  exists digits,
    (signature = digits \/ signature = "0x" +:+ digits) /\
    String.length digits = 130%nat /\
    Forall is_hex_digit (list_ascii_of_string digits).
Proof.
  unfold VerifyEthereumSignature.
  pose proof (hex_DecodeString_ok (removeHexPrefix signature)) as Hok.
  pose proof (hex_DecodeString_length (removeHexPrefix signature)) as Hhalf.
  split.
  - destruct (hex.DecodeString (removeHexPrefix signature)) as [sigBytes [err|]];
      [discriminate|].
    cbn [fst snd] in Hok, Hhalf. destruct (proj1 Hok eq_refl) as [Hall _].
    destruct (Nat.eqb_spec (length sigBytes) 65) as [H65|]; [|discriminate].
    intros _. exists (removeHexPrefix signature). split; [|split].
    + destruct (removeHexPrefix_cases signature) as [[_ Heq]|Heq]; [left | right]; congruence.
    + rewrite (Hhalf eq_refl). lia.
    + exact Hall.
  - intros (digits & Hsig & Hlen & Hall).
    assert (removeHexPrefix signature = digits) as Hstrip.
    { destruct Hsig as [->| ->]; [apply removeHexPrefix_hex, Hall|].
      apply removeHexPrefix_prefixed. }
    rewrite Hstrip in *.
    destruct (hex.DecodeString digits) as [sigBytes err]. cbn [fst snd] in Hok, Hhalf.
    assert (err = None) as -> by (apply Hok; rewrite Hlen; split; [exact Hall | reflexivity]).
    assert (length sigBytes = 65%nat) as -> by (specialize (Hhalf eq_refl); lia).
    reflexivity.
Qed.

(** A signature of 65 bytes is accepted for any message; one of 64 bytes,
    or with the prefix in upper case, is not. *)
Example VerifyEthereumSignature_samples :
  VerifyEthereumSignature "any message"
    ("0x" +:+ hex.EncodeToString (repeat Byte.x01 65)) = None /\
  VerifyEthereumSignature "any message" (hex.EncodeToString (repeat Byte.x01 64))
  = Some ErrInvalidSignatureLength /\
  VerifyEthereumSignature "any message"
    ("0X" +:+ hex.EncodeToString (repeat Byte.x01 65))
  = Some (ErrInvalidSignatureHex (hex.InvalidByteError "X")).
Proof. vm_compute. repeat split. Qed.

(** ** Random integers and one-time passwords *)

Lemma be_number_nonneg (bs : list byte) : (0 <= be_number bs)%Z.
Proof.
  unfold be_number.
  assert (forall acc, 0 <= acc -> 0 <= fold_left (fun acc b => acc * 256 + z_of_byte b) bs acc)%Z
    as Hfold.
  { induction bs as [|b bs IH]; intros acc Hacc; [exact Hacc|].
    cbn [fold_left]. apply IH. pose proof (z_of_byte_range b). lia. }
  apply Hfold. lia.
Qed.

Lemma rand_candidate_nonneg (r : Rand) (max : Z) (j : nat) : (0 <= rand.candidate r max j)%Z.
Proof.
  unfold rand.candidate. destruct (rand_ReadAt _ _ _); [lia | apply be_number_nonneg].
Qed.

(** The loop returns the first candidate below the bound, once the fuel
    reaches it, and more fuel does not change what it returns. *)
Lemma rand_Int_loop_finds (r : Rand) (max : Z) (i : nat) :
  (rand.candidate r max i < max)%Z ->
  forall j, (j <= i)%nat ->
  exists n,
    (0 <= n < max)%Z /\
    forall fuel, (i - j < fuel)%nat -> rand.Int_loop fuel r max j = Some n.
Proof.
  intros Hi j Hj. remember (i - j)%nat as d eqn:Hd. revert j Hj Hd.
  induction d as [|d IH]; intros j Hj Hd.
  - assert (j = i) as -> by lia.
    exists (rand.candidate r max i). split; [pose proof (rand_candidate_nonneg r max i); lia|].
    intros [|fuel] Hfuel; [lia|]. cbn [rand.Int_loop].
    destruct (Z.ltb_spec (rand.candidate r max i) max); [reflexivity | lia].
  - destruct (Z.ltb_spec (rand.candidate r max j) max) as [Hlt|Hge].
    + exists (rand.candidate r max j). split; [pose proof (rand_candidate_nonneg r max j); lia|].
      intros [|fuel] Hfuel; [lia|]. cbn [rand.Int_loop].
      destruct (Z.ltb_spec (rand.candidate r max j) max); [reflexivity | lia].
    + destruct (IH (S j) ltac:(lia) ltac:(lia)) as (n & Hn & Hloop).
      exists n. split; [exact Hn|].
      intros [|fuel] Hfuel; [lia|]. cbn [rand.Int_loop].
      destruct (Z.ltb_spec (rand.candidate r max j) max); [lia|].
      apply Hloop. lia.
Qed.

Lemma rand_Int_finds (r : Rand) (max : Z) (i : nat) :
  (0 < max)%Z -> (rand.candidate r max i < max)%Z ->
  exists n,
    (0 <= n < max)%Z /\
    forall fuel, (i < fuel)%nat -> rand.Int fuel r max = Some (Ok n).
Proof.
  intros Hmax Hi. unfold rand.Int.
  destruct (Z.leb_spec max 0) as [|_]; [lia|].
  destruct (rand.BitLen (max - 1) =? 0)%Z.
  - exists 0%Z. split; [lia | reflexivity].
  - destruct (rand_Int_loop_finds r max i Hi 0 ltac:(lia)) as (n & Hn & Hloop).
    exists n. split; [exact Hn|]. intros fuel Hfuel.
    rewrite Hloop by lia. reflexivity.
Qed.

(** X12. [secureRandomInt] panics on a bound that is not positive.  For a
    positive bound, once the random source delivers a candidate below the
    bound, it returns a value from 0 up to but excluding the bound. *)
Theorem secureRandomInt_range (rand_Reader : Rand) (max : Z) :
  ((max <= 0)%Z -> forall fuel, secureRandomInt fuel rand_Reader max = Some Panic) /\
  ((0 < max < 2 ^ 63)%Z ->
   (exists i, rand.candidate rand_Reader max i < max)%Z ->
   exists fuel n,
     (0 <= n < max)%Z /\
     forall fuel', (fuel <= fuel')%nat ->
       secureRandomInt fuel' rand_Reader max = Some (Ok n)).
Proof.
  split.
  - intros Hmax fuel. unfold secureRandomInt, rand.Int.
    destruct (Z.leb_spec max 0); [reflexivity | lia].
  - intros Hmax [i Hi].
    destruct (rand_Int_finds rand_Reader max i ltac:(lia) Hi) as (n & Hn & Hint).
    exists (S i), n. split; [exact Hn|]. intros fuel' Hfuel.
    unfold secureRandomInt. rewrite Hint by lia.
    rewrite int_wrap_small by lia. reflexivity.
Qed.

(** Decimal numerals *)

Lemma strconv_digit_decimal (d : Z) : (0 <= d < 10)%Z -> is_decimal_digit (strconv.digit d).
Proof.
  intros Hd. unfold is_decimal_digit, strconv.digit.
  rewrite N_ascii_embedding by lia. lia.
Qed.

Lemma digits_before_decimal (fuel : nat) (n : Z) (acc : string) :
  (0 <= n)%Z ->
  Forall is_decimal_digit (list_ascii_of_string acc) ->
  Forall is_decimal_digit (list_ascii_of_string (strconv.digits_before fuel n acc)).
Proof.
  revert n acc. induction fuel as [|fuel IH]; intros n acc Hn Hacc; [exact Hacc|].
  cbn [strconv.digits_before].
  assert (Forall is_decimal_digit
            (list_ascii_of_string (String (strconv.digit (n mod 10)) acc))) as Hacc'.
  { constructor; [|exact Hacc]. apply strconv_digit_decimal.
    apply Z.mod_pos_bound. lia. }
  destruct (n <? 10)%Z; [exact Hacc'|].
  apply IH; [|exact Hacc']. apply Z.div_pos; lia.
Qed.

Lemma digits_before_length (fuel : nat) (d : nat) (n : Z) (acc : string) :
  (0 <= n < 10 ^ Z.of_nat (S d))%Z ->
  (String.length (strconv.digits_before fuel n acc) <= S d + String.length acc)%nat.
Proof.
  revert d n acc. induction fuel as [|fuel IH]; intros d n acc Hn; [simpl; lia|].
  cbn [strconv.digits_before].
  destruct (Z.ltb_spec n 10) as [Hlt|Hge]; [simpl; lia|].
  destruct d as [|d]; [change (10 ^ Z.of_nat 1)%Z with 10%Z in Hn; lia|].
  etransitivity; [apply (IH d)|simpl; lia].
  split; [apply Z.div_pos; lia|].
  apply Z.div_lt_upper_bound; [lia|].
  replace (Z.of_nat (S (S d))) with (1 + Z.of_nat (S d))%Z in Hn by lia.
  rewrite Z.pow_add_r in Hn by lia. lia.
Qed.

Lemma FormatInt_nonneg (n : Z) (d : nat) :
  (0 <= n < 10 ^ Z.of_nat (S d))%Z ->
  Forall is_decimal_digit (list_ascii_of_string (strconv.FormatInt n)) /\
  (String.length (strconv.FormatInt n) <= S d)%nat.
Proof.
  intros Hn. unfold strconv.FormatInt.
  destruct (Z.ltb_spec n 0) as [|_]; [lia|].
  rewrite Z.abs_eq by lia. split.
  - apply digits_before_decimal; [lia | constructor].
  - pose proof (digits_before_length (S (Z.to_nat (Z.log2 n))) d n EmptyString Hn) as Hlen.
    cbn [String.length] in Hlen. rewrite Nat.add_0_r in Hlen. exact Hlen.
Qed.

Lemma RuneCountInString_ascii (s : string) :
  Forall (fun c => (N_of_ascii c < 128)%N) (list_ascii_of_string s) ->
  fmt.RuneCountInString s = String.length s.
Proof.
  unfold fmt.RuneCountInString. induction s as [|c s IH]; intros Hall; [reflexivity|].
  inversion Hall as [|? ? Hc Hs]; subst.
  cbn [fmt.count_from utf8.DecodeRuneInString String.length].
  destruct (N.ltb_spec (N_of_ascii c) utf8.RuneSelf) as [_|Hge];
    [|unfold utf8.RuneSelf in Hge; lia].
  cbn [snd Nat.sub]. rewrite (IH Hs). reflexivity.
Qed.

Lemma repeat_string_length (c : ascii) (n : nat) :
  String.length (string_of_list_ascii (repeat c n)) = n.
Proof. rewrite string_of_list_ascii_length, repeat_length. reflexivity. Qed.

(** The format that [GenerateOtp] builds for 1 to 18 digits asks for
    zero padding to that width. *)
Lemma Sprintf_otp_format (digits : Z) (s : string) :
  (1 <= digits <= 18)%Z ->
  fmt.Sprintf ("%0" +:+ strconv.Itoa digits +:+ "v") s
  = Some (fmt.padString true digits true s).
Proof.
  intros Hd.
  assert (In digits (map Z.of_nat (seq 1 18))) as Hin.
  { apply in_map_iff. exists (Z.to_nat digits). split; [lia|]. apply in_seq. lia. }
  cbn [seq map] in Hin.
  repeat (destruct Hin as [<-|Hin]; [reflexivity|]). destruct Hin.
Qed.

(** X13. For 1 to 18 digits, once the random source delivers a candidate
    below 10^digits, [GenerateOtp] returns exactly [digits] characters,
    all decimal digits: the decimal numeral of a value below 10^digits
    with zeros before it. *)
Theorem GenerateOtp_digits (int64_out_of_range : Z -> Z) (rand_Reader : Rand) (digits : Z) :
  (1 <= digits <= 18)%Z ->
  (exists i, rand.candidate rand_Reader (10 ^ digits) i < 10 ^ digits)%Z ->
  exists fuel otp,
    (forall fuel', (fuel <= fuel')%nat ->
       GenerateOtp int64_out_of_range fuel' rand_Reader digits = Some (Ok otp)) /\
    Z.of_nat (String.length otp) = digits /\
    Forall is_decimal_digit (list_ascii_of_string otp) /\
    exists n zeros,
      (0 <= n < 10 ^ digits)%Z /\
      otp = string_of_list_ascii (repeat "0"%char zeros) +:+ strconv.FormatInt n.
Proof.
  intros Hd [i Hi].
  assert (0 < 10 ^ digits)%Z as Hpos by (apply Z.pow_pos_nonneg; lia).
  destruct (rand_Int_finds rand_Reader (10 ^ digits) i Hpos Hi) as (n & Hn & Hint).
  assert (exists d, digits = Z.of_nat (S d)) as [d Hdigits] by (exists (Z.to_nat (digits - 1)); lia).
  destruct (FormatInt_nonneg n d ltac:(rewrite <- Hdigits; exact Hn)) as [Hdec Hlen].
  set (text := strconv.FormatInt n) in *.
  assert (fmt.RuneCountInString text = String.length text) as Hcount.
  { apply RuneCountInString_ascii. eapply Forall_impl; [exact Hdec|].
    intros c Hc. unfold is_decimal_digit in Hc. lia. }
  set (zeros := Z.to_nat (digits - Z.of_nat (String.length text))).
  exists (S i), (string_of_list_ascii (repeat "0"%char zeros) +:+ text).
  split; [|split; [|split]].
  - intros fuel' Hfuel. unfold GenerateOtp, int64_Pow10.
    destruct (Z.ltb_spec digits 0) as [|_]; [lia|].
    destruct (Z.leb_spec digits 18) as [_|]; [|lia].
    rewrite Hint by lia. rewrite (Sprintf_otp_format digits _ Hd).
    unfold fmt.padString. fold text. rewrite Hcount.
    destruct (Z.eqb_spec digits 0) as [|_]; [lia|]. reflexivity.
  - rewrite app_length_string, repeat_string_length. unfold zeros. lia.
  - rewrite list_ascii_app, list_ascii_of_list. apply Forall_app. split; [|exact Hdec].
    apply List.Forall_forall. intros c Hc. apply repeat_spec in Hc. subst c.
    unfold is_decimal_digit. cbn. lia.
  - exists n, zeros. split; [exact Hn | reflexivity].
Qed.

(** Six digits from a source of zero bytes. *)
Lemma GenerateOtp_digits_witness :
  exists fuel otp,
    (forall fuel', (fuel <= fuel')%nat ->
       GenerateOtp (fun _ => 0%Z) fuel' (fun _ => Byte.x00) 6 = Some (Ok otp)) /\
    Z.of_nat (String.length otp) = 6%Z /\
    Forall is_decimal_digit (list_ascii_of_string otp) /\
    exists n zeros,
      (0 <= n < 10 ^ 6)%Z /\
      otp = string_of_list_ascii (repeat "0"%char zeros) +:+ strconv.FormatInt n.
Proof.
  apply (GenerateOtp_digits (fun _ => 0%Z) (fun _ => Byte.x00) 6).
  - lia.
  - exists 0%nat. vm_compute. reflexivity.
Defined.

(** X14. [GenerateOtp] panics when asked for a negative number of digits
    (the bound of the random value is then zero), and when asked for no
    digits it returns the one character 0. *)
Theorem GenerateOtp_no_digits (int64_out_of_range : Z -> Z) (rand_Reader : Rand)
    (fuel : nat) (digits : Z) :
  ((digits < 0)%Z ->
   GenerateOtp int64_out_of_range fuel rand_Reader digits = Some Panic) /\
  GenerateOtp int64_out_of_range fuel rand_Reader 0 = Some (Ok "0").
Proof.
  split; [|reflexivity].
  intros Hneg. unfold GenerateOtp, int64_Pow10.
  destruct (Z.ltb_spec digits 0); [reflexivity | lia].
Qed.

Example GenerateOtp_samples :
  GenerateOtp (fun _ => 0%Z) 1 (fun i => byte_of_z (Z.of_nat i)) 6 = Some (Ok "000258") /\
  GenerateOtp (fun _ => 0%Z) 3 (fun _ => byte_of_z 255) 6 = None /\
  GenerateOtp (fun _ => (- 2 ^ 63)%Z) 3 (fun _ => Byte.x00) 19 = Some Panic /\
  GenerateOtp (fun _ => (2 ^ 63 - 1)%Z) 3 (fun _ => Byte.x00) 19
  = Some (Ok "0000000000000000000").
Proof. vm_compute. repeat split. Qed.

(** * Further properties of the envelope, the nonce store and the verifier *)

(** ** The envelope: outcomes of encryption and decryption *)

Lemma aes_NewCipher_32 (key : list byte) :
  length key = 32%nat -> aes.NewCipher key = Some (aes.key_schedule key).
Proof. intros Hlen. unfold aes.NewCipher. rewrite Hlen. reflexivity. Qed.

Lemma deriveSymmetricKey_key (id keyID keyBase64URL : string) (hkdfKey : list byte) :
  base64.DecodeString base64.RawURLEncoding keyBase64URL = Some hkdfKey ->
  length hkdfKey = 32%nat ->
  exists key,
    deriveSymmetricKey id keyID keyBase64URL = Ok key /\
    aes.NewCipher key = Some (aes.key_schedule key).
Proof.
  intros Hdec Hlen. eexists. split; [apply (deriveSymmetricKey_ok _ _ _ _ Hdec Hlen)|].
  apply aes_NewCipher_32, hmac_Sum_length.
Qed.

Lemma deriveSymmetricKey_cases (id keyID keyBase64URL : string) :
  (base64.DecodeString base64.RawURLEncoding keyBase64URL = None /\
   deriveSymmetricKey id keyID keyBase64URL = Err CorruptInputError) \/
  (exists bs, base64.DecodeString base64.RawURLEncoding keyBase64URL = Some bs /\
              length bs <> 32%nat /\
              deriveSymmetricKey id keyID keyBase64URL = Err (ErrKeyNot256Bits keyID)) \/
  (exists bs key, base64.DecodeString base64.RawURLEncoding keyBase64URL = Some bs /\
                  length bs = 32%nat /\
                  deriveSymmetricKey id keyID keyBase64URL = Ok key /\
                  aes.NewCipher key = Some (aes.key_schedule key)).
Proof.
  destruct (base64.DecodeString base64.RawURLEncoding keyBase64URL) as [bs|] eqn:Hdec.
  - destruct (Nat.eq_dec (length bs) 32) as [Hlen|Hlen].
    + right. right. destruct (deriveSymmetricKey_key id keyID _ _ Hdec Hlen) as (key & Hk & Hc).
      exists bs, key. repeat split; assumption.
    + right. left. exists bs. repeat split; try assumption.
      unfold deriveSymmetricKey. rewrite Hdec. change (256 / 8)%nat with 32%nat.
      destruct (Nat.eqb_spec (length bs) 32); [contradiction | reflexivity].
  - left. split; [reflexivity|]. unfold deriveSymmetricKey. rewrite Hdec. reflexivity.
Qed.

Lemma decoded_key_nonempty (keyBase64URL : string) (bs : list byte) :
  base64.DecodeString base64.RawURLEncoding keyBase64URL = Some bs ->
  bs <> [] -> str_empty keyBase64URL = false.
Proof.
  intros Hdec Hne. destruct keyBase64URL; [|reflexivity].
  vm_compute in Hdec. congruence.
Qed.


(** X16. With a key map that holds a non-empty key for the envelope's key
    id, [Decrypt] returns the error of the key derivation when the key is
    not unpadded URL-safe base64 or does not decode to 32 bytes. *)
Theorem Decrypt_key_errors (es : EncryptedString) (id keyBase64URL : string)
    (decryptionKeys : gmap string string) :
  decryptionKeys !! KeyID es = Some keyBase64URL ->
  keyBase64URL <> EmptyString ->
  (base64.DecodeString base64.RawURLEncoding keyBase64URL = None ->
   Decrypt es id decryptionKeys = Err CorruptInputError) /\
  (forall bs, base64.DecodeString base64.RawURLEncoding keyBase64URL = Some bs ->
     length bs <> 32%nat ->
     Decrypt es id decryptionKeys = Err (ErrKeyNot256Bits (KeyID es))).
Proof.
  intros Hkey Hne.
  assert (str_empty keyBase64URL = false) as Hnonempty
    by (destruct keyBase64URL; [contradiction | reflexivity]).
  unfold Decrypt, Decrypt_with. rewrite Hkey. cbn [from_option Datatypes.id].
  rewrite Hnonempty.
  destruct (deriveSymmetricKey_cases id (KeyID es) keyBase64URL)
    as [[Hdec ->] | [(bs & Hdec & Hlen & ->) | (bs & key & Hdec & Hlen & -> & Hcipher)]];
    cbn [mbind result_bind]; split; congruence.
Qed.

Lemma Decrypt_key_errors_witness :
  (base64.DecodeString base64.RawURLEncoding "AAAA" = None ->
   Decrypt sample_envelope "record-1" {[ "k1" := "AAAA" ]} = Err CorruptInputError) /\
  (forall bs, base64.DecodeString base64.RawURLEncoding "AAAA" = Some bs ->
     length bs <> 32%nat ->
     Decrypt sample_envelope "record-1" {[ "k1" := "AAAA" ]}
     = Err (ErrKeyNot256Bits (KeyID sample_envelope))).
Proof.
  apply (Decrypt_key_errors sample_envelope "record-1" "AAAA" {[ "k1" := "AAAA" ]}).
  - apply lookup_singleton_eq.
  - discriminate.
Defined.

(** X17. When [Decrypt] succeeds, the key map held a non-empty key for the
    envelope's key id that decodes to 32 bytes, the nonce has 12 bytes,
    and the data is the plaintext's length plus the 16 bytes of the tag. *)
Theorem Decrypt_Ok_inv (es : EncryptedString) (id : string)
    (decryptionKeys : gmap string string) (plaintext : list byte) :
  Decrypt es id decryptionKeys = Ok plaintext ->
  (exists keyBase64URL hkdfKey,
     decryptionKeys !! KeyID es = Some keyBase64URL /\ keyBase64URL <> EmptyString /\
     base64.DecodeString base64.RawURLEncoding keyBase64URL = Some hkdfKey /\
     length hkdfKey = 32%nat) /\
  length (Nonce es) = 12%nat /\
  length (Data es) = (length plaintext + 16)%nat.
Proof.
  unfold Decrypt, Decrypt_with.
  destruct (decryptionKeys !! KeyID es) as [keyBase64URL|] eqn:Hkey;
    cbn [from_option Datatypes.id]; [|discriminate].
  destruct (str_empty keyBase64URL) eqn:Hempty; [discriminate|].
  destruct (deriveSymmetricKey_cases id (KeyID es) keyBase64URL)
    as [[Hdec ->] | [(bs & Hdec & Hlen & ->) | (bs & key & Hdec & Hlen & -> & Hcipher)]];
    cbn [mbind result_bind]; try discriminate.
  rewrite Hcipher. cbn [must mbind result_bind].
  unfold open, gcm.Open, gcm.NonceSize, gcm.TagSize.
  destruct (Nat.eqb_spec (length (Nonce es)) 12) as [Hnonce|]; cbn [negb]; [|discriminate].
  destruct (Nat.ltb_spec (length (Data es)) 16) as [|Hdata]; [discriminate|].
  destruct (bool_decide _); [|discriminate].
  intros [= <-]. split; [|split].
  - exists keyBase64URL, bs. repeat split; try assumption.
    intros ->. discriminate.
  - exact Hnonce.
  - rewrite gcm_xor_stream_length, length_take. lia.
Qed.

Lemma Decrypt_Ok_inv_witness :
  (exists keyBase64URL hkdfKey,
     ({[ "k1" := sample_key ]} : gmap string string) !! KeyID secret_envelope
     = Some keyBase64URL /\ keyBase64URL <> EmptyString /\
     base64.DecodeString base64.RawURLEncoding keyBase64URL = Some hkdfKey /\
     length hkdfKey = 32%nat) /\
  length (Nonce secret_envelope) = 12%nat /\
  length (Data secret_envelope) = (length (bytes_of "secret") + 16)%nat.
Proof.
  apply (Decrypt_Ok_inv secret_envelope "record-1" {[ "k1" := sample_key ]}
           (bytes_of "secret")).
  vm_compute. reflexivity.
Defined.

(** X18. With a valid key and a nonce of 12 bytes, data shorter than the
    16 bytes of a tag fails authentication: [Decrypt] returns the error
    of [AEAD.Open]. *)
Theorem Decrypt_short_data (es : EncryptedString) (id keyBase64URL : string)
    (hkdfKey : list byte) (decryptionKeys : gmap string string) :
  decryptionKeys !! KeyID es = Some keyBase64URL ->
  base64.DecodeString base64.RawURLEncoding keyBase64URL = Some hkdfKey ->
  length hkdfKey = 32%nat ->
  length (Nonce es) = 12%nat ->
  (length (Data es) < 16)%nat ->
  Decrypt es id decryptionKeys = Err ErrOpen.
Proof.
  intros Hkey Hdec Hlen Hnonce Hdata.
  destruct (deriveSymmetricKey_key id (KeyID es) _ _ Hdec Hlen) as (key & Hderive & Hcipher).
  assert (str_empty keyBase64URL = false) as Hnonempty.
  { apply (decoded_key_nonempty _ _ Hdec). intros ->. discriminate. }
  unfold Decrypt, Decrypt_with. rewrite Hkey. cbn [from_option Datatypes.id].
  rewrite Hnonempty, Hderive. cbn [mbind result_bind].
  rewrite Hcipher. cbn [must mbind result_bind].
  unfold open, gcm.Open, gcm.NonceSize, gcm.TagSize. rewrite Hnonce. cbn [Nat.eqb negb].
  destruct (Nat.ltb_spec (length (Data es)) 16); [reflexivity | lia].
Qed.

Lemma Decrypt_short_data_witness :
  Decrypt {| KeyID := "k1"; Algorithm := "aes-gcm-hkdf"; Data := [Byte.x01];
             Nonce := hex "000102030405060708090a0b" |} "record-1"
    {[ "k1" := sample_key ]} = Err ErrOpen.
Proof.
  apply (Decrypt_short_data
           {| KeyID := "k1"; Algorithm := "aes-gcm-hkdf"; Data := [Byte.x01];
              Nonce := hex "000102030405060708090a0b" |} "record-1" sample_key
           (repeat Byte.x00 32)).
  - apply lookup_singleton_eq.
  - vm_compute. reflexivity.
  - reflexivity.
  - reflexivity.
  - cbn. lia.
Defined.

(** What [NewEncryptedString] returns under a valid key, and that opening
    its data with the derived key gives the plaintext. *)
Lemma NewEncryptedString_sealed (rand_Reader : Rand) (id : string) (data : list byte)
    (keyID keyBase64URL : string) (hkdfKey : list byte) :
  base64.DecodeString base64.RawURLEncoding keyBase64URL = Some hkdfKey ->
  length hkdfKey = 32%nat ->
  exists key sealed,
    deriveSymmetricKey id keyID keyBase64URL = Ok key /\
    aes.NewCipher key = Some (aes.key_schedule key) /\
    NewEncryptedString rand_Reader id data keyID keyBase64URL
    = Ok {| KeyID := keyID; Algorithm := "aes-gcm-hkdf"; Data := sealed;
            Nonce := rand_ReadFull rand_Reader 12 |} /\
    open (aes.key_schedule key) (rand_ReadFull rand_Reader 12) sealed = Ok data.
Proof.
  intros Hdec Hlen.
  destruct (deriveSymmetricKey_key id keyID _ _ Hdec Hlen) as (key & Hderive & Hcipher).
  destruct (gcm_Open_Seal (aes.key_schedule key) (rand_ReadFull rand_Reader 12)
              data [] (rand_ReadFull_length _ _)) as (sealed & Hseal & Hopen).
  exists key, sealed. repeat split; try assumption.
  - unfold NewEncryptedString. rewrite Hderive. cbn [mbind result_bind].
    rewrite Hcipher. cbn [must mbind result_bind]. unfold seal. rewrite Hseal. reflexivity.
  - unfold open. rewrite Hopen. reflexivity.
Qed.

(** X19. [Decrypt] does not look at the algorithm tag: the envelope that
    [NewEncryptedString] returns decrypts to the plaintext under every
    tag put in its place, also one that [IsValid] refuses. *)
Theorem Decrypt_ignores_algorithm (rand_Reader : Rand) (id : string)
    (data : list byte) (keyID keyBase64URL : string) (hkdfKey : list byte)
    (decryptionKeys : gmap string string) :
  base64.DecodeString base64.RawURLEncoding keyBase64URL = Some hkdfKey ->
  length hkdfKey = 32%nat ->
  decryptionKeys !! keyID = Some keyBase64URL ->
  exists es,
    NewEncryptedString rand_Reader id data keyID keyBase64URL = Ok es /\
    forall alg,
      Decrypt {| KeyID := KeyID es; Algorithm := alg; Data := Data es; Nonce := Nonce es |}
        id decryptionKeys = Ok data.
Proof.
  intros Hdec Hlen Hkey.
  destruct (NewEncryptedString_sealed rand_Reader id data keyID _ _ Hdec Hlen)
    as (key & sealed & Hderive & Hcipher & Hnew & Hopen).
  eexists. split; [exact Hnew|]. intros alg.
  assert (str_empty keyBase64URL = false) as Hnonempty.
  { apply (decoded_key_nonempty _ _ Hdec). intros ->. discriminate. }
  unfold Decrypt, Decrypt_with. cbn [KeyID Nonce Data]. rewrite Hkey.
  cbn [from_option Datatypes.id]. rewrite Hnonempty, Hderive. cbn [mbind result_bind].
  rewrite Hcipher. cbn [must mbind result_bind]. exact Hopen.
Qed.

Lemma Decrypt_ignores_algorithm_witness :
  exists es,
    NewEncryptedString (fun i => byte_of_z (Z.of_nat i)) "record-1" (bytes_of "secret")
      "k1" sample_key = Ok es /\
    forall alg,
      Decrypt {| KeyID := KeyID es; Algorithm := alg; Data := Data es; Nonce := Nonce es |}
        "record-1" {[ "k1" := sample_key ]} = Ok (bytes_of "secret").
Proof.
  apply (Decrypt_ignores_algorithm _ _ _ _ _ (repeat Byte.x00 32)).
  - vm_compute. reflexivity.
  - reflexivity.
  - apply lookup_singleton_eq.
Defined.

(** X20. An envelope made under a key id needs no re-encryption under
    that key id, and needs it under every other. *)
Theorem NewEncryptedString_ShouldReEncrypt (rand_Reader : Rand) (id : string)
    (data : list byte) (keyID keyBase64URL : string) (es : EncryptedString) :
  NewEncryptedString rand_Reader id data keyID keyBase64URL = Ok es ->
  ShouldReEncrypt es keyID = false /\
  forall encryptionKeyID, encryptionKeyID <> keyID -> ShouldReEncrypt es encryptionKeyID = true.
Proof.
  intros Hnew.
  assert (KeyID es = keyID) as Hid.
  { unfold NewEncryptedString in Hnew.
    destruct (deriveSymmetricKey id keyID keyBase64URL) as [key| |];
      cbn [mbind result_bind] in Hnew; try discriminate.
    destruct (must (aes.NewCipher key)) as [block| |]; cbn [mbind result_bind] in Hnew;
      try discriminate.
    destruct (seal block _ data) as [ct| |]; cbn [mbind result_bind] in Hnew;
      try discriminate.
    injection Hnew as <-. reflexivity. }
  unfold ShouldReEncrypt. rewrite Hid. split.
  - rewrite String.eqb_refl. reflexivity.
  - intros k Hk. destruct (String.eqb_spec keyID k); [congruence | reflexivity].
Qed.

Lemma NewEncryptedString_ShouldReEncrypt_witness :
  ShouldReEncrypt secret_envelope "k1" = false /\
  forall encryptionKeyID,
    encryptionKeyID <> "k1" -> ShouldReEncrypt secret_envelope encryptionKeyID = true.
Proof.
  apply (NewEncryptedString_ShouldReEncrypt (fun i => byte_of_z (Z.of_nat i)) "record-1"
           (bytes_of "secret") "k1" sample_key secret_envelope).
  vm_compute. reflexivity.
Defined.

(** ** The nonce store: expiry and what a call may change *)

(** X21. For an issued nonce, consuming it with its address succeeds
    exactly when the clock is not after [ExpiresAt] (the instant
    [ExpiresAt] itself is still in time), and fails with the expiration
    error exactly when it is after. *)
Theorem consume_issued_iff (db : Table) (i : nat) (row : StoredNonce.t) (now : Time) :
  issued db i row ->
  ((VerifyAndConsumeNonce db (StoredNonce.Nonce row) (StoredNonce.Address row) now).2 = None
   <-> (now <= StoredNonce.ExpiresAt row)%Z) /\
  ((VerifyAndConsumeNonce db (StoredNonce.Nonce row) (StoredNonce.Address row) now).2
   = Some ErrNonceExpired <-> (StoredNonce.ExpiresAt row < now)%Z).
Proof.
  intros Hiss. unfold VerifyAndConsumeNonce, Transaction.
  rewrite (QueryRow_issued _ _ _ Hiss). unfold time.After.
  destruct (Z.ltb_spec (StoredNonce.ExpiresAt row) now); cbn [snd];
    (split; split; intros H0; try discriminate; try reflexivity; try lia).
Qed.

(** The sample nonce at the very instant it expires. *)
Lemma consume_issued_iff_witness :
  ((VerifyAndConsumeNonce sample_table (StoredNonce.Nonce sample_row)
      (StoredNonce.Address sample_row) 2000%Z).2 = None
   <-> (2000 <= StoredNonce.ExpiresAt sample_row)%Z) /\
  ((VerifyAndConsumeNonce sample_table (StoredNonce.Nonce sample_row)
      (StoredNonce.Address sample_row) 2000%Z).2 = Some ErrNonceExpired
   <-> (StoredNonce.ExpiresAt sample_row < 2000)%Z).
Proof.
  apply (consume_issued_iff sample_table 1 sample_row 2000%Z).
  exact sample_row_issued.
Defined.

Lemma ExecUpdate_kept (db : Table) (address : string) (id : UUID) :
  Forall2 (row_kept address) db (ExecUpdate db address id).
Proof.
  unfold ExecUpdate. induction db as [|r db IH]; [constructor|].
  cbn [map]. constructor; [|exact IH].
  destruct (StoredNonce.ID r =? id)%N; unfold row_kept; cbn; auto 10.
Qed.

Lemma Forall2_row_kept_refl (address : string) (db : Table) :
  Forall2 (row_kept address) db db.
Proof.
  induction db as [|r db IH]; constructor; [|exact IH].
  unfold row_kept. auto 10.
Qed.

(** X22. A call of [VerifyAndConsumeNonce] adds, deletes and reorders no
    row, and changes no id, nonce or timestamp; a row it changes has
    [used] set and carries the address of the call; a call that returns
    an error changes nothing. *)
Theorem consume_frame (db db' : Table) (nonce address : string) (now : Time)
    (err : option ConsumeError) :
  VerifyAndConsumeNonce db nonce address now = (db', err) ->
  length db' = length db /\
  Forall2 (row_kept address) db db' /\
  (err <> None -> db' = db).
Proof.
  unfold VerifyAndConsumeNonce, Transaction.
  destruct (QueryRow db nonce address) as [r|].
  - destruct (time.After now (StoredNonce.ExpiresAt r)); intros [= <- <-].
    + split; [reflexivity|]. split; [apply Forall2_row_kept_refl | reflexivity].
    + split; [|split].
      * unfold ExecUpdate. apply length_map.
      * apply ExecUpdate_kept.
      * intros Hne. destruct Hne. reflexivity.
  - intros [= <- <-]. split; [reflexivity|].
    split; [apply Forall2_row_kept_refl | reflexivity].
Qed.

Lemma consume_frame_witness :
  length (ExecUpdate sample_table (StoredNonce.Address sample_row) 2%N)
  = length sample_table /\
  Forall2 (row_kept (StoredNonce.Address sample_row)) sample_table
    (ExecUpdate sample_table (StoredNonce.Address sample_row) 2%N) /\
  ((None : option ConsumeError) <> None ->
   ExecUpdate sample_table (StoredNonce.Address sample_row) 2%N = sample_table).
Proof.
  apply (consume_frame sample_table _ "abcdefgh"
           "2EZEiBdw47VHT6SpZSW9VnuSvBe7DxuYHBTxj19gxvv8" 1500%Z None).
  vm_compute. reflexivity.
Defined.

(** ** The verifier and the clock *)

Section ClockFacts.
Context `{Externals}.

(** The checks before the time validations do not read the clock. *)
Lemma VerifySIWS_clock (rawMessage : string) (signature : list byte)
    (m : siws.SIWSMessage) (params : siws.SIWSVerificationParams) :
  exists static : option siws.Error,
    forall now,
      VerifySIWS rawMessage signature (Some m) params now
      = match static with
        | Some e => Some e
        | None => time_validations m params now
        end.
Proof.
  unfold VerifySIWS.
  repeat match goal with
         | |- context [if ?c then Some ?e else _] =>
             destruct c; [exists (Some e); reflexivity|]
         end.
  destruct (check_resources (siws.Resources m)) as [e|]; [exists (Some e); reflexivity|].
  repeat match goal with
         | |- context [if ?c then Some ?e else _] =>
             destruct c; [exists (Some e); reflexivity|]
         end.
  exists None. reflexivity.
Qed.

(** The time validations pass exactly at the instants from [IssuedAt] and
    [NotBefore] on (where set) up to [ExpirationTime] (where set) and, when
    [IssuedAt] is set and the age check is on, up to [IssuedAt] plus
    [TimeDuration]. *)
Lemma time_validations_None (m : siws.SIWSMessage) (params : siws.SIWSVerificationParams)
    (now : Time) :
  time_validations m params now = None <->
  ((siws.IssuedAt m = 0 \/
    (siws.IssuedAt m <= now /\
     (siws.CheckTime params = true -> 0 < siws.TimeDuration params ->
      now <= siws.IssuedAt m + siws.TimeDuration params))) /\
   (siws.NotBefore m = 0 \/ siws.NotBefore m <= now) /\
   (siws.ExpirationTime m = 0 \/ now <= siws.ExpirationTime m))%Z.
Proof.
  unfold time_validations, time.IsZero, time.Before, time.After, time.Add.
  destruct (Z.eqb_spec (siws.IssuedAt m) 0) as [Hi|Hi];
  destruct (Z.eqb_spec (siws.NotBefore m) 0) as [Hn|Hn];
  destruct (Z.eqb_spec (siws.ExpirationTime m) 0) as [He|He];
  cbn [negb];
  repeat match goal with
         | |- context [(?a <? ?b)%Z] => destruct (Z.ltb_spec a b)
         | |- context [siws.CheckTime params] => destruct (siws.CheckTime params)
         end;
  cbn [andb]; split; try discriminate; try reflexivity; intros; try lia;
    repeat split; try lia; try (left; lia); try (right; lia);
    try (right; split; [lia | intros; try discriminate; lia]).
Qed.

(** X23. The age limit needs [IssuedAt]: a message with neither
    [IssuedAt] nor [ExpirationTime] that passes verification passes it at
    every later instant too, whatever [CheckTime] and [TimeDuration] are. *)
Theorem VerifySIWS_no_age_limit (rawMessage : string) (signature : list byte)
    (m : siws.SIWSMessage) (params : siws.SIWSVerificationParams) (now later : Time) :
  time.IsZero (siws.IssuedAt m) = true ->
  time.IsZero (siws.ExpirationTime m) = true ->
  VerifySIWS rawMessage signature (Some m) params now = None ->
  (now <= later)%Z ->
  VerifySIWS rawMessage signature (Some m) params later = None.
Proof.
  intros Hissued Hexp Hnow Hlater.
  apply Z.eqb_eq in Hissued, Hexp.
  destruct (VerifySIWS_clock rawMessage signature m params) as [static Hclock].
  rewrite Hclock in *. destruct static as [e|]; [discriminate|].
  apply time_validations_None in Hnow. apply time_validations_None. lia.
Qed.

(** X24. The instants at which a message passes verification form an
    interval: what passes at two instants passes at every instant
    between them. *)
Theorem VerifySIWS_accepted_interval (rawMessage : string) (signature : list byte)
    (m : siws.SIWSMessage) (params : siws.SIWSVerificationParams) (t1 t t2 : Time) :
  VerifySIWS rawMessage signature (Some m) params t1 = None ->
  VerifySIWS rawMessage signature (Some m) params t2 = None ->
  (t1 <= t <= t2)%Z ->
  VerifySIWS rawMessage signature (Some m) params t = None.
Proof.
  intros H1 H2 Ht.
  destruct (VerifySIWS_clock rawMessage signature m params) as [static Hclock].
  rewrite Hclock in *. destruct static as [e|]; [discriminate|].
  apply time_validations_None in H1, H2. apply time_validations_None.
  destruct H1 as (Hi1 & Hn1 & He1), H2 as (Hi2 & Hn2 & He2).
  repeat split; try lia.
  destruct Hi1 as [|[Hi1 Ha1]]; [left; assumption|].
  destruct Hi2 as [|[Hi2 Ha2]]; [left; assumption|].
  right. split; [lia|]. intros Hc Hd. specialize (Ha2 Hc Hd). lia.
Qed.

End ClockFacts.

Lemma VerifySIWS_no_age_limit_witness :
  @VerifySIWS stand_ins (rawMessageBytes signed_input) (signatureBytes signed_input)
    (Some (sample_message "" [])) (verifyParams signed_input) 1000000%Z = None.
Proof.
  apply (@VerifySIWS_no_age_limit stand_ins _ _ _ _ 5%Z 1000000%Z).
  - reflexivity.
  - reflexivity.
  - vm_compute. reflexivity.
  - lia.
Defined.

Lemma VerifySIWS_accepted_interval_witness :
  @VerifySIWS stand_ins (rawMessageBytes signed_input) (signatureBytes signed_input)
    (Some (sample_message "" [])) (verifyParams signed_input) 7%Z = None.
Proof.
  apply (@VerifySIWS_accepted_interval stand_ins _ _ _ _ 5%Z 7%Z 9%Z).
  - vm_compute. reflexivity.
  - vm_compute. reflexivity.
  - lia.
Defined.

(** ** The envelope at rest *)

(** Serializing a valid envelope whose key id is valid UTF-8 and parsing
    the string gives the envelope back. *)
Lemma Parse_String_valid (es : EncryptedString) :
  IsValid es = true -> utf8.ValidString (KeyID es) = true ->
  ParseEncryptedString (String_ es) = Some es.
Proof.
  intros Hvalid Hutf8.
  destruct (IsValid_fields es Hvalid) as (Hkey & Hdata & Hnonce & Halg).
  unfold ParseEncryptedString, String_.
  rewrite Marshal_prefix, (Unmarshal_Marshal es Hdata Hnonce). cbn [negb].
  rewrite (unquote_escape _ Hutf8), Halg.
  change (jsonscan.unquote (json.escape_from "aes-gcm-hkdf" 0)) with "aes-gcm-hkdf".
  rewrite <- Halg.
  replace {| KeyID := KeyID es; Algorithm := Algorithm es; Data := Data es;
             Nonce := Nonce es |} with es by (destruct es; reflexivity).
  rewrite Hvalid. reflexivity.
Qed.

(** X25. A secret at rest: under a valid key and a key id that is not
    empty and is valid UTF-8, the envelope [NewEncryptedString] returns,
    written with [String] and read back with [ParseEncryptedString], is
    the same envelope, and [Decrypt] recovers the plaintext from it. *)
Theorem stored_envelope_roundtrip (rand_Reader : Rand) (id : string) (data : list byte)
    (keyID keyBase64URL : string) (hkdfKey : list byte)
    (decryptionKeys : gmap string string) :
  base64.DecodeString base64.RawURLEncoding keyBase64URL = Some hkdfKey ->
  length hkdfKey = 32%nat ->
  decryptionKeys !! keyID = Some keyBase64URL ->
  keyID <> EmptyString ->
  utf8.ValidString keyID = true ->
  exists es,
    NewEncryptedString rand_Reader id data keyID keyBase64URL = Ok es /\
    ParseEncryptedString (String_ es) = Some es /\
    Decrypt es id decryptionKeys = Ok data.
Proof.
  intros Hdec Hlen Hkey Hne Hutf8.
  destruct (NewEncryptedString_sealed rand_Reader id data keyID _ _ Hdec Hlen)
    as (key & sealed & Hderive & Hcipher & Hnew & Hopen).
  eexists. split; [exact Hnew|]. split.
  - apply Parse_String_valid; [|exact Hutf8].
    unfold IsValid. cbn [KeyID Algorithm Data Nonce].
    rewrite rand_ReadFull_length.
    assert (str_empty keyID = false) as -> by (destruct keyID; [contradiction | reflexivity]).
    assert ((0 <? length sealed)%nat = true) as ->.
    { apply Nat.ltb_lt. unfold open, gcm.Open, gcm.NonceSize, gcm.TagSize in Hopen.
      rewrite rand_ReadFull_length in Hopen. cbn [Nat.eqb negb] in Hopen.
      destruct (Nat.ltb_spec (length sealed) 16); [discriminate | lia]. }
    reflexivity.
  - assert (str_empty keyBase64URL = false) as Hnonempty.
    { apply (decoded_key_nonempty _ _ Hdec). intros ->. discriminate. }
    unfold Decrypt, Decrypt_with. cbn [KeyID Nonce Data]. rewrite Hkey.
    cbn [from_option Datatypes.id]. rewrite Hnonempty, Hderive. cbn [mbind result_bind].
    rewrite Hcipher. cbn [must mbind result_bind]. exact Hopen.
Qed.

Lemma stored_envelope_roundtrip_witness :
  exists es,
    NewEncryptedString (fun i => byte_of_z (Z.of_nat i)) "record-1" (bytes_of "secret")
      "k1" sample_key = Ok es /\
    ParseEncryptedString (String_ es) = Some es /\
    Decrypt es "record-1" {[ "k1" := sample_key ]} = Ok (bytes_of "secret").
Proof.
  apply (stored_envelope_roundtrip _ _ _ _ _ (repeat Byte.x00 32)).
  - vm_compute. reflexivity.
  - reflexivity.
  - apply lookup_singleton_eq.
  - discriminate.
  - reflexivity.
Defined.

(** ** The nonce store: one nonce and another *)

(** X26. Consuming one issued nonce leaves another issued nonce, whose row
    has a different id, issued: it can still be consumed afterwards. *)
Theorem consume_leaves_other_nonces (db : Table) (i j : nat) (row other : StoredNonce.t)
    (now later : Time) :
  issued db i row -> issued db j other ->
  StoredNonce.ID other <> StoredNonce.ID row ->
  time.After now (StoredNonce.ExpiresAt row) = false ->
  time.After later (StoredNonce.ExpiresAt other) = false ->
  exists db' db'',
    VerifyAndConsumeNonce db (StoredNonce.Nonce row) (StoredNonce.Address row) now
    = (db', None) /\
    issued db' j other /\
    VerifyAndConsumeNonce db' (StoredNonce.Nonce other) (StoredNonce.Address other) later
    = (db'', None).
Proof.
  intros Hrow Hother Hid Hnow Hlater.
  set (db' := ExecUpdate db (StoredNonce.Address row) (StoredNonce.ID row)).
  assert (issued db' j other) as Hother'.
  { destruct Hother as (Hj & Hunused & Huniq). split; [|split; [exact Hunused|]].
    - unfold db', ExecUpdate. rewrite list_lookup_fmap, Hj. cbn [fmap option_fmap option_map].
      destruct (N.eqb_spec (StoredNonce.ID other) (StoredNonce.ID row)); [contradiction|].
      reflexivity.
    - intros k r Hk Hsel. unfold db', ExecUpdate in Hk.
      rewrite list_lookup_fmap in Hk.
      destruct (db !! k) as [r0|] eqn:Hk0; [|discriminate].
      cbn [fmap option_fmap option_map] in Hk. injection Hk as <-.
      destruct (StoredNonce.ID r0 =? StoredNonce.ID row)%N.
      + unfold selects in Hsel. cbn in Hsel. rewrite andb_false_r in Hsel. discriminate.
      + apply (Huniq k r0 Hk0 Hsel). }
  exists db', (ExecUpdate db' (StoredNonce.Address other) (StoredNonce.ID other)).
  split; [apply (consume_issued db i row now Hrow Hnow)|].
  split; [exact Hother'|].
  apply (consume_issued db' j other later Hother' Hlater).
Qed.

Lemma two_nonces_issued : issued two_nonces 0 sample_row /\ issued two_nonces 1 other_row.
Proof.
  split; (split; [reflexivity|]; split; [reflexivity|]);
    intros [|[|k]] r Hk Hsel; try reflexivity; try (destruct k; discriminate);
    injection Hk as <-; vm_compute in Hsel; discriminate.
Defined.

Lemma consume_leaves_other_nonces_witness :
  exists db' db'',
    VerifyAndConsumeNonce two_nonces (StoredNonce.Nonce sample_row)
      (StoredNonce.Address sample_row) 1500%Z = (db', None) /\
    issued db' 1 other_row /\
    VerifyAndConsumeNonce db' (StoredNonce.Nonce other_row)
      (StoredNonce.Address other_row) 1600%Z = (db'', None).
Proof.
  apply (consume_leaves_other_nonces two_nonces 0 1 sample_row other_row 1500%Z 1600%Z).
  - exact (proj1 two_nonces_issued).
  - exact (proj2 two_nonces_issued).
  - discriminate.
  - reflexivity.
  - reflexivity.
Defined.
